(** * Paged KV cache and tiered layer window: a shallow embedding

    The development follows [src/llama-kv-cache-paged.{h,cpp}] and
    [src/llama-layer-window.{h,cpp}].  Unsigned 32-bit values are integers
    reduced modulo [2^32], [size_t] values modulo [2^64]; [std::vector] is a
    list in index order ([push_back] appends at the end, [back] is the last
    element); [std::unordered_map] is a finite map.  A call either returns,
    stops on a failed [assert] (only when assertions are compiled in), or has
    no defined behaviour (out-of-range [operator[]], division by zero,
    signed overflow). *)

From Stdlib Require Import ZArith Lia List Sorting.Sorted Sorting.Permutation.
From stdpp Require Import base decidable option list gmap.

Open Scope Z_scope.

(** ** Machine arithmetic *)

Definition wrap32 (z : Z) : Z := z mod 2 ^ 32.
Definition wrap64 (z : Z) : Z := z mod 2 ^ 64.

Definition is_u32 (z : Z) : Prop := 0 <= z < 2 ^ 32.
Definition is_i32 (z : Z) : Prop := - 2 ^ 31 <= z < 2 ^ 31.
Definition is_u64 (z : Z) : Prop := 0 <= z < 2 ^ 64.

Definition UINT32_MAX : Z := 2 ^ 32 - 1.

(** ** Outcomes of a call *)

(** [NDEBUG] undefined ([Debug]: [assert] is checked) or defined
    ([Release]: [assert] expands to nothing). *)
Inductive build : Type := Debug | Release.

Inductive outcome (A : Type) : Type :=
| Done (a : A)      (* the call returned *)
| AssertFail        (* a checked [assert] failed: the process aborts *)
| Undefined.        (* the C++ standard gives the execution no meaning *)

Arguments Done {A} a.
Arguments AssertFail {A}.
Arguments Undefined {A}.

Definition bind {A B : Type} (m : outcome A) (k : A -> outcome B) : outcome B :=
  match m with
  | Done a => k a
  | AssertFail => AssertFail
  | Undefined => Undefined
  end.

Declare Scope outcome_scope.
Delimit Scope outcome_scope with outcome.
Notation "x <- m ;; k" := (bind m (fun x => k))
  (at level 100, m at next level, right associativity) : outcome_scope.
Notation "m ;;; k" := (bind m (fun _ => k))
  (at level 100, right associativity) : outcome_scope.
Open Scope outcome_scope.

(** [assert(c)]: the condition is evaluated only when assertions are
    compiled in. *)
Definition assert_ (bm : build) (c : outcome bool) : outcome unit :=
  match bm with
  | Release => Done tt
  | Debug => b <- c ;; if (b : bool) then Done tt else AssertFail
  end.

(** [v[i]] as an rvalue and [v[i] = x]; an index past the end has no defined
    behaviour. *)
Definition vec_at {A : Type} (v : list A) (i : Z) : outcome A :=
  if i <? 0 then Undefined
  else match v !! Z.to_nat i with
       | Some x => Done x
       | None => Undefined
       end.

Definition vec_set {A : Type} (v : list A) (i : Z) (x : A) : outcome (list A) :=
  if i <? 0 then Undefined
  else if bool_decide (Z.to_nat i < length v)%nat
       then Done (<[Z.to_nat i := x]> v)
       else Undefined.

(** A range-based [for] whose body may stop the execution. *)
Fixpoint for_each {A S : Type} (body : S -> A -> outcome S) (l : list A) (s : S)
  : outcome S :=
  match l with
  | [] => Done s
  | x :: l' => s' <- body s x ;; for_each body l' s'
  end.

(** ** llama_block_allocator *)

Record llama_block_allocator : Type := mk_allocator {
  block_size : Z;          (* uint32_t: tokens per block *)
  num_blocks : Z;          (* uint32_t: total physical blocks *)
  free_list  : list Z;     (* std::vector<uint32_t>: stack of free block ids *)
  ref_count  : list Z      (* std::vector<uint32_t>: reference count per block *)
}.

(** The constructor's loop
    [for (uint32_t i = num_blocks; i > 0; --i) free_list.push_back(i - 1);] *)
Fixpoint init_free_list (i : nat) (fl : list Z) : list Z :=
  match i with
  | O => fl
  | S j => init_free_list j (fl ++ [Z.of_nat j])
  end.

(** [llama_block_allocator(total_cells, blk_size)].  The member initialisers
    (with the division) run before the assertions of the body. *)
Definition construct (bm : build) (total_cells blk_size : Z)
  : outcome llama_block_allocator :=
  if blk_size =? 0 then Undefined
  else
    let nb := total_cells / blk_size in
    assert_ bm (Done (0 <? blk_size)) ;;;
    assert_ bm (Done (blk_size <=? total_cells)) ;;;
    Done {| block_size := blk_size;
            num_blocks := nb;
            free_list  := init_free_list (Z.to_nat nb) [];
            ref_count  := replicate (Z.to_nat nb) 0 |}.

Definition set_ref_count (a : llama_block_allocator) (rc : list Z) :=
  {| block_size := block_size a; num_blocks := num_blocks a;
     free_list := free_list a; ref_count := rc |}.

Definition set_free_list (a : llama_block_allocator) (fl : list Z) :=
  {| block_size := block_size a; num_blocks := num_blocks a;
     free_list := fl; ref_count := ref_count a |}.

(** [allocate()] *)
Definition allocate (bm : build) (a : llama_block_allocator)
  : outcome (Z * llama_block_allocator) :=
  assert_ bm (Done (negb (bool_decide (free_list a = [])))) ;;;
  match last (free_list a) with
  | None => Undefined                               (* back() of an empty vector *)
  | Some block_id =>
      let a1 := set_free_list a (removelast (free_list a)) in
      assert_ bm (rc <- vec_at (ref_count a1) block_id ;; Done (rc =? 0)) ;;;
      rc' <- vec_set (ref_count a1) block_id 1 ;;
      Done (block_id, set_ref_count a1 rc')
  end.

(** [free_block(block_id)] *)
Definition free_block (bm : build) (a : llama_block_allocator) (block_id : Z)
  : outcome llama_block_allocator :=
  assert_ bm (Done (block_id <? num_blocks a)) ;;;
  assert_ bm (rc <- vec_at (ref_count a) block_id ;; Done (0 <? rc)) ;;;
  rc <- vec_at (ref_count a) block_id ;;
  let dec := wrap32 (rc - 1) in
  cnt <- vec_set (ref_count a) block_id dec ;;
  let a1 := set_ref_count a cnt in
  if dec =? 0
  then Done (set_free_list a1 (free_list a1 ++ [block_id]))
  else Done a1.

(** [inc_ref(block_id)] *)
Definition inc_ref (bm : build) (a : llama_block_allocator) (block_id : Z)
  : outcome llama_block_allocator :=
  assert_ bm (Done (block_id <? num_blocks a)) ;;;
  assert_ bm (rc <- vec_at (ref_count a) block_id ;; Done (0 <? rc)) ;;;
  rc <- vec_at (ref_count a) block_id ;;
  cnt <- vec_set (ref_count a) block_id (wrap32 (rc + 1)) ;;
  Done (set_ref_count a cnt).

Definition can_allocate (a : llama_block_allocator) (n_blocks : Z) : bool :=
  n_blocks <=? Z.of_nat (length (free_list a)).

Definition num_free (a : llama_block_allocator) : Z :=
  wrap32 (Z.of_nat (length (free_list a))).

Definition total (a : llama_block_allocator) : Z := num_blocks a.

(** ** llama_block_table *)

(** [llama_seq_id] and [llama_pos] are the [int32_t] typedefs of [llama.h]. *)
Record llama_block_table : Type := mk_table {
  tbl_block_size : Z;              (* uint32_t block_size = 0 *)
  tables : gmap Z (list Z)         (* seq_id -> physical block ids, in logical order *)
}.

Definition set_tables (t : llama_block_table) (m : gmap Z (list Z)) :=
  {| tbl_block_size := tbl_block_size t; tables := m |}.

(** [(uint32_t) pos / block_size] and [(uint32_t) pos % block_size] *)
Definition udiv32 (x y : Z) : outcome Z :=
  if y =? 0 then Undefined else Done (x / y).
Definition umod32 (x y : Z) : outcome Z :=
  if y =? 0 then Undefined else Done (x mod y).

(** [logical_to_physical(seq, pos)] *)
Definition logical_to_physical (bm : build) (t : llama_block_table) (seq pos : Z)
  : outcome Z :=
  assert_ bm (Done (0 <=? pos)) ;;;
  assert_ bm (Done (bool_decide (is_Some (tables t !! seq)))) ;;;
  match tables t !! seq with
  | None => Undefined                               (* it == tables.end() *)
  | Some blocks =>
      logical_block <- udiv32 (wrap32 pos) (tbl_block_size t) ;;
      assert_ bm (Done (logical_block <? Z.of_nat (length blocks))) ;;;
      b <- vec_at blocks logical_block ;;
      off <- umod32 (wrap32 pos) (tbl_block_size t) ;;
      Done (wrap32 (wrap32 (b * tbl_block_size t) + off))
  end.

(** [get_block_id(seq, pos)] *)
Definition get_block_id (bm : build) (t : llama_block_table) (seq pos : Z)
  : outcome Z :=
  assert_ bm (Done (0 <=? pos)) ;;;
  assert_ bm (Done (bool_decide (is_Some (tables t !! seq)))) ;;;
  match tables t !! seq with
  | None => Undefined
  | Some blocks =>
      logical_block <- udiv32 (wrap32 pos) (tbl_block_size t) ;;
      assert_ bm (Done (logical_block <? Z.of_nat (length blocks))) ;;;
      vec_at blocks logical_block
  end.

(** [append_block(seq, block_id)]: [tables[seq]] creates the list if absent. *)
Definition append_block (t : llama_block_table) (seq block_id : Z)
  : llama_block_table :=
  set_tables t (<[seq := default [] (tables t !! seq) ++ [block_id]]> (tables t)).

Definition capacity (t : llama_block_table) (seq : Z) : Z :=
  match tables t !! seq with
  | None => 0
  | Some blocks => wrap32 (wrap32 (Z.of_nat (length blocks)) * tbl_block_size t)
  end.

Definition needs_new_block (t : llama_block_table) (seq new_total_tokens : Z) : bool :=
  capacity t seq <? new_total_tokens.

Definition num_blocks_for (t : llama_block_table) (seq : Z) : Z :=
  match tables t !! seq with
  | None => 0
  | Some blocks => wrap32 (Z.of_nat (length blocks))
  end.

Definition has_seq (t : llama_block_table) (seq : Z) : bool :=
  bool_decide (is_Some (tables t !! seq)).

(** [share(src, dst, alloc)] *)
Definition share (bm : build) (t : llama_block_table) (src dst : Z)
    (alloc : llama_block_allocator)
  : outcome (llama_block_table * llama_block_allocator) :=
  assert_ bm (Done (bool_decide (is_Some (tables t !! src)))) ;;;
  match tables t !! src with
  | None => Undefined
  | Some blocks =>
      let t' := set_tables t (<[dst := blocks]> (tables t)) in
      alloc' <- for_each (inc_ref bm) (default [] (tables t' !! dst)) alloc ;;
      Done (t', alloc')
  end.

(** [free_seq(seq, alloc)] *)
Definition free_seq (bm : build) (t : llama_block_table) (seq : Z)
    (alloc : llama_block_allocator)
  : outcome (llama_block_table * llama_block_allocator) :=
  match tables t !! seq with
  | None => Done (t, alloc)
  | Some blocks =>
      alloc' <- for_each (free_block bm) blocks alloc ;;
      Done (set_tables t (delete seq (tables t)), alloc')
  end.

(** [remove_blocks_range(seq, pos_start, pos_end, alloc)] *)
Definition remove_blocks_range (bm : build) (t : llama_block_table)
    (seq pos_start pos_end : Z) (alloc : llama_block_allocator)
  : outcome (llama_block_table * llama_block_allocator) :=
  match tables t !! seq with
  | None => Done (t, alloc)
  | Some blocks =>
      block_start <- udiv32 pos_start (tbl_block_size t) ;;
      block_end <- udiv32 (wrap32 (wrap32 (pos_end + tbl_block_size t) - 1))
                          (tbl_block_size t) ;;
      let block_end := Z.min block_end (wrap32 (Z.of_nat (length blocks))) in
      if block_end <=? block_start then Done (t, alloc)
      else
        alloc' <- for_each (fun a i => b <- vec_at blocks i ;; free_block bm a b)
                           (seqZ block_start (block_end - block_start)) alloc ;;
        let blocks' := take (Z.to_nat block_start) blocks
                       ++ drop (Z.to_nat block_end) blocks in
        Done (set_tables t (<[seq := blocks']> (tables t)), alloc')
  end.

(** ** llama_layer_window *)

Inductive llama_layer_tier : Type :=
| LLAMA_TIER_GPU | LLAMA_TIER_CPU | LLAMA_TIER_DISK.

Inductive llama_layer_transfer_state : Type :=
| LLAMA_XFER_IDLE | LLAMA_XFER_LOADING | LLAMA_XFER_READY.

(** Modelled from the spec: a tensor node ([ggml_tensor], declared in
    [ggml.h]) as the tensor enumeration interface exposes it: its data
    address, its buffer handle, and its byte size ([ggml_nbytes], read off
    the node's type and shape, which no operation here writes).  Pointers
    and buffer handles are addresses; [0] is [nullptr]. *)
Record ggml_tensor : Type := mk_tensor {
  data   : Z;
  buffer : Z;
  nbytes : Z
}.

Record llama_tensor_saved_ptr : Type := mk_saved {
  tensor      : Z;     (* the tensor node (never changes) *)
  orig_data   : Z;
  orig_buffer : Z
}.

Record llama_layer_window_entry : Type := mk_entry {
  il           : Z;
  tier         : llama_layer_tier;
  xfer_state   : llama_layer_transfer_state;
  weight_bytes : Z;
  staging_slot : Z;                              (* int: -1, 0 or 1 *)
  saved_ptrs   : list llama_tensor_saved_ptr
}.

Record llama_layer_window : Type := mk_window {
  n_layer  : Z;                                  (* int32_t *)
  n_window : Z;                                  (* int32_t *)
  entries  : list llama_layer_window_entry;
  active_slot : Z;                               (* int *)
  staging_gpu_buffer : list Z                    (* ggml_backend_buffer_t [2] *)
}.

(** The tensor nodes live in memory shared with the compute graph: address
    of the node -> contents. *)
Abbreviation tensor_mem := (gmap Z ggml_tensor) (only parsing).

(** Modelled from the spec: a [llama_layer] (declared in [llama-model.h])
    as [for_each_layer_tensor] walks it, a contiguous sequence of tensor
    pointer fields, from [attn_norm] to [indexer_attn_q_b], in order. *)
Abbreviation llama_layer := (list Z) (only parsing).

Definition tier_eqb (a b : llama_layer_tier) : bool :=
  match a, b with
  | LLAMA_TIER_GPU, LLAMA_TIER_GPU
  | LLAMA_TIER_CPU, LLAMA_TIER_CPU
  | LLAMA_TIER_DISK, LLAMA_TIER_DISK => true
  | _, _ => false
  end.

(** [enabled()] *)
Definition enabled (w : llama_layer_window) : bool :=
  (0 <? n_window w) && (n_window w <? n_layer w).

(** The result of an [int32_t] operation; overflow has no defined behaviour. *)
Definition i32 (z : Z) : outcome Z :=
  if (- 2 ^ 31 <=? z) && (z <? 2 ^ 31) then Done z else Undefined.

(** [get_window_range(current_il)] *)
Definition get_window_range (w : llama_layer_window) (current_il : Z)
  : outcome (Z * Z) :=
  if negb (enabled w) then Done (0, n_layer w)
  else
    let half := Z.quot (n_window w) 2 in
    start <- i32 (current_il - half) ;;
    end_ <- i32 (start + n_window w) ;;
    let se1 := if start <? 0 then (0, Z.min (n_window w) (n_layer w))
               else (start, end_) in
    if n_layer w <? se1.2
    then d <- i32 (n_layer w - n_window w) ;; Done (Z.max 0 d, n_layer w)
    else Done se1.

(** [is_on_gpu(il)] *)
Definition is_on_gpu (w : llama_layer_window) (i : Z) : outcome bool :=
  if (i <? 0) || (n_layer w <=? i) then Done false
  else e <- vec_at (entries w) i ;;
       Done (tier_eqb (tier e) LLAMA_TIER_GPU || (0 <=? staging_slot e)).

Definition set_entries (w : llama_layer_window) (es : list llama_layer_window_entry) :=
  {| n_layer := n_layer w; n_window := n_window w; entries := es;
     active_slot := active_slot w; staging_gpu_buffer := staging_gpu_buffer w |}.

Definition set_staging (e : llama_layer_window_entry) (slot : Z)
    (saved : list llama_tensor_saved_ptr) :=
  {| il := il e; tier := tier e; xfer_state := xfer_state e;
     weight_bytes := weight_bytes e; staging_slot := slot; saved_ptrs := saved |}.

Definition rebind (t : ggml_tensor) (d b : Z) : ggml_tensor :=
  {| data := d; buffer := b; nbytes := nbytes t |}.

(** [for_each_layer_tensor]: the non-null fields, in field order. *)
Definition layer_tensors (layer : llama_layer) : list Z :=
  filter (fun p => p ≠ 0) layer.

Section Swap.

(** [ggml_backend_buffer_get_base], of the ggml backend. *)
Variable buffer_get_base : Z -> Z.

(** The lambda of [swap_layer_to_gpu]; the state is
    [(entry.saved_ptrs, tensor memory, offset)]. *)
Definition stage_tensor (base buf : Z)
    (st : list llama_tensor_saved_ptr * tensor_mem * Z) (t : Z)
  : outcome (list llama_tensor_saved_ptr * tensor_mem * Z) :=
  let '(saved, mem, offset) := st in
  match mem !! t with
  | None => Undefined                               (* dangling node pointer *)
  | Some node =>
      Done (saved ++ [{| tensor := t; orig_data := data node;
                         orig_buffer := buffer node |}],
            <[t := rebind node (base + offset) buf]> mem,
            wrap64 (offset + nbytes node))
  end.

(** [swap_layer_to_gpu(il, layer)] *)
Definition swap_layer_to_gpu (w : llama_layer_window) (mem : tensor_mem)
    (i : Z) (layer : llama_layer)
  : outcome (llama_layer_window * tensor_mem) :=
  entry <- vec_at (entries w) i ;;
  if tier_eqb (tier entry) LLAMA_TIER_GPU then Done (w, mem)
  else if 0 <=? staging_slot entry then Done (w, mem)
  else
    let slot := active_slot w in
    buf <- vec_at (staging_gpu_buffer w) slot ;;
    let base := buffer_get_base buf in
    st <- for_each (stage_tensor base buf) (layer_tensors layer) ([], mem, 0) ;;
    es <- vec_set (entries w) i (set_staging entry slot st.1.1) ;;
    Done (set_entries w es, st.1.2).

(** The loop body of [swap_layer_to_cpu]. *)
Definition restore_tensor (mem : tensor_mem) (sp : llama_tensor_saved_ptr)
  : outcome tensor_mem :=
  match mem !! tensor sp with
  | None => Undefined
  | Some node =>
      Done (<[tensor sp := rebind node (orig_data sp) (orig_buffer sp)]> mem)
  end.

(** [swap_layer_to_cpu(il, layer)] *)
Definition swap_layer_to_cpu (w : llama_layer_window) (mem : tensor_mem)
    (i : Z) (layer : llama_layer)
  : outcome (llama_layer_window * tensor_mem) :=
  entry <- vec_at (entries w) i ;;
  if tier_eqb (tier entry) LLAMA_TIER_GPU then Done (w, mem)
  else if staging_slot entry <? 0 then Done (w, mem)
  else
    mem' <- for_each restore_tensor (saved_ptrs entry) mem ;;
    es <- vec_set (entries w) i (set_staging entry (-1) []) ;;
    Done (set_entries w es, mem').

(** One swap cycle, and [n] of them. *)
Definition swap_cycle (i : Z) (layer : llama_layer)
    (st : llama_layer_window * tensor_mem)
  : outcome (llama_layer_window * tensor_mem) :=
  st1 <- swap_layer_to_gpu st.1 st.2 i layer ;;
  swap_layer_to_cpu st1.1 st1.2 i layer.

Fixpoint swap_cycles (n : nat) (i : Z) (layer : llama_layer)
    (st : llama_layer_window * tensor_mem)
  : outcome (llama_layer_window * tensor_mem) :=
  match n with
  | O => Done st
  | S n' => st1 <- swap_cycle i layer st ;; swap_cycles n' i layer st1
  end.

End Swap.

(** ** Disk tier: the CPU cache *)

(** Modelled from the spec: the CPU cache entry
    [(layer_index, heap buffer, byte_length, last_access_counter)].  The
    declaration of [llama_layer_window::disk_io] and of its entry type is
    missing from the header; [evict_lru] uses the fields [il], [data],
    [size] (added to a [size_t]) and [last_access] (compared with [<]). *)
Record cpu_cache_entry : Type := mk_cache_entry {
  ce_il       : Z;
  ce_data     : Z;     (* heap buffer *)
  ce_size     : Z;     (* size_t *)
  last_access : Z
}.

(** [for (const auto & e : cpu_cache) total += e.size;] *)
Definition cache_total (cache : list cpu_cache_entry) : Z :=
  fold_left (fun tot e => wrap64 (tot + ce_size e)) cache 0.

(** The eviction loop
    [while (total > cpu_cache_budget && !cpu_cache.empty())]; returns the
    entries freed, in the order they were freed, and what stays cached. *)
Fixpoint evict_loop (budget tot : Z) (cache freed : list cpu_cache_entry)
  : list cpu_cache_entry * list cpu_cache_entry :=
  match cache with
  | [] => (freed, [])
  | oldest :: rest =>
      if budget <? tot
      then evict_loop budget (wrap64 (tot - ce_size oldest)) rest (freed ++ [oldest])
      else (freed, cache)
  end.

(** The comparator handed to [std::sort]. *)
Definition access_lt (a b : cpu_cache_entry) : bool :=
  last_access a <? last_access b.

(** What [std::sort] guarantees of the vector it leaves: the same elements,
    no later element ordered before an earlier one.  The order of elements
    that compare equivalent is not specified. *)
Definition std_sort_post (before after : list cpu_cache_entry) : Prop :=
  Permutation before after ∧
  StronglySorted (fun a b => access_lt b a = false) after.

(** The rest of [evict_lru] once the vector is sorted. *)
Definition evict_sorted (budget : Z) (sorted : list cpu_cache_entry)
  : list cpu_cache_entry * list cpu_cache_entry :=
  evict_loop budget (cache_total sorted) sorted [].

(** [evict_lru()]: [evict_lru budget cache freed cache'] *)
Definition evict_lru (budget : Z) (cache freed cache' : list cpu_cache_entry) : Prop :=
  match cache with
  | [] => freed = [] ∧ cache' = []
  | _ => ∃ sorted, std_sort_post cache sorted ∧
                   evict_sorted budget sorted = (freed, cache')
  end.

(** A sorting routine that keeps equivalent elements in their original
    order (insertion sort), as one admissible [std::sort]. *)
Fixpoint insert_stable (x : cpu_cache_entry) (l : list cpu_cache_entry)
  : list cpu_cache_entry :=
  match l with
  | [] => [x]
  | y :: l' => if access_lt y x then y :: insert_stable x l' else x :: l
  end.

Definition stable_sort (l : list cpu_cache_entry) : list cpu_cache_entry :=
  fold_right insert_stable [] l.

(** [evict_lru] with ties broken by insertion order. *)
Definition evict_lru_stable (budget : Z) (cache : list cpu_cache_entry)
  : list cpu_cache_entry * list cpu_cache_entry :=
  match cache with
  | [] => ([], [])
  | _ => evict_sorted budget (stable_sort cache)
  end.

(** ** Specification-side vocabulary for the allocator *)

(** The representation invariant of the struct: every field holds a value of
    its C++ type, [ref_count] has one slot per block, and the free list
    holds block ids. *)
Record alloc_wf (a : llama_block_allocator) : Prop := mk_alloc_wf {
  wf_num_blocks : is_u32 (num_blocks a);
  wf_ref_len    : length (ref_count a) = Z.to_nat (num_blocks a);
  wf_ref_u32    : Forall is_u32 (ref_count a);
  wf_free_ids   : Forall (fun b => 0 <= b < num_blocks a) (free_list a)
}.

(** [ref_count[b] = 0] exactly when [b] is on the free list. *)
Definition free_iff_zero (a : llama_block_allocator) : Prop :=
  ∀ b, 0 <= b < num_blocks a →
       (ref_count a !! Z.to_nat b = Some 0 ↔ b ∈ free_list a).

Definition alloc_inv (a : llama_block_allocator) : Prop :=
  alloc_wf a ∧ NoDup (free_list a) ∧ free_iff_zero a.

(** The block is allocated: a valid id with a positive count. *)
Definition live (a : llama_block_allocator) (b : Z) : Prop :=
  0 <= b < num_blocks a ∧
  ∃ rc, ref_count a !! Z.to_nat b = Some rc ∧ 0 < rc.

Inductive alloc_op : Type :=
| OpAllocate
| OpFree (b : Z)
| OpIncRef (b : Z).

Definition run_op (bm : build) (a : llama_block_allocator) (op : alloc_op)
  : outcome llama_block_allocator :=
  match op with
  | OpAllocate => r <- allocate bm a ;; Done r.2
  | OpFree b => free_block bm a b
  | OpIncRef b => inc_ref bm a b
  end.

(** The preconditions the operations are documented with. *)
Definition op_pre (a : llama_block_allocator) (op : alloc_op) : Prop :=
  match op with
  | OpAllocate => free_list a ≠ []
  | OpFree b => live a b
  | OpIncRef b => live a b
  end.

(** The same, with the count of [inc_ref]'s block below [UINT32_MAX]. *)
Definition op_pre_nowrap (a : llama_block_allocator) (op : alloc_op) : Prop :=
  match op with
  | OpIncRef b => live a b ∧ ref_count a !! Z.to_nat b ≠ Some UINT32_MAX
  | _ => op_pre a op
  end.

(** States an allocator can be in: constructed, then driven by operations
    each called under its documented precondition. *)
Inductive reachable (bm : build) : llama_block_allocator → Prop :=
| reach_construct total_cells blk_size a :
    is_u32 total_cells → is_u32 blk_size → 0 < blk_size <= total_cells →
    construct bm total_cells blk_size = Done a →
    reachable bm a
| reach_op a op a' :
    reachable bm a → op_pre a op → run_op bm a op = Done a' →
    reachable bm a'.

(** Number of entries of the list [l] that name block [b]. *)
Definition occ (b : Z) (l : list Z) : Z := Z.of_nat (count_occ Z.eq_dec l b).

(** The blocks of [l] can take one more reference per entry of [l]: each is
    allocated, and its count stays representable. *)
Definition shareable (a : llama_block_allocator) (l : list Z) : Prop :=
  ∀ b, b ∈ l →
       0 <= b < num_blocks a ∧
       ∃ rc, ref_count a !! Z.to_nat b = Some rc ∧ 0 < rc ∧
             rc + occ b l <= UINT32_MAX.

(** A one-block pool whose block carries [c] references. *)
Definition one_block (c : Z) : llama_block_allocator :=
  mk_allocator 32 1 [] [c].

(** The bytes held by a list of cache entries, as an integer. *)
Definition sum_sizes (l : list cpu_cache_entry) : Z :=
  foldr (λ e s, ce_size e + s) 0 l.

(** Ascending [last_access], ties allowed. *)
Definition by_access (l : list cpu_cache_entry) : Prop :=
  StronglySorted (λ a b, last_access a <= last_access b) l.

(** ** Further functions of the allocator and the table *)

(** [k] successive calls of [allocate], collecting the ids returned (the
    loops [for (...) blocks.push_back(alloc.allocate())] of the callers). *)
Fixpoint allocate_n (bm : build) (k : nat) (a : llama_block_allocator)
  : outcome (list Z * llama_block_allocator) :=
  match k with
  | O => Done ([], a)
  | S k' =>
      r <- allocate bm a ;;
      rs <- allocate_n bm k' r.2 ;;
      Done (r.1 :: rs.1, rs.2)
  end.

(** Number of blocks whose reference count is zero. *)
Definition zero_counts (a : llama_block_allocator) : nat :=
  length (filter (λ rc, rc = 0) (ref_count a)).

(** [replace_block(seq, logical_block_idx, new_block_id)] *)
Definition replace_block (bm : build) (t : llama_block_table)
    (seq logical_block_idx new_block_id : Z)
  : outcome llama_block_table :=
  assert_ bm (Done (bool_decide (is_Some (tables t !! seq)))) ;;;
  match tables t !! seq with
  | None => Undefined                               (* it == tables.end() *)
  | Some blocks =>
      assert_ bm (Done (logical_block_idx <? Z.of_nat (length blocks))) ;;;
      blocks' <- vec_set blocks logical_block_idx new_block_id ;;
      Done (set_tables t (<[seq := blocks']> (tables t)))
  end.

(** The growth step of the callers (the loop body of
    [test_mini_inference_simulation]):
    [if (table.needs_new_block(seq, pos + 1)) {
       ASSERT_TRUE(alloc.can_allocate(1));
       uint32_t b = alloc.allocate();
       table.append_block(seq, b); }]
    followed by [table.logical_to_physical(seq, pos)].  [pos] is an [int]:
    [pos + 1] is computed in [int] and then converted to the [uint32_t]
    parameter.  [ASSERT_TRUE] aborts in every build. *)
Definition grow_and_translate (bm : build) (t : llama_block_table)
    (alloc : llama_block_allocator) (seq pos : Z)
  : outcome (Z * llama_block_table * llama_block_allocator) :=
  new_total <- i32 (pos + 1) ;;
  st <- (if needs_new_block t seq (wrap32 new_total)
         then if can_allocate alloc 1
              then r <- allocate bm alloc ;; Done (append_block t seq r.1, r.2)
              else AssertFail
         else Done (t, alloc)) ;;
  phys <- logical_to_physical bm st.1 seq pos ;;
  Done (phys, st.1, st.2).

(** The blocks of [l] can give up one reference per entry of [l]. *)
Definition releasable (a : llama_block_allocator) (l : list Z) : Prop :=
  ∀ b, b ∈ l →
       0 <= b < num_blocks a ∧
       ∃ rc, ref_count a !! Z.to_nat b = Some rc ∧ occ b l <= rc.

(** [clear(alloc)]: the outer loop walks the [unordered_map], whose
    iteration order the standard leaves open; [order] is the order a run
    meets the entries in. *)
Definition clear_in_order (bm : build) (order : list (Z * list Z))
    (t : llama_block_table) (alloc : llama_block_allocator)
  : outcome (llama_block_table * llama_block_allocator) :=
  alloc' <- for_each (λ a (entry : Z * list Z),
                        for_each (free_block bm) entry.2 a) order alloc ;;
  Done (set_tables t ∅, alloc').

Definition clear (bm : build) (t : llama_block_table)
    (alloc : llama_block_allocator)
    (r : outcome (llama_block_table * llama_block_allocator)) : Prop :=
  ∃ order, order ≡ₚ map_to_list (tables t) ∧
           r = clear_in_order bm order t alloc.

(** Every block id the table holds, one entry per mapping entry. *)
Definition mapped_blocks (t : llama_block_table) : list Z :=
  concat ((map_to_list (tables t)).*2).

(** ** Setting the window up *)

(** The value-initialised entry, as the member initialisers of
    [llama_layer_window_entry] give it. *)
Definition default_entry : llama_layer_window_entry :=
  {| il := -1; tier := LLAMA_TIER_CPU; xfer_state := LLAMA_XFER_IDLE;
     weight_bytes := 0; staging_slot := -1; saved_ptrs := [] |}.

(** [v.resize(n)] *)
Definition resize {A : Type} (v : list A) (n : nat) (d : A) : list A :=
  take n v ++ replicate (n - length v) d.

(** The four assignments of the loop body of [init]. *)
Definition init_entry (e : llama_layer_window_entry) (i : Z)
  : llama_layer_window_entry :=
  {| il := i; tier := LLAMA_TIER_CPU; xfer_state := LLAMA_XFER_IDLE;
     weight_bytes := weight_bytes e; staging_slot := -1;
     saved_ptrs := saved_ptrs e |}.

(** [init(n_layer_total)].  A negative count converts to a [size_t] above
    [max_size()], for which [resize] throws [std::length_error]: [None]. *)
Definition init (w : llama_layer_window) (n_layer_total : Z)
  : option (outcome llama_layer_window) :=
  if n_layer_total <? 0 then None
  else
    Some (es <- for_each (λ es i, e <- vec_at es i ;;
                                  vec_set es i (init_entry e i))
                         (seqZ 0 n_layer_total)
                         (resize (entries w) (Z.to_nat n_layer_total)
                                 default_entry) ;;
          Done {| n_layer := n_layer_total; n_window := n_window w;
                  entries := es; active_slot := active_slot w;
                  staging_gpu_buffer := staging_gpu_buffer w |}).

(** ** Layer sizes and the staging area *)

(** The lambda of [compute_layer_sizes]: [total += ggml_nbytes(t)]. *)
Definition add_nbytes (mem : tensor_mem) (total : Z) (t : Z) : outcome Z :=
  match mem !! t with
  | None => Undefined                               (* dangling node pointer *)
  | Some node => Done (wrap64 (total + nbytes node))
  end.

Definition set_weight_bytes (e : llama_layer_window_entry) (wb : Z) :=
  {| il := il e; tier := tier e; xfer_state := xfer_state e;
     weight_bytes := wb; staging_slot := staging_slot e;
     saved_ptrs := saved_ptrs e |}.

(** A [size_t] converted to [int32_t]: the value modulo [2^32], read as
    two's complement. *)
Definition cast_i32 (z : Z) : Z := (z + 2 ^ 31) mod 2 ^ 32 - 2 ^ 31.

(** [compute_layer_sizes(model)]; [layers] is [model.layers]. *)
Definition compute_layer_sizes (w : llama_layer_window) (mem : tensor_mem)
    (layers : list llama_layer) : outcome llama_layer_window :=
  es <- for_each (λ es i,
                    layer <- vec_at layers i ;;
                    total <- for_each (add_nbytes mem) (layer_tensors layer) 0 ;;
                    e <- vec_at es i ;;
                    vec_set es i (set_weight_bytes e total))
                 (seqZ 0 (Z.min (n_layer w)
                                (cast_i32 (Z.of_nat (length layers)))))
                 (entries w) ;;
  Done (set_entries w es).

(** The first loop of [allocate_staging_buffers]: the size of the largest
    CPU-tier layer, which is the size requested for each staging buffer. *)
Definition max_layer_size (es : list llama_layer_window_entry) : Z :=
  fold_left (λ m e, if tier_eqb (tier e) LLAMA_TIER_CPU
                    then Z.max m (weight_bytes e) else m) es 0.

(** The bytes of the tensors [ts], as a mathematical sum. *)
Definition sum_nbytes (mem : tensor_mem) (ts : list Z) : Z :=
  foldr (λ t s, default 0 (nbytes <$> mem !! t) + s) 0 ts.

(** ** Window size detection *)

Definition set_n_window (w : llama_layer_window) (n : Z) :=
  {| n_layer := n_layer w; n_window := n; entries := entries w;
     active_slot := active_slot w;
     staging_gpu_buffer := staging_gpu_buffer w |}.

(** [256ULL << 20] *)
Definition safety_margin : Z := Z.shiftl 256 20.

(** The scan of [auto_detect_window] over the entries; the state is
    [(max_layer, n_cpu)]. *)
Definition scan_cpu_layers (es : list llama_layer_window_entry)
  : outcome (Z * Z) :=
  for_each (λ (st : Z * Z) e,
              if tier_eqb (tier e) LLAMA_TIER_CPU
              then n_cpu <- i32 (st.2 + 1) ;;
                   Done (Z.max st.1 (weight_bytes e), n_cpu)
              else Done st)
           es (0, 0).

(** [auto_detect_window(free_vram, kv_cache_size, activation_size)]:
    the value returned and the window it leaves. *)
Definition auto_detect_window (w : llama_layer_window)
    (free_vram kv_cache_size activation_size : Z)
  : outcome (Z * llama_layer_window) :=
  let reserved :=
    wrap64 (wrap64 (kv_cache_size + activation_size) + safety_margin) in
  if free_vram <=? reserved then Done (0, set_n_window w 0)
  else
    let available := wrap64 (free_vram - reserved) in
    st <- scan_cpu_layers (entries w) ;;
    let max_layer := st.1 in
    let n_cpu := st.2 in
    if (max_layer =? 0) || (n_cpu =? 0) then Done (0, set_n_window w 0)
    else
      let per_slot := wrap64 (2 * max_layer) in
      if per_slot =? 0 then Undefined               (* division by zero *)
      else
        let n1 := Z.max 1 (cast_i32 (available / per_slot)) in
        let n2 := Z.min n1 n_cpu in
        Done (n2, set_n_window w n2).

(** The number of CPU-tier entries. *)
Definition count_cpu (es : list llama_layer_window_entry) : Z :=
  Z.of_nat (length (filter (λ e, tier_eqb (tier e) LLAMA_TIER_CPU = true) es)).

(** ** Tier assignment *)

(** Modelled from the spec: a device descriptor ([ggml_backend_dev_t],
    declared in [ggml-backend.h]) as the device inventory exposes it: its
    kind (CPU/GPU/IGPU, read by [ggml_backend_dev_type]) and its current
    free bytes (the first result of [ggml_backend_dev_memory]). *)
Inductive ggml_backend_dev_type : Type :=
| GGML_BACKEND_DEVICE_TYPE_CPU
| GGML_BACKEND_DEVICE_TYPE_GPU
| GGML_BACKEND_DEVICE_TYPE_IGPU.

Record ggml_backend_dev : Type := mk_dev {
  dev_type : ggml_backend_dev_type;
  free_dev : Z                                   (* size_t *)
}.

(** [256ULL << 20] *)
Definition TIER_SAFETY_MARGIN : Z := Z.shiftl 256 20.

Definition set_tier (e : llama_layer_window_entry) (t : llama_layer_tier) :=
  {| il := il e; tier := t; xfer_state := xfer_state e;
     weight_bytes := weight_bytes e; staging_slot := staging_slot e;
     saved_ptrs := saved_ptrs e |}.

(** The first loop of [auto_detect_tiers]. *)
Definition gpu_free_of (devices : list ggml_backend_dev) : Z :=
  fold_left (λ gpu_free dev,
               match dev_type dev with
               | GGML_BACKEND_DEVICE_TYPE_GPU
               | GGML_BACKEND_DEVICE_TYPE_IGPU => wrap64 (gpu_free + free_dev dev)
               | GGML_BACKEND_DEVICE_TYPE_CPU => gpu_free
               end) devices 0.

(** [(x > TIER_SAFETY_MARGIN) ? x - TIER_SAFETY_MARGIN : 0] *)
Definition tier_budget (x : Z) : Z :=
  if TIER_SAFETY_MARGIN <? x then wrap64 (x - TIER_SAFETY_MARGIN) else 0.

(** The variables the assignment loop of [auto_detect_tiers] updates. *)
Record tier_state : Type := mk_tier_state {
  ts_entries    : list llama_layer_window_entry;
  ts_gpu_budget : Z;                             (* size_t *)
  ts_cpu_budget : Z;                             (* size_t *)
  ts_n_gpu_static : Z;                           (* int32_t *)
  ts_n_cpu      : Z;                             (* int32_t *)
  ts_n_disk     : Z                              (* int32_t *)
}.

(** The body of the assignment loop. *)
Definition assign_tier (st : tier_state) (i : Z) : outcome tier_state :=
  e <- vec_at (ts_entries st) i ;;
  if weight_bytes e <=? ts_gpu_budget st then
    es <- vec_set (ts_entries st) i (set_tier e LLAMA_TIER_GPU) ;;
    n <- i32 (ts_n_gpu_static st + 1) ;;
    Done (mk_tier_state es (wrap64 (ts_gpu_budget st - weight_bytes e))
            (ts_cpu_budget st) n (ts_n_cpu st) (ts_n_disk st))
  else if weight_bytes e <=? ts_cpu_budget st then
    es <- vec_set (ts_entries st) i (set_tier e LLAMA_TIER_CPU) ;;
    n <- i32 (ts_n_cpu st + 1) ;;
    Done (mk_tier_state es (ts_gpu_budget st)
            (wrap64 (ts_cpu_budget st - weight_bytes e))
            (ts_n_gpu_static st) n (ts_n_disk st))
  else
    es <- vec_set (ts_entries st) i (set_tier e LLAMA_TIER_DISK) ;;
    n <- i32 (ts_n_disk st + 1) ;;
    Done (mk_tier_state es (ts_gpu_budget st) (ts_cpu_budget st)
            (ts_n_gpu_static st) (ts_n_cpu st) n).

(** [auto_detect_tiers(devices, cpu_available)]: the loop runs [il] from
    [n_layer - 1] down to 0.  The result is the final loop state: the
    entries, what is left of the two budgets, the member [n_gpu_static]
    and the two counts the log line reports. *)
Definition auto_detect_tiers (w : llama_layer_window)
    (devices : list ggml_backend_dev) (cpu_available : Z)
  : outcome tier_state :=
  top <- i32 (n_layer w - 1) ;;
  for_each assign_tier (reverse (seqZ 0 (top + 1)))
           (mk_tier_state (entries w)
              (tier_budget (gpu_free_of devices)) (tier_budget cpu_available)
              0 0 0).

(** The bytes, and the number, of the entries of one tier. *)
Definition tier_bytes (t : llama_layer_tier)
    (es : list llama_layer_window_entry) : Z :=
  foldr (λ e s, (if tier_eqb (tier e) t then weight_bytes e else 0) + s) 0 es.

Definition count_tier (t : llama_layer_tier)
    (es : list llama_layer_window_entry) : Z :=
  foldr (λ e s, (if tier_eqb (tier e) t then 1 else 0) + s) 0 es.

(** The tier the greedy rule gives a layer of [wb] bytes when [gb] and
    [cb] bytes are left of the two budgets. *)
Definition greedy_tier (gb cb wb : Z) : llama_layer_tier :=
  if wb <=? gb then LLAMA_TIER_GPU
  else if wb <=? cb then LLAMA_TIER_CPU
  else LLAMA_TIER_DISK.

(** The bytes of all the entries. *)
Definition all_bytes (es : list llama_layer_window_entry) : Z :=
  foldr (λ e s, weight_bytes e + s) 0 es.

(** The table and the allocator agree: the allocator invariant holds,
    every mapped block is a block of the pool, and the reference count of
    a block is the number of mapping entries that name it. *)
Definition consistent (t : llama_block_table) (a : llama_block_allocator)
  : Prop :=
  alloc_inv a ∧
  (∀ b, b ∈ mapped_blocks t → 0 <= b < num_blocks a) ∧
  (∀ b, 0 <= b < num_blocks a →
        ref_count a !! Z.to_nat b = Some (occ b (mapped_blocks t))).

(** * Proofs *)

(** ** Machine arithmetic and vectors *)

Lemma wrap32_small z : is_u32 z → wrap32 z = z.
Proof. unfold is_u32, wrap32. intros H. apply Z.mod_small. lia. Qed.

Lemma wrap64_small z : is_u64 z → wrap64 z = z.
Proof. unfold is_u64, wrap64. intros H. apply Z.mod_small. lia. Qed.

Lemma vec_at_Done {A} (v : list A) i x :
  0 <= i → v !! Z.to_nat i = Some x → vec_at v i = Done x.
Proof.
  intros Hi Hx. unfold vec_at.
  destruct (Z.ltb_spec i 0); [lia|]. by rewrite Hx.
Qed.

Lemma vec_set_Done {A} (v : list A) i x :
  0 <= i → (Z.to_nat i < length v)%nat →
  vec_set v i x = Done (<[Z.to_nat i := x]> v).
Proof.
  intros Hi Hlen. unfold vec_set.
  destruct (Z.ltb_spec i 0); [lia|]. by rewrite bool_decide_eq_true_2.
Qed.

Lemma for_each_app {A S} (body : S → A → outcome S) l1 l2 s :
  for_each body (l1 ++ l2) s = (s' <- for_each body l1 s ;; for_each body l2 s').
Proof.
  revert s. induction l1 as [|x l1 IH]; intros s; simpl; [done|].
  destruct (body s x); simpl; auto.
Qed.

(** ** The constructor *)

Lemma init_free_list_spec n fl :
  init_free_list n fl = fl ++ reverse (Z.of_nat <$> seq 0 n).
Proof.
  revert fl. induction n as [|n IH]; intros fl.
  - by rewrite app_nil_r.
  - simpl init_free_list. rewrite IH, seq_S, fmap_app, reverse_app. simpl.
    by rewrite <- app_assoc.
Qed.

Lemma elem_of_init_free_list n b :
  b ∈ init_free_list n [] ↔ 0 <= b < Z.of_nat n.
Proof.
  rewrite init_free_list_spec. simpl. rewrite elem_of_reverse, list_elem_of_fmap.
  split.
  - intros (k & -> & Hk). apply elem_of_seq in Hk. lia.
  - intros Hb. exists (Z.to_nat b). split; [lia|]. apply elem_of_seq. lia.
Qed.

Lemma NoDup_init_free_list n : NoDup (init_free_list n []).
Proof.
  rewrite init_free_list_spec. simpl. rewrite reverse_Permutation.
  apply (NoDup_fmap_2 Z.of_nat), NoDup_seq.
Qed.

Lemma construct_Done bm total_cells blk_size :
  0 < blk_size <= total_cells →
  construct bm total_cells blk_size =
  Done (mk_allocator blk_size (total_cells / blk_size)
          (init_free_list (Z.to_nat (total_cells / blk_size)) [])
          (replicate (Z.to_nat (total_cells / blk_size)) 0)).
Proof.
  intros H. unfold construct.
  destruct (Z.eqb_spec blk_size 0); [lia|].
  destruct bm; simpl; [|done].
  destruct (Z.ltb_spec 0 blk_size); [|lia]. simpl.
  destruct (Z.leb_spec blk_size total_cells); [done|lia].
Qed.

Lemma construct_inv bm total_cells blk_size a :
  is_u32 total_cells → is_u32 blk_size → 0 < blk_size <= total_cells →
  construct bm total_cells blk_size = Done a → alloc_inv a.
Proof.
  intros Ht Hb Hle. rewrite construct_Done by done. intros [= <-].
  assert (Hnb : 0 <= total_cells / blk_size <= total_cells).
  { split; [apply Z.div_pos; lia|]. apply Z.div_le_upper_bound; nia. }
  split; [|split].
  - split; simpl.
    + unfold is_u32 in *. lia.
    + by rewrite length_replicate.
    + apply Forall_replicate. unfold is_u32. lia.
    + apply Forall_forall. intros b Hin.
      apply elem_of_init_free_list in Hin. lia.
  - apply NoDup_init_free_list.
  - intros b Hbr. simpl in *. rewrite elem_of_init_free_list.
    rewrite lookup_replicate_2 by lia. split; [lia|done].
Qed.

(** ** The allocator operations under their preconditions *)

Lemma allocate_Done bm a l b :
  free_list a = l ++ [b] → 0 <= b →
  ref_count a !! Z.to_nat b = Some 0 →
  allocate bm a =
  Done (b, mk_allocator (block_size a) (num_blocks a) l
             (<[Z.to_nat b := 1]> (ref_count a))).
Proof.
  intros Hfl Hb Hrc. unfold allocate. rewrite Hfl, last_snoc, removelast_last.
  assert (Hlen : (Z.to_nat b < length (ref_count a))%nat)
    by (eapply lookup_lt_Some; eauto).
  assert (Hne : bool_decide (l ++ [b] = []) = false).
  { apply bool_decide_eq_false_2. by destruct l. }
  destruct bm; simpl; rewrite ?Hne; simpl;
    rewrite ?(vec_at_Done _ _ _ Hb Hrc); simpl;
    rewrite (vec_set_Done _ _ _ Hb Hlen); done.
Qed.

Lemma free_block_Done bm a b rc :
  0 <= b < num_blocks a → ref_count a !! Z.to_nat b = Some rc →
  is_u32 rc → 0 < rc →
  free_block bm a b =
  Done (mk_allocator (block_size a) (num_blocks a)
          (if rc =? 1 then free_list a ++ [b] else free_list a)
          (<[Z.to_nat b := rc - 1]> (ref_count a))).
Proof.
  intros [Hb0 Hb] Hrc Hu Hpos. unfold free_block.
  assert (Hlen : (Z.to_nat b < length (ref_count a))%nat)
    by (eapply lookup_lt_Some; eauto).
  assert (Hw : wrap32 (rc - 1) = rc - 1)
    by (apply wrap32_small; unfold is_u32 in *; lia).
  assert (Hlt : (b <? num_blocks a) = true) by (apply Z.ltb_lt; lia).
  assert (Hp : (0 <? rc) = true) by (apply Z.ltb_lt; lia).
  destruct bm; simpl; rewrite ?Hlt; simpl;
    rewrite !(vec_at_Done _ _ _ Hb0 Hrc); simpl; rewrite ?Hp; simpl;
    rewrite Hw, (vec_set_Done _ _ _ Hb0 Hlen); simpl;
    destruct (Z.eqb_spec (rc - 1) 0), (Z.eqb_spec rc 1); try lia; done.
Qed.

Lemma inc_ref_Done bm a b rc :
  0 <= b < num_blocks a → ref_count a !! Z.to_nat b = Some rc → 0 < rc →
  inc_ref bm a b =
  Done (mk_allocator (block_size a) (num_blocks a) (free_list a)
          (<[Z.to_nat b := wrap32 (rc + 1)]> (ref_count a))).
Proof.
  intros [Hb0 Hb] Hrc Hpos. unfold inc_ref.
  assert (Hlen : (Z.to_nat b < length (ref_count a))%nat)
    by (eapply lookup_lt_Some; eauto).
  assert (Hlt : (b <? num_blocks a) = true) by (apply Z.ltb_lt; lia).
  assert (Hp : (0 <? rc) = true) by (apply Z.ltb_lt; lia).
  destruct bm; simpl; rewrite ?Hlt; simpl;
    rewrite !(vec_at_Done _ _ _ Hb0 Hrc); simpl; rewrite ?Hp; simpl;
    rewrite (vec_set_Done _ _ _ Hb0 Hlen); done.
Qed.

(** ** Preservation of the invariant *)

Lemma inv_lookup a b :
  alloc_wf a → 0 <= b < num_blocks a →
  ∃ rc, ref_count a !! Z.to_nat b = Some rc ∧ is_u32 rc.
Proof.
  intros Hwf Hb.
  destruct (lookup_lt_is_Some_2 (ref_count a) (Z.to_nat b)) as [rc Hrc].
  { rewrite (wf_ref_len _ Hwf). lia. }
  exists rc. split; [done|].
  eapply (Forall_lookup_1 _ _ _ _ (wf_ref_u32 _ Hwf)); eauto.
Qed.

Lemma inv_top_free a l b :
  alloc_inv a → free_list a = l ++ [b] →
  0 <= b < num_blocks a ∧ ref_count a !! Z.to_nat b = Some 0 ∧ b ∉ l.
Proof.
  intros (Hwf & Hnd & Hiff) Hfl.
  assert (Hin : b ∈ free_list a).
  { rewrite Hfl, elem_of_app. right. by apply list_elem_of_singleton. }
  assert (Hb : 0 <= b < num_blocks a).
  { pose proof (wf_free_ids _ Hwf) as HF. rewrite Forall_forall in HF. auto. }
  split; [done|]. split; [by apply Hiff|].
  rewrite Hfl in Hnd. apply NoDup_app in Hnd as (_ & Hd & _).
  intros Hl. apply (Hd b Hl). by apply list_elem_of_singleton.
Qed.

Lemma live_not_free a b :
  alloc_inv a → live a b → b ∉ free_list a.
Proof.
  intros (Hwf & Hnd & Hiff) (Hb & rc & Hrc & Hpos) Hin.
  apply Hiff in Hin; [|done]. rewrite Hrc in Hin. injection Hin. lia.
Qed.

Lemma allocate_inv bm a :
  alloc_inv a → free_list a ≠ [] →
  ∃ b a', allocate bm a = Done (b, a') ∧ alloc_inv a' ∧
          last (free_list a) = Some b ∧
          ref_count a' !! Z.to_nat b = Some 1.
Proof.
  intros Hinv Hne.
  destruct (last (free_list a)) as [b|] eqn:Hlast;
    [|by apply last_None in Hlast].
  apply last_Some in Hlast as [l Hfl].
  destruct (inv_top_free a l b Hinv Hfl) as (Hb & Hrc & Hnl).
  destruct Hinv as (Hwf & Hnd & Hiff).
  assert (Hlen : (Z.to_nat b < length (ref_count a))%nat)
    by (eapply lookup_lt_Some; eauto).
  eexists b, _. split; [apply allocate_Done; eauto; lia|].
  split; [|split; [done | by apply list_lookup_insert_eq]].
  split; [|split].
  - destruct Hwf as [H1 H2 H3 H4]. split; simpl; auto.
    + by rewrite length_insert.
    + apply Forall_insert; [done|]. unfold is_u32. lia.
    + rewrite Hfl in H4. by apply Forall_app in H4 as [? _].
  - simpl. rewrite Hfl in Hnd. by apply NoDup_app in Hnd as (? & _ & _).
  - intros b' Hb'. simpl in *.
    destruct (decide (b' = b)) as [->|Hneq].
    + rewrite list_lookup_insert_eq by done. split; [done|]. intros ?. done.
    + rewrite list_lookup_insert_ne by lia.
      rewrite (Hiff b' Hb'), Hfl, elem_of_app, list_elem_of_singleton.
      tauto.
Qed.

Lemma free_block_inv bm a b :
  alloc_inv a → live a b →
  ∃ a', free_block bm a b = Done a' ∧ alloc_inv a'.
Proof.
  intros Hinv Hlive.
  pose proof (live_not_free a b Hinv Hlive) as Hnin.
  destruct Hinv as (Hwf & Hnd & Hiff).
  destruct Hlive as (Hb & rc & Hrc & Hpos).
  destruct (inv_lookup a b Hwf Hb) as (rc' & Hrc' & Hu).
  rewrite Hrc in Hrc'. injection Hrc' as <-.
  assert (Hlen : (Z.to_nat b < length (ref_count a))%nat)
    by (eapply lookup_lt_Some; eauto).
  eexists. split; [by apply free_block_Done|].
  destruct Hwf as [H1 H2 H3 H4].
  split; [|split].
  - split; simpl; auto.
    + by rewrite length_insert.
    + apply Forall_insert; [done|]. unfold is_u32 in *. lia.
    + destruct (rc =? 1); [|done]. apply Forall_app. split; [done|].
      by apply Forall_singleton.
  - simpl. destruct (rc =? 1); [|done]. apply NoDup_app.
    split; [done|]. split; [|apply NoDup_singleton].
    intros x Hx Hx'. apply list_elem_of_singleton in Hx'. by subst.
  - intros b' Hb'. simpl in *.
    destruct (decide (b' = b)) as [->|Hneq].
    + rewrite list_lookup_insert_eq by done.
      destruct (Z.eqb_spec rc 1) as [->|Hne1].
      * split; [|done]. intros _. rewrite elem_of_app. right.
        by apply list_elem_of_singleton.
      * split; [intros [= ?]; lia | done].
    + rewrite list_lookup_insert_ne by lia. rewrite (Hiff b' Hb').
      destruct (rc =? 1); [|done].
      rewrite elem_of_app, list_elem_of_singleton. tauto.
Qed.

Lemma inc_ref_inv bm a b :
  alloc_inv a → live a b → ref_count a !! Z.to_nat b ≠ Some UINT32_MAX →
  ∃ a', inc_ref bm a b = Done a' ∧ alloc_inv a'.
Proof.
  intros Hinv Hlive Hmax.
  pose proof (live_not_free a b Hinv Hlive) as Hnin.
  destruct Hinv as (Hwf & Hnd & Hiff).
  destruct Hlive as (Hb & rc & Hrc & Hpos).
  destruct (inv_lookup a b Hwf Hb) as (rc' & Hrc' & Hu).
  rewrite Hrc in Hrc'. injection Hrc' as <-.
  assert (Hlen : (Z.to_nat b < length (ref_count a))%nat)
    by (eapply lookup_lt_Some; eauto).
  assert (Hlt : rc < UINT32_MAX).
  { unfold UINT32_MAX, is_u32 in *.
    destruct (decide (rc = 2 ^ 32 - 1)) as [->|]; [by rewrite Hrc in Hmax | lia]. }
  assert (Hw : wrap32 (rc + 1) = rc + 1)
    by (apply wrap32_small; unfold is_u32, UINT32_MAX in *; lia).
  eexists. split; [by apply inc_ref_Done|]. rewrite Hw.
  destruct Hwf as [H1 H2 H3 H4].
  split; [|split].
  - split; simpl; auto.
    + by rewrite length_insert.
    + apply Forall_insert; [done|]. unfold is_u32, UINT32_MAX in *. lia.
  - done.
  - intros b' Hb'. simpl in *.
    destruct (decide (b' = b)) as [->|Hneq].
    + rewrite list_lookup_insert_eq by done.
      split; [intros [= ?]; lia | done].
    + rewrite list_lookup_insert_ne by lia. apply (Hiff b' Hb').
Qed.

Lemma run_op_inv bm a op :
  alloc_inv a → op_pre_nowrap a op →
  ∃ a', run_op bm a op = Done a' ∧ alloc_inv a'.
Proof.
  intros Hinv Hpre. destruct op as [|b|b]; simpl in *.
  - destruct (allocate_inv bm a Hinv Hpre) as (b & a' & -> & Hinv' & _).
    by exists a'.
  - by apply free_block_inv.
  - destruct Hpre. by apply inc_ref_inv.
Qed.

(** C2, as amended: the invariant "[ref_count[b] = 0] iff [b] is on the free
    list, and no block is on the free list twice" holds of a freshly
    constructed allocator, and [allocate], [free_block] and [inc_ref] keep
    it when called under their preconditions, where for [inc_ref] the count
    of the block must also be below [UINT32_MAX]. *)
Theorem free_list_invariant (bm : build) :
  (∀ total_cells blk_size,
     is_u32 total_cells → is_u32 blk_size → 0 < blk_size <= total_cells →
     ∃ a, construct bm total_cells blk_size = Done a ∧ alloc_inv a) ∧
  (∀ a op, alloc_inv a → op_pre_nowrap a op →
     ∃ a', run_op bm a op = Done a' ∧ alloc_inv a').
Proof.
  split.
  - intros total_cells blk_size Ht Hb Hle.
    eexists. split; [by apply construct_Done|].
    apply (construct_inv bm total_cells blk_size); auto.
    by apply construct_Done.
  - intros a op. apply run_op_inv.
Qed.

Lemma free_list_invariant_witness :
  ∃ a a', construct Debug 128 32 = Done a ∧ alloc_inv a ∧
          run_op Debug a OpAllocate = Done a' ∧ alloc_inv a'.
Proof.
  destruct (free_list_invariant Debug) as [Hc Hop].
  destruct (Hc 128 32) as (a & Ha & Hinv);
    [unfold is_u32; lia | unfold is_u32; lia | lia |].
  assert (Hne : op_pre_nowrap a OpAllocate).
  { vm_compute in Ha. injection Ha as <-. simpl. discriminate. }
  destruct (Hop a OpAllocate Hinv Hne) as (a' & Ha' & Hinv').
  exists a, a'. auto.
Defined.

Lemma reachable_one_block bm c :
  1 <= c <= UINT32_MAX → reachable bm (one_block c).
Proof.
  intros Hc.
  assert (H : ∀ n : nat, ∀ c, c = 1 + Z.of_nat n → c <= UINT32_MAX →
                              reachable bm (one_block c)).
  { clear c Hc. induction n as [|n IH]; intros c -> Hle.
    - eapply (reach_op bm (mk_allocator 32 1 [0] [0]) OpAllocate).
      + eapply (reach_construct bm 32 32); unfold is_u32; try lia.
        by rewrite construct_Done by lia.
      + simpl. discriminate.
      + simpl. by rewrite (allocate_Done bm _ [] 0).
    - eapply (reach_op bm (one_block (1 + Z.of_nat n)) (OpIncRef 0)).
      + apply IH; [done | lia].
      + split; simpl; [lia|]. eexists. split; [done | lia].
      + simpl. rewrite (inc_ref_Done bm _ 0 (1 + Z.of_nat n));
          simpl; try done; try lia.
        rewrite wrap32_small by (unfold is_u32, UINT32_MAX in *; lia).
        unfold one_block. do 3 f_equal. lia. }
  apply (H (Z.to_nat (c - 1))); lia.
Qed.

(** C2, counterexample: a pool of one block that carries [UINT32_MAX]
    references is reachable and satisfies the invariant and the documented
    precondition of [inc_ref]; the call wraps the count to zero while the
    block is not on the free list. *)
Lemma inc_ref_wrap_breaks_invariant :
  reachable Release (one_block UINT32_MAX) ∧
  alloc_inv (one_block UINT32_MAX) ∧
  op_pre (one_block UINT32_MAX) (OpIncRef 0) ∧
  run_op Release (one_block UINT32_MAX) (OpIncRef 0) = Done (one_block 0) ∧
  run_op Debug (one_block UINT32_MAX) (OpIncRef 0) = Done (one_block 0) ∧
  ref_count (one_block 0) !! Z.to_nat 0 = Some 0 ∧
  (0 ∉ free_list (one_block 0)) ∧
  ¬ alloc_inv (one_block 0).
Proof.
  assert (Hinv : alloc_inv (one_block UINT32_MAX)).
  { split; [|split].
    - split; simpl; unfold is_u32, UINT32_MAX; try lia; try done.
      apply Forall_singleton. lia.
    - constructor.
    - intros b Hb. simpl in *. assert (b = 0) as -> by lia. simpl.
      split; [discriminate | by intros ?%elem_of_nil]. }
  split; [apply reachable_one_block; unfold UINT32_MAX; lia|].
  split; [done|].
  split; [split; simpl; [lia | eexists; split; [done | unfold UINT32_MAX; lia]]|].
  split; [done|]. split; [done|]. split; [done|].
  split; [by intros ?%elem_of_nil|].
  intros (_ & _ & Hiff). specialize (Hiff 0). simpl in Hiff.
  destruct Hiff as [Hbad _]; [lia|].
  by apply elem_of_nil in Hbad.
Qed.

(** ** LIFO reuse *)

Lemma inc_ref_iter bm b k : ∀ a rc,
  0 <= b < num_blocks a → ref_count a !! Z.to_nat b = Some rc → 0 < rc →
  rc + Z.of_nat k <= UINT32_MAX →
  for_each (inc_ref bm) (replicate k b) a =
  Done (mk_allocator (block_size a) (num_blocks a) (free_list a)
          (<[Z.to_nat b := rc + Z.of_nat k]> (ref_count a))).
Proof.
  induction k as [|k IH]; intros a rc Hb Hrc Hpos Hmax.
  - simpl. rewrite Z.add_0_r, list_insert_id by done. by destruct a.
  - assert (Hlen : (Z.to_nat b < length (ref_count a))%nat)
      by (eapply lookup_lt_Some; eauto).
    simpl. rewrite (inc_ref_Done bm a b rc) by done. simpl.
    rewrite wrap32_small by (unfold is_u32, UINT32_MAX in *; lia).
    rewrite (IH _ (rc + 1)); simpl; try done; try lia.
    + rewrite list_insert_insert_eq. do 3 f_equal. lia.
    + by apply list_lookup_insert_eq.
Qed.

Lemma free_block_iter bm b k : ∀ a rc,
  0 <= b < num_blocks a → ref_count a !! Z.to_nat b = Some rc →
  is_u32 rc → Z.of_nat k < rc →
  for_each (free_block bm) (replicate k b) a =
  Done (mk_allocator (block_size a) (num_blocks a) (free_list a)
          (<[Z.to_nat b := rc - Z.of_nat k]> (ref_count a))).
Proof.
  induction k as [|k IH]; intros a rc Hb Hrc Hu Hlt.
  - simpl. rewrite Z.sub_0_r, list_insert_id by done. by destruct a.
  - assert (Hlen : (Z.to_nat b < length (ref_count a))%nat)
      by (eapply lookup_lt_Some; eauto).
    simpl. rewrite (free_block_Done bm a b rc) by (done || lia). simpl.
    destruct (Z.eqb_spec rc 1); [lia|].
    rewrite (IH _ (rc - 1)); simpl; try done; try lia.
    + rewrite list_insert_insert_eq. do 3 f_equal. lia.
    + by apply list_lookup_insert_eq.
    + unfold is_u32 in *. lia.
Qed.

Lemma allocate_release_restores bm a k :
  alloc_inv a → free_list a ≠ [] → Z.of_nat k < UINT32_MAX →
  ∃ b a1 a2,
    allocate bm a = Done (b, a1) ∧
    for_each (inc_ref bm) (replicate k b) a1 = Done a2 ∧
    ref_count a2 !! Z.to_nat b = Some (1 + Z.of_nat k) ∧
    for_each (free_block bm) (replicate (S k) b) a2 = Done a.
Proof.
  intros Hinv Hne Hk.
  destruct (last (free_list a)) as [b|] eqn:Hlast;
    [|by apply last_None in Hlast].
  apply last_Some in Hlast as [l Hfl].
  destruct (inv_top_free a l b Hinv Hfl) as (Hb & Hrc & Hnl).
  assert (Hlen : (Z.to_nat b < length (ref_count a))%nat)
    by (eapply lookup_lt_Some; eauto).
  eexists b, _, _.
  split; [apply allocate_Done; eauto; lia|].
  split; [apply (inc_ref_iter bm b k _ 1); simpl; try done; try lia;
          by apply list_lookup_insert_eq|].
  simpl ref_count. rewrite list_insert_insert_eq.
  split; [by apply list_lookup_insert_eq|].
  rewrite replicate_S_end, for_each_app.
  rewrite (free_block_iter bm b k _ (1 + Z.of_nat k)); simpl;
    try done; try (unfold is_u32, UINT32_MAX in *; lia);
    [|by apply list_lookup_insert_eq].
  rewrite list_insert_insert_eq.
  rewrite (free_block_Done bm _ b 1); simpl;
    try done; try (unfold is_u32; lia).
  - rewrite list_insert_insert_eq.
    replace (1 - 1) with 0 by lia.
    rewrite list_insert_id by done.
    rewrite <- Hfl. by destruct a.
  - replace (1 + Z.of_nat k - Z.of_nat k) with 1 by lia.
    by apply list_lookup_insert_eq.
Qed.

(** C3: the free list is a LIFO stack.  A pool built with [(128, 32)] has
    four free blocks, four calls of [allocate] return 0, 1, 2, 3 in that
    order, and after [free_block(2)] the next [allocate] returns 2.  In any
    state satisfying the invariant with a free block left: allocating a
    block, taking [k] further references, dropping all [k + 1] references
    (which brings the count to zero) gives back the starting state, so the
    next [allocate] returns the same block id. *)
Theorem allocator_lifo (bm : build) :
  (∃ a0 a1 a2 a3 a4 a5 a6,
     construct bm 128 32 = Done a0 ∧ num_free a0 = 4 ∧
     allocate bm a0 = Done (0, a1) ∧ allocate bm a1 = Done (1, a2) ∧
     allocate bm a2 = Done (2, a3) ∧ allocate bm a3 = Done (3, a4) ∧
     free_block bm a4 2 = Done a5 ∧ allocate bm a5 = Done (2, a6)) ∧
  (∀ a (k : nat),
     alloc_inv a → free_list a ≠ [] → Z.of_nat k < UINT32_MAX →
     ∃ b a1 a2 a3 a4,
       allocate bm a = Done (b, a1) ∧
       for_each (inc_ref bm) (replicate k b) a1 = Done a2 ∧
       for_each (free_block bm) (replicate (S k) b) a2 = Done a3 ∧
       ref_count a3 !! Z.to_nat b = Some 0 ∧
       allocate bm a3 = Done (b, a4)).
Proof.
  split.
  - destruct bm; do 7 eexists; repeat split; vm_compute; reflexivity.
  - intros a k Hinv Hne Hk.
    destruct (allocate_release_restores bm a k Hinv Hne Hk)
      as (b & a1 & a2 & Halloc & Hinc & _ & Hfree).
    exists b, a1, a2, a, a1. repeat split; try done.
    destruct (last (free_list a)) as [b'|] eqn:Hlast;
      [|by apply last_None in Hlast].
    apply last_Some in Hlast as [l Hfl].
    destruct (inv_top_free a l b' Hinv Hfl) as (Hb & Hrc & Hnl).
    rewrite (allocate_Done bm a l b') in Halloc by (done || lia).
    by injection Halloc as <- _.
Qed.

Lemma allocator_lifo_witness :
  ∃ a b a1 a2 a3 a4,
    construct Debug 64 32 = Done a ∧
    allocate Debug a = Done (b, a1) ∧
    for_each (inc_ref Debug) (replicate 1 b) a1 = Done a2 ∧
    for_each (free_block Debug) (replicate 2 b) a2 = Done a3 ∧
    ref_count a3 !! Z.to_nat b = Some 0 ∧
    allocate Debug a3 = Done (b, a4).
Proof.
  destruct (construct_inv Debug 64 32 (mk_allocator 32 2 [1; 0] [0; 0]))
    as (Hwf & Hnd & Hiff);
    [unfold is_u32; lia | unfold is_u32; lia | lia | reflexivity |].
  destruct (proj2 (allocator_lifo Debug) (mk_allocator 32 2 [1; 0] [0; 0]) 1%nat)
    as (b & a1 & a2 & a3 & a4 & H1 & H2 & H3 & H4 & H5).
  - exact (conj Hwf (conj Hnd Hiff)).
  - discriminate.
  - unfold UINT32_MAX. lia.
  - exists (mk_allocator 32 2 [1; 0] [0; 0]), b, a1, a2, a3, a4.
    repeat split; assumption.
Defined.

(** ** Contract violations of [free_block] and [inc_ref] *)

Lemma free_block_debug_fails a b :
  0 <= b → num_blocks a <= b ∨ ref_count a !! Z.to_nat b = Some 0 →
  free_block Debug a b = AssertFail.
Proof.
  intros Hb0 Hbad. unfold free_block. simpl.
  destruct (Z.ltb_spec b (num_blocks a)) as [Hlt|Hge]; simpl; [|done].
  destruct Hbad as [?|Hz]; [lia|].
  by rewrite (vec_at_Done _ _ _ Hb0 Hz).
Qed.

Lemma inc_ref_debug_fails a b :
  0 <= b → num_blocks a <= b ∨ ref_count a !! Z.to_nat b = Some 0 →
  inc_ref Debug a b = AssertFail.
Proof.
  intros Hb0 Hbad. unfold inc_ref. simpl.
  destruct (Z.ltb_spec b (num_blocks a)) as [Hlt|Hge]; simpl; [|done].
  destruct Hbad as [?|Hz]; [lia|].
  by rewrite (vec_at_Done _ _ _ Hb0 Hz).
Qed.

(** C9, as amended: with assertions compiled in, [free_block(b)] and
    [inc_ref(b)] stop on a failed assertion, before they write anything,
    whenever [b >= num_blocks] or [ref_count[b] = 0] on entry; nothing is
    promised when assertions are compiled out.  Under the precondition
    [b < num_blocks] and [ref_count[b] > 0] both return in either build:
    [free_block] decrements the count and pushes [b] onto the free list
    exactly when the count reaches zero, [inc_ref] increments the count
    modulo [2^32] (by one when it is below [UINT32_MAX]) and leaves the
    free list alone. *)
Theorem free_inc_ref_contract (a : llama_block_allocator) (b : Z)
    (Hwf : alloc_wf a) (Hb : is_u32 b) :
  (num_blocks a <= b ∨ ref_count a !! Z.to_nat b = Some 0 →
     free_block Debug a b = AssertFail ∧ inc_ref Debug a b = AssertFail) ∧
  (∀ bm rc,
     b < num_blocks a → ref_count a !! Z.to_nat b = Some rc → 0 < rc →
     (∃ a', free_block bm a b = Done a' ∧
            ref_count a' = <[Z.to_nat b := rc - 1]> (ref_count a) ∧
            free_list a' = (if rc - 1 =? 0 then free_list a ++ [b]
                            else free_list a) ∧
            num_blocks a' = num_blocks a ∧ block_size a' = block_size a) ∧
     (∃ a', inc_ref bm a b = Done a' ∧
            ref_count a' = <[Z.to_nat b := wrap32 (rc + 1)]> (ref_count a) ∧
            (rc < UINT32_MAX → wrap32 (rc + 1) = rc + 1) ∧
            free_list a' = free_list a ∧
            num_blocks a' = num_blocks a ∧ block_size a' = block_size a)).
Proof.
  destruct Hb as [Hb0 Hb32]. split.
  - intros Hbad. split.
    + by apply free_block_debug_fails.
    + by apply inc_ref_debug_fails.
  - intros bm rc Hlt Hrc Hpos.
    assert (Hu : is_u32 rc).
    { eapply (Forall_lookup_1 _ _ _ _ (wf_ref_u32 _ Hwf)); eauto. }
    split.
    + eexists. split; [apply (free_block_Done bm a b rc); auto; lia|].
      simpl. repeat split.
      destruct (Z.eqb_spec rc 1), (Z.eqb_spec (rc - 1) 0); try lia; done.
    + eexists. split; [apply (inc_ref_Done bm a b rc); auto; lia|].
      simpl. repeat split.
      intros Hmax. apply wrap32_small. unfold is_u32, UINT32_MAX in *. lia.
Qed.

Lemma free_inc_ref_contract_witness :
  (free_block Debug (mk_allocator 32 2 [1] [2; 0]) 1 = AssertFail ∧
   inc_ref Debug (mk_allocator 32 2 [1] [2; 0]) 1 = AssertFail) ∧
  (∃ a', free_block Release (mk_allocator 32 2 [1] [2; 0]) 0 = Done a' ∧
         ref_count a' = [1; 0] ∧ free_list a' = [1]) ∧
  (∃ a', inc_ref Release (mk_allocator 32 2 [1] [2; 0]) 0 = Done a' ∧
         ref_count a' = [3; 0] ∧ free_list a' = [1]).
Proof.
  assert (Hwf : alloc_wf (mk_allocator 32 2 [1] [2; 0])).
  { split; simpl; unfold is_u32.
    - lia.
    - reflexivity.
    - repeat constructor; lia.
    - repeat constructor; lia. }
  split; [|split].
  - apply (free_inc_ref_contract _ 1 Hwf); [unfold is_u32; lia|].
    right. reflexivity.
  - destruct (proj2 (free_inc_ref_contract _ 0 Hwf ltac:(unfold is_u32; lia))
                Release 2) as [(a' & H1 & H2 & H3 & _) _];
      [simpl; lia | reflexivity | lia |].
    exists a'. repeat split; assumption.
  - destruct (proj2 (free_inc_ref_contract _ 0 Hwf ltac:(unfold is_u32; lia))
                Release 2) as [_ (a' & H1 & H2 & _ & H3 & _)];
      [simpl; lia | reflexivity | lia |].
    exists a'. repeat split; assumption.
Defined.

(** C9, counterexample: with assertions compiled out, [free_block] and
    [inc_ref] on a free block of a fresh [(128, 32)] pool return normally
    and leave a changed allocator: the count of block 0 wraps to
    [UINT32_MAX], respectively becomes 1 while block 0 stays on the free
    list. *)
Lemma release_build_surfaces_nothing :
  construct Release 128 32 = Done (mk_allocator 32 4 [3; 2; 1; 0] [0; 0; 0; 0]) ∧
  free_block Release (mk_allocator 32 4 [3; 2; 1; 0] [0; 0; 0; 0]) 0
    = Done (mk_allocator 32 4 [3; 2; 1; 0] [UINT32_MAX; 0; 0; 0]) ∧
  inc_ref Release (mk_allocator 32 4 [3; 2; 1; 0] [0; 0; 0; 0]) 0
    = Done (mk_allocator 32 4 [3; 2; 1; 0] [1; 0; 0; 0]).
Proof. repeat split. Qed.

(** ** Address translation *)

Lemma logical_to_physical_Done bm t seq pos blocks b :
  0 < tbl_block_size t → tables t !! seq = Some blocks →
  0 <= pos < 2 ^ 31 →
  blocks !! Z.to_nat (pos / tbl_block_size t) = Some b →
  logical_to_physical bm t seq pos =
  Done (wrap32 (b * tbl_block_size t + pos mod tbl_block_size t)).
Proof.
  intros Hbs Hseq Hpos Hb. unfold logical_to_physical, udiv32, umod32.
  rewrite Hseq.
  assert (Hw : wrap32 pos = pos) by (apply wrap32_small; unfold is_u32; lia).
  assert (Hq : 0 <= pos / tbl_block_size t) by (apply Z.div_pos; lia).
  assert (Hlen : pos / tbl_block_size t < Z.of_nat (length blocks)).
  { apply lookup_lt_Some in Hb. lia. }
  assert (Hres : wrap32 (wrap32 (b * tbl_block_size t) + pos mod tbl_block_size t)
                 = wrap32 (b * tbl_block_size t + pos mod tbl_block_size t)).
  { unfold wrap32. apply Zplus_mod_idemp_l. }
  rewrite Hw. destruct (Z.eqb_spec (tbl_block_size t) 0); [lia|].
  destruct bm; simpl.
  - destruct (Z.leb_spec 0 pos); [|lia]. simpl.
    destruct (Z.ltb_spec (pos / tbl_block_size t) (Z.of_nat (length blocks)));
      [|lia]. simpl.
    rewrite (vec_at_Done _ _ _ Hq Hb). simpl. by rewrite Hres.
  - rewrite (vec_at_Done _ _ _ Hq Hb). simpl. by rewrite Hres.
Qed.

(** C1: for a sequence present in the table and a position [pos >= 0] with
    [pos / block_size < length(mapping[seq])], [logical_to_physical] returns
    [mapping[seq][pos / block_size] * block_size + pos mod block_size],
    computed in [uint32_t]; this is the exact integer value (and a cell of
    the pool) as soon as the entry is the id of a block of a pool of
    [total_cells] cells.  With [block_size = 32] and a sequence mapped to
    [[5, 7]] the results at positions 0, 31, 32 and 50 are 160, 191, 224 and
    242. *)
Theorem logical_to_physical_formula (bm : build) :
  (∀ t seq pos blocks,
     0 < tbl_block_size t → tables t !! seq = Some blocks →
     0 <= pos < 2 ^ 31 →
     pos / tbl_block_size t < Z.of_nat (length blocks) →
     ∃ b, blocks !! Z.to_nat (pos / tbl_block_size t) = Some b ∧
          logical_to_physical bm t seq pos =
            Done (wrap32 (b * tbl_block_size t + pos mod tbl_block_size t)) ∧
          ∀ total_cells,
            is_u32 total_cells → 0 <= b < total_cells / tbl_block_size t →
            logical_to_physical bm t seq pos =
              Done (b * tbl_block_size t + pos mod tbl_block_size t) ∧
            b * tbl_block_size t + pos mod tbl_block_size t < total_cells) ∧
  (∀ s, let t := mk_table 32 {[ s := [5; 7] ]} in
        logical_to_physical bm t s 0 = Done 160 ∧
        logical_to_physical bm t s 31 = Done 191 ∧
        logical_to_physical bm t s 32 = Done 224 ∧
        logical_to_physical bm t s 50 = Done 242).
Proof.
  split.
  - intros t seq pos blocks Hbs Hseq Hpos Hlen.
    assert (Hq : 0 <= pos / tbl_block_size t) by (apply Z.div_pos; lia).
    destruct (lookup_lt_is_Some_2 blocks (Z.to_nat (pos / tbl_block_size t)))
      as [b Hb]; [lia|].
    exists b. split; [done|].
    pose proof (logical_to_physical_Done bm t seq pos blocks b Hbs Hseq Hpos Hb)
      as Hres.
    split; [done|].
    intros total_cells Ht Hid.
    pose proof (Z.mod_pos_bound pos (tbl_block_size t) Hbs) as Hm.
    assert (Hcell : (b + 1) * tbl_block_size t <= total_cells).
    { etransitivity; [|apply (Z.mul_div_le total_cells (tbl_block_size t)); lia].
      rewrite (Z.mul_comm (tbl_block_size t)). apply Z.mul_le_mono_nonneg_r; lia. }
    split; [|nia].
    rewrite Hres. f_equal. apply wrap32_small. unfold is_u32 in *. nia.
  - intros s t. subst t.
    assert (Hcell : ∀ pos b,
              0 <= pos < 2 ^ 31 → [5; 7] !! Z.to_nat (pos / 32) = Some b →
              logical_to_physical bm (mk_table 32 {[ s := [5; 7] ]}) s pos
              = Done (wrap32 (b * 32 + pos mod 32))).
    { intros pos b Hpos Hb.
      apply (logical_to_physical_Done bm (mk_table 32 {[ s := [5; 7] ]})
               s pos [5; 7] b); simpl;
        [lia | apply lookup_singleton_eq | lia | exact Hb]. }
    split; [apply (Hcell 0 5); [lia | reflexivity]|].
    split; [apply (Hcell 31 5); [lia | reflexivity]|].
    split; [apply (Hcell 32 7); [lia | reflexivity]|].
    apply (Hcell 50 7); [lia | reflexivity].
Qed.

Lemma logical_to_physical_formula_witness :
  ∃ b, [5; 7] !! Z.to_nat (50 / 32) = Some b ∧
       logical_to_physical Debug (mk_table 32 {[ 0 := [5; 7] ]}) 0 50
         = Done (b * 32 + 50 mod 32) ∧
       b * 32 + 50 mod 32 < 256.
Proof.
  destruct (proj1 (logical_to_physical_formula Debug)
              (mk_table 32 {[ 0 := [5; 7] ]}) 0 50 [5; 7])
    as (b & Hb & _ & Hcell).
  - simpl. lia.
  - reflexivity.
  - lia.
  - simpl. reflexivity.
  - exists b. split; [exact Hb|].
    apply (Hcell 256); [unfold is_u32; lia|].
    simpl in Hb. injection Hb as <-. split; [lia | reflexivity].
Defined.

(** ** Copy-on-write sharing *)

Lemma occ_nil b : occ b [] = 0.
Proof. reflexivity. Qed.

Lemma occ_cons_eq b l : occ b (b :: l) = 1 + occ b l.
Proof. unfold occ. rewrite count_occ_cons_eq by done. lia. Qed.

Lemma occ_cons_ne b x l : b ≠ x → occ b (x :: l) = occ b l.
Proof. intros H. unfold occ. rewrite count_occ_cons_neq; [done | congruence]. Qed.

Lemma occ_nonneg b l : 0 <= occ b l.
Proof. unfold occ. lia. Qed.

Lemma occ_not_elem b l : b ∉ l → occ b l = 0.
Proof.
  intros H. unfold occ.
  rewrite (proj1 (count_occ_not_In Z.eq_dec l b)); [done|].
  by rewrite <- list_elem_of_In.
Qed.

Lemma occ_NoDup b l : NoDup l → b ∈ l → occ b l = 1.
Proof.
  intros Hnd Hin. unfold occ.
  apply NoDup_ListNoDup in Hnd.
  rewrite (proj1 (NoDup_count_occ' Z.eq_dec l) Hnd b); [done|].
  by rewrite <- list_elem_of_In.
Qed.

Lemma inc_ref_all bm l : ∀ a,
  shareable a l →
  ∃ a', for_each (inc_ref bm) l a = Done a' ∧
        block_size a' = block_size a ∧ num_blocks a' = num_blocks a ∧
        free_list a' = free_list a ∧
        length (ref_count a') = length (ref_count a) ∧
        ∀ b, 0 <= b →
             ref_count a' !! Z.to_nat b
             = (λ rc, rc + occ b l) <$> (ref_count a !! Z.to_nat b).
Proof.
  induction l as [|x l IH]; intros a Hs.
  - exists a. simpl. repeat split. intros b _.
    destruct (ref_count a !! Z.to_nat b); simpl; [|done].
    f_equal. rewrite occ_nil. lia.
  - destruct (Hs x) as (Hx & rcx & Hrcx & Hpos & Hmax); [by left|].
    rewrite occ_cons_eq in Hmax. pose proof (occ_nonneg x l) as Hnn.
    assert (Hlen : (Z.to_nat x < length (ref_count a))%nat)
      by (eapply lookup_lt_Some; eauto).
    simpl. rewrite (inc_ref_Done bm a x rcx) by done. simpl.
    rewrite wrap32_small by (unfold is_u32, UINT32_MAX in *; lia).
    set (a1 := mk_allocator _ _ _ _).
    destruct (IH a1) as (a' & Hrun & Hbs & Hnb & Hfl & Hl & Hcnt).
    { intros b Hb. destruct (Hs b) as (Hbr & rc & Hrc & Hp & Hm); [by right|].
      split; [done|]. simpl.
      destruct (decide (b = x)) as [->|Hne].
      - rewrite Hrcx in Hrc. injection Hrc as <-.
        rewrite list_lookup_insert_eq by done.
        exists (rcx + 1). split; [done|]. split; lia.
      - rewrite list_lookup_insert_ne by lia.
        rewrite occ_cons_ne in Hm by done. by exists rc. }
    exists a'. split; [done|]. simpl in *.
    rewrite length_insert in Hl. repeat split; try done.
    intros b Hb0. rewrite (Hcnt b Hb0).
    destruct (decide (b = x)) as [->|Hne].
    + rewrite list_lookup_insert_eq, Hrcx by done. simpl.
      f_equal. rewrite occ_cons_eq. lia.
    + rewrite list_lookup_insert_ne by lia. by rewrite occ_cons_ne.
Qed.

(** Whatever the build and the state, a call of [inc_ref] that returns has
    written one slot of [ref_count] and nothing else. *)
Lemma inc_ref_frame bm a b a' :
  inc_ref bm a b = Done a' →
  0 <= b ∧ free_list a' = free_list a ∧
  ∀ b', 0 <= b' → b' ≠ b →
        ref_count a' !! Z.to_nat b' = ref_count a !! Z.to_nat b'.
Proof.
  unfold inc_ref, vec_at, vec_set. intros H.
  assert (Hcore :
    (rc <- (if b <? 0 then Undefined
            else match ref_count a !! Z.to_nat b with
                 | Some x => Done x
                 | None => Undefined
                 end) ;;
     cnt <- (if b <? 0 then Undefined
             else if bool_decide (Z.to_nat b < length (ref_count a))%nat
                  then Done (<[Z.to_nat b := wrap32 (rc + 1)]> (ref_count a))
                  else Undefined) ;;
     Done (set_ref_count a cnt)) = Done a').
  { destruct bm; simpl in H; [|exact H].
    destruct (b <? num_blocks a); simpl in H; [|done].
    destruct (b <? 0); simpl in *; [done|].
    destruct (ref_count a !! Z.to_nat b); simpl in *; [|done].
    destruct (0 <? z); simpl in H; [exact H | done]. }
  clear H. destruct (Z.ltb_spec b 0); simpl in Hcore; [done|].
  destruct (ref_count a !! Z.to_nat b) as [rc|]; simpl in Hcore; [|done].
  destruct (bool_decide _); simpl in Hcore; [|done].
  injection Hcore as <-. simpl. split; [done|]. split; [done|].
  intros b' Hb' Hne. by rewrite list_lookup_insert_ne by lia.
Qed.

Lemma inc_ref_all_frame bm l : ∀ a a',
  for_each (inc_ref bm) l a = Done a' →
  free_list a' = free_list a ∧
  ∀ b, 0 <= b → b ∉ l →
       ref_count a' !! Z.to_nat b = ref_count a !! Z.to_nat b.
Proof.
  induction l as [|x l IH]; intros a a' H; simpl in H.
  - by injection H as <-.
  - destruct (inc_ref bm a x) as [a1| |] eqn:Hx; simpl in H; try done.
    destruct (inc_ref_frame bm a x a1 Hx) as (_ & Hfl & Hcnt).
    destruct (IH a1 a' H) as (Hfl' & Hcnt').
    split; [congruence|].
    intros b Hb Hnin. apply not_elem_of_cons in Hnin as [Hne Hnin].
    rewrite (Hcnt' b Hb Hnin). by apply Hcnt.
Qed.

Lemma logical_to_physical_ext bm t s1 s2 pos :
  tables t !! s1 = tables t !! s2 →
  logical_to_physical bm t s1 pos = logical_to_physical bm t s2 pos.
Proof. intros H. unfold logical_to_physical. by rewrite H. Qed.

Lemma share_Done bm t src dst alloc blocks :
  tables t !! src = Some blocks → shareable alloc blocks →
  ∃ alloc',
    share bm t src dst alloc
      = Done (set_tables t (<[dst := blocks]> (tables t)), alloc') ∧
    block_size alloc' = block_size alloc ∧
    num_blocks alloc' = num_blocks alloc ∧
    free_list alloc' = free_list alloc ∧
    length (ref_count alloc') = length (ref_count alloc) ∧
    ∀ b, 0 <= b →
         ref_count alloc' !! Z.to_nat b
         = (λ rc, rc + occ b blocks) <$> (ref_count alloc !! Z.to_nat b).
Proof.
  intros Hsrc Hs.
  destruct (inc_ref_all bm blocks alloc Hs) as (alloc' & Hrun & Hrest).
  exists alloc'. split; [|done].
  unfold share. rewrite Hsrc. simpl tables. rewrite lookup_insert_eq. simpl.
  destruct bm; simpl; by rewrite Hrun.
Qed.

(** C4, as amended: when [src] exists, [dst] does not, and every block of
    [mapping[src]] is allocated with a count that stays below [2^32] after
    one more reference per entry naming it, [share(src, dst, alloc)] returns,
    [mapping[dst]] is a copy of [mapping[src]], every other sequence is as
    before, the count of each block grows by the number of entries of the
    list naming it (by exactly one when the list names no block twice), no
    other count and no part of the free list changes, and afterwards
    [logical_to_physical] agrees on [src] and [dst] at every position. *)
Theorem share_copies_and_counts (bm : build) (t : llama_block_table)
    (src dst : Z) (alloc : llama_block_allocator) (blocks : list Z) :
  tables t !! src = Some blocks → tables t !! dst = None →
  shareable alloc blocks →
  ∃ t' alloc',
    share bm t src dst alloc = Done (t', alloc') ∧
    tables t' !! dst = Some blocks ∧ tables t' !! src = Some blocks ∧
    (∀ s, s ≠ dst → tables t' !! s = tables t !! s) ∧
    tbl_block_size t' = tbl_block_size t ∧
    (∀ b rc, 0 <= b → ref_count alloc !! Z.to_nat b = Some rc →
             ref_count alloc' !! Z.to_nat b = Some (rc + occ b blocks)) ∧
    (NoDup blocks →
     ∀ b rc, b ∈ blocks → ref_count alloc !! Z.to_nat b = Some rc →
             ref_count alloc' !! Z.to_nat b = Some (rc + 1)) ∧
    (∀ b, 0 <= b → b ∉ blocks →
          ref_count alloc' !! Z.to_nat b = ref_count alloc !! Z.to_nat b) ∧
    free_list alloc' = free_list alloc ∧
    (∀ pos, logical_to_physical bm t' src pos
            = logical_to_physical bm t' dst pos) ∧
    (∀ pos, 0 < tbl_block_size t → 0 <= pos < 2 ^ 31 →
            pos / tbl_block_size t < Z.of_nat (length blocks) →
            ∃ cell, logical_to_physical bm t' src pos = Done cell ∧
                    logical_to_physical bm t' dst pos = Done cell).
Proof.
  intros Hsrc Hdst Hs.
  assert (Hne : src ≠ dst) by (intros ->; congruence).
  destruct (share_Done bm t src dst alloc blocks Hsrc Hs)
    as (alloc' & Hrun & _ & _ & Hfl & _ & Hcnt).
  eexists _, alloc'. split; [exact Hrun|]. simpl.
  assert (Hd : <[dst := blocks]> (tables t) !! dst = Some blocks)
    by apply lookup_insert_eq.
  assert (Hsr : <[dst := blocks]> (tables t) !! src = Some blocks)
    by (by rewrite lookup_insert_ne).
  split; [done|]. split; [done|].
  split; [intros s Hsd; by rewrite lookup_insert_ne|].
  split; [done|].
  split; [intros b rc Hb Hrc; by rewrite Hcnt, Hrc|].
  split.
  { intros Hnd b rc Hin Hrc. destruct (Hs b Hin) as ((Hb0 & _) & _).
    rewrite Hcnt, Hrc by done. simpl. by rewrite occ_NoDup. }
  split.
  { intros b Hb0 Hnin. rewrite Hcnt by done.
    destruct (ref_count alloc !! Z.to_nat b); simpl; [|done].
    rewrite occ_not_elem by done. f_equal. lia. }
  split; [done|].
  assert (Hext : ∀ pos,
            logical_to_physical bm (set_tables t (<[dst:=blocks]> (tables t))) src pos
            = logical_to_physical bm (set_tables t (<[dst:=blocks]> (tables t))) dst pos).
  { intros pos. apply logical_to_physical_ext. simpl. by rewrite Hd, Hsr. }
  split; [done|].
  intros pos Hbs Hpos Hlen.
  assert (Hq : 0 <= pos / tbl_block_size t) by (apply Z.div_pos; lia).
  destruct (lookup_lt_is_Some_2 blocks (Z.to_nat (pos / tbl_block_size t)))
    as [b Hb]; [lia|].
  eexists. split; [|rewrite <- Hext];
    by apply (logical_to_physical_Done bm _ src pos blocks b).
Qed.

Lemma share_copies_and_counts_witness :
  ∃ t' alloc',
    share Debug (mk_table 32 {[ 0 := [0; 1] ]}) 0 1
          (mk_allocator 32 4 [3; 2] [1; 1; 0; 0]) = Done (t', alloc') ∧
    tables t' !! 1 = Some [0; 1] ∧
    ref_count alloc' !! Z.to_nat 0 = Some 2 ∧
    ref_count alloc' !! Z.to_nat 1 = Some 2 ∧
    logical_to_physical Debug t' 0 40 = logical_to_physical Debug t' 1 40.
Proof.
  destruct (share_copies_and_counts Debug (mk_table 32 {[ 0 := [0; 1] ]}) 0 1
              (mk_allocator 32 4 [3; 2] [1; 1; 0; 0]) [0; 1])
    as (t' & alloc' & Hrun & Hd & _ & _ & _ & Hcnt & _ & _ & _ & Hl2p & _).
  - reflexivity.
  - reflexivity.
  - intros b Hb. simpl.
    assert (Hcases : b = 0 ∨ b = 1).
    { inversion Hb; subst; [by left|].
      match goal with H : _ ∈ [1] |- _ => inversion H; subst end;
        [by right|].
      match goal with H : _ ∈ [] |- _ => inversion H end. }
    destruct Hcases as [-> | ->]; (split; [lia|]); exists 1;
      (split; [reflexivity|]); (split; [lia|]); vm_compute; discriminate.
  - exists t', alloc'. split; [exact Hrun|]. split; [exact Hd|].
    split; [apply (Hcnt 0 1); [lia | reflexivity]|].
    split; [apply (Hcnt 1 1); [lia | reflexivity]|].
    apply Hl2p.
Defined.

(** C4, counterexample: (1) a block that already carries [UINT32_MAX]
    references has count 0, not one more, after [share]; (2) a block named
    by two entries of the list gains two; (3) when a block of the list is
    not allocated, a build with assertions stops inside [share]. *)
Lemma share_count_not_plus_one :
  share Release (mk_table 32 {[ 0 := [0] ]}) 0 1 (one_block UINT32_MAX)
    = Done (mk_table 32 (<[1 := [0]]> {[ 0 := [0] ]}), one_block 0) ∧
  share Debug (mk_table 32 {[ 0 := [0] ]}) 0 1 (one_block UINT32_MAX)
    = Done (mk_table 32 (<[1 := [0]]> {[ 0 := [0] ]}), one_block 0) ∧
  share Release (mk_table 32 {[ 0 := [0; 0] ]}) 0 1 (one_block 2)
    = Done (mk_table 32 (<[1 := [0; 0]]> {[ 0 := [0; 0] ]}), one_block 4) ∧
  share Debug (mk_table 32 {[ 0 := [0] ]}) 0 1 (mk_allocator 32 1 [0] [0])
    = AssertFail.
Proof. repeat split. Qed.

(** C10: when [dst] already has a mapping, a call [share(src, dst, alloc)]
    that returns has replaced it by a copy of [mapping[src]], has left the
    free list and every count of a block outside [mapping[src]] as they
    were (so the blocks [dst] mapped before keep their counts unless
    [mapping[src]] names them too): the references [dst] held are neither
    dropped nor freed, they are leaked.  The call does return when the
    blocks of [mapping[src]] are allocated and their counts do not wrap,
    and then every count has grown by the number of entries of
    [mapping[src]] naming the block, so none has been decremented. *)
Theorem share_overwrites_and_leaks (bm : build) (t : llama_block_table)
    (src dst : Z) (alloc : llama_block_allocator) (blocks old : list Z) :
  tables t !! src = Some blocks → tables t !! dst = Some old →
  (∀ t' alloc',
     share bm t src dst alloc = Done (t', alloc') →
     tables t' !! dst = Some blocks ∧
     (∀ s, s ≠ dst → tables t' !! s = tables t !! s) ∧
     free_list alloc' = free_list alloc ∧
     (∀ b, 0 <= b →
           ref_count alloc' !! Z.to_nat b ≠ ref_count alloc !! Z.to_nat b →
           b ∈ blocks) ∧
     (∀ b, b ∈ old → 0 <= b → b ∉ blocks →
           ref_count alloc' !! Z.to_nat b = ref_count alloc !! Z.to_nat b)) ∧
  (shareable alloc blocks →
   ∃ t' alloc',
     share bm t src dst alloc = Done (t', alloc') ∧
     (∀ b rc, 0 <= b → ref_count alloc !! Z.to_nat b = Some rc →
              ref_count alloc' !! Z.to_nat b = Some (rc + occ b blocks)) ∧
     (∀ b rc, b ∈ old → 0 <= b → ref_count alloc !! Z.to_nat b = Some rc →
              ∃ rc', ref_count alloc' !! Z.to_nat b = Some rc' ∧ rc <= rc')).
Proof.
  intros Hsrc Hdst. split.
  - intros t' alloc' Hrun. unfold share in Hrun. rewrite Hsrc in Hrun.
    assert (Hloop : ∃ a1, for_each (inc_ref bm) blocks alloc = Done a1 ∧
                          (t', alloc')
                          = (set_tables t (<[dst := blocks]> (tables t)), a1)).
    { simpl tables in Hrun. rewrite lookup_insert_eq in Hrun. simpl in Hrun.
      destruct bm; simpl in Hrun;
        destruct (for_each _ blocks alloc) as [a1| |]; simpl in Hrun;
        try done; injection Hrun as <- <-; by exists a1. }
    destruct Hloop as (a1 & Hloop & [= -> ->]).
    destruct (inc_ref_all_frame bm blocks alloc a1 Hloop) as (Hfl & Hcnt).
    simpl. split; [apply lookup_insert_eq|].
    split; [intros s Hsd; by rewrite lookup_insert_ne|].
    split; [done|]. split.
    + intros b Hb0 Hchg. destruct (decide (b ∈ blocks)); [done|].
      exfalso. apply Hchg. by apply Hcnt.
    + intros b _ Hb0 Hnin. by apply Hcnt.
  - intros Hs.
    destruct (share_Done bm t src dst alloc blocks Hsrc Hs)
      as (alloc' & Hrun & _ & _ & Hfl & _ & Hcnt).
    eexists _, alloc'. split; [exact Hrun|].
    split; [intros b rc Hb Hrc; by rewrite Hcnt, Hrc|].
    intros b rc _ Hb0 Hrc. exists (rc + occ b blocks).
    split; [by rewrite Hcnt, Hrc|]. pose proof (occ_nonneg b blocks). lia.
Qed.

Lemma share_overwrites_and_leaks_witness :
  ∃ t' alloc',
    share Debug (mk_table 32 (<[1 := [2]]> {[ 0 := [0; 1] ]})) 0 1
          (mk_allocator 32 4 [3] [1; 1; 1; 0]) = Done (t', alloc') ∧
    tables t' !! 1 = Some [0; 1] ∧
    ref_count alloc' !! Z.to_nat 0 = Some 2 ∧
    ref_count alloc' !! Z.to_nat 2 = Some 1 ∧
    free_list alloc' = [3].
Proof.
  destruct (share_overwrites_and_leaks Debug
              (mk_table 32 (<[1 := [2]]> {[ 0 := [0; 1] ]})) 0 1
              (mk_allocator 32 4 [3] [1; 1; 1; 0]) [0; 1] [2])
    as [Hframe Htotal].
  - reflexivity.
  - reflexivity.
  - destruct Htotal as (t' & alloc' & Hrun & Hcnt & _).
    { intros b Hb. simpl.
      assert (Hcases : b = 0 ∨ b = 1).
      { inversion Hb; subst; [by left|].
        match goal with H : _ ∈ [1] |- _ => inversion H; subst end;
          [by right|].
        match goal with H : _ ∈ [] |- _ => inversion H end. }
      destruct Hcases as [-> | ->]; (split; [lia|]); exists 1;
        (split; [reflexivity|]); (split; [lia|]); vm_compute; discriminate. }
    destruct (Hframe t' alloc' Hrun) as (Hd & _ & Hfl & _ & Hold).
    exists t', alloc'. split; [exact Hrun|]. split; [exact Hd|].
    split; [apply (Hcnt 0 1); [lia | reflexivity]|].
    split; [|exact Hfl].
    rewrite (Hold 2); [reflexivity | by left | lia |].
    intros Hin. inversion Hin; subst.
    match goal with H : _ ∈ [1] |- _ => inversion H; subst end.
    match goal with H : _ ∈ [] |- _ => inversion H end.
Defined.

(** ** Range removal *)

Lemma for_each_indices {St} (f : St → Z → outcome St) (blocks : list Z) n :
  ∀ (s : Z) (a : St),
    0 <= s → s + Z.of_nat n <= Z.of_nat (length blocks) →
    for_each (λ a i, b <- vec_at blocks i ;; f a b) (seqZ s (Z.of_nat n)) a
    = for_each f (take n (drop (Z.to_nat s) blocks)) a.
Proof.
  induction n as [|n IH]; intros s a Hs Hlen.
  - by rewrite take_0.
  - destruct (lookup_lt_is_Some_2 blocks (Z.to_nat s)) as [x Hx]; [lia|].
    rewrite seqZ_cons by lia. rewrite (drop_S _ _ _ Hx). simpl.
    rewrite (vec_at_Done _ _ _ Hs Hx). simpl.
    destruct (f a x) as [a'| |]; simpl; try done.
    replace (Z.pred (Z.of_nat (S n))) with (Z.of_nat n) by lia.
    rewrite (IH (Z.succ s) a') by lia.
    by replace (Z.to_nat (Z.succ s)) with (S (Z.to_nat s)) by lia.
Qed.

(** When [pos_end + block_size - 1] fits a [uint32_t], the call frees, in
    order, exactly the blocks at the logical indices
    [[pos_start / block_size, min (ceil (pos_end / block_size), size))] and
    erases them from the list. *)
Lemma remove_blocks_range_in_range bm t seq pos_start pos_end alloc blocks :
  tables t !! seq = Some blocks →
  0 < tbl_block_size t → 0 <= pos_start → 0 <= pos_end →
  pos_end + tbl_block_size t - 1 < 2 ^ 32 →
  Z.of_nat (length blocks) < 2 ^ 32 →
  let block_start := pos_start / tbl_block_size t in
  let block_end := Z.min ((pos_end + tbl_block_size t - 1) / tbl_block_size t)
                         (Z.of_nat (length blocks)) in
  remove_blocks_range bm t seq pos_start pos_end alloc =
  if block_end <=? block_start then Done (t, alloc)
  else
    alloc' <- for_each (free_block bm)
                (take (Z.to_nat (block_end - block_start))
                      (drop (Z.to_nat block_start) blocks)) alloc ;;
    Done (set_tables t
            (<[seq := take (Z.to_nat block_start) blocks
                      ++ drop (Z.to_nat block_end) blocks]> (tables t)),
          alloc').
Proof.
  intros Hseq Hbs Hps Hpe Hfit Hlen block_start block_end.
  unfold remove_blocks_range, udiv32. rewrite Hseq.
  destruct (Z.eqb_spec (tbl_block_size t) 0); [lia|]. simpl.
  assert (Hw1 : wrap32 (wrap32 (pos_end + tbl_block_size t) - 1)
                = pos_end + tbl_block_size t - 1).
  { unfold wrap32. rewrite Zminus_mod_idemp_l. apply Z.mod_small. lia. }
  rewrite Hw1, (wrap32_small (Z.of_nat (length blocks)))
    by (unfold is_u32; lia).
  fold block_start. fold block_end.
  destruct (Z.leb_spec block_end block_start) as [|Hlt]; [done|].
  assert (H0 : 0 <= block_start) by (apply Z.div_pos; lia).
  assert (Hle : block_end <= Z.of_nat (length blocks)) by (apply Z.le_min_r).
  replace (block_end - block_start)
    with (Z.of_nat (Z.to_nat (block_end - block_start))) at 1 by lia.
  rewrite for_each_indices by lia. done.
Qed.

(** The context-shift scenario: a sequence holds four distinct blocks, each
    with a single reference. *)
Lemma remove_blocks_range_scenario bm :
  ∃ a0 a1 a2 a3 a4 t' alloc',
    construct bm 256 32 = Done a0 ∧
    allocate bm a0 = Done (0, a1) ∧ allocate bm a1 = Done (1, a2) ∧
    allocate bm a2 = Done (2, a3) ∧ allocate bm a3 = Done (3, a4) ∧
    remove_blocks_range bm (mk_table 32 {[ 0 := [0; 1; 2; 3] ]}) 0 32 96 a4
      = Done (t', alloc') ∧
    tables t' !! 0 = Some [0; 3] ∧
    free_list alloc' = [7; 6; 5; 4; 1; 2] ∧
    ref_count alloc' = [1; 0; 0; 1; 0; 0; 0; 0].
Proof. destruct bm; do 7 eexists; repeat split; vm_compute; reflexivity. Qed.

(** C5 (the code departs from the claim): with [block_size = 32] and a
    sequence holding blocks [[0, 1, 2, 3]], the claim's range for
    [remove_blocks_range(s, 0, 4294967295)] is the logical indices
    [[0, min (ceil (4294967295 / 32), 4)) = [0, 4)]: all four blocks.  The
    code computes [(pos_end + block_size - 1)] in [uint32_t], which wraps to
    30, takes [block_end = 0], and returns without freeing or erasing
    anything. *)
Theorem remove_blocks_range_round_up_wraps (bm : build) :
  let t := mk_table 32 {[ 0 := [0; 1; 2; 3] ]} in
  let alloc := mk_allocator 32 8 [7; 6; 5; 4] [1; 1; 1; 1; 0; 0; 0; 0] in
  0 / 32 = 0 ∧
  Z.min ((4294967295 + 32 - 1) / 32) 4 = 4 ∧
  wrap32 (wrap32 (4294967295 + 32) - 1) / 32 = 0 ∧
  remove_blocks_range bm t 0 0 4294967295 alloc = Done (t, alloc) ∧
  remove_blocks_range bm t 0 0 4294967264 alloc
    = Done (mk_table 32 (<[0 := []]> {[ 0 := [0; 1; 2; 3] ]}),
            mk_allocator 32 8 [7; 6; 5; 4; 0; 1; 2; 3] [0; 0; 0; 0; 0; 0; 0; 0]).
Proof. destruct bm; repeat split. Qed.

(** ** The window range *)

Lemma i32_Done z : is_i32 z → i32 z = Done z.
Proof.
  unfold is_i32, i32. intros [H1 H2].
  destruct (Z.leb_spec (- 2 ^ 31) z); [|lia].
  destruct (Z.ltb_spec z (2 ^ 31)); [done|lia].
Qed.

Lemma enabled_true w : enabled w = true ↔ 0 < n_window w < n_layer w.
Proof. unfold enabled. rewrite andb_true_iff, !Z.ltb_lt. tauto. Qed.

Lemma get_window_range_enabled w current_il :
  enabled w = true → is_i32 (n_layer w) → 0 <= current_il < n_layer w →
  current_il - n_window w / 2 + n_window w < 2 ^ 31 →
  get_window_range w current_il =
  Done (Z.max 0 (Z.min (current_il - n_window w / 2) (n_layer w - n_window w)),
        Z.max 0 (Z.min (current_il - n_window w / 2) (n_layer w - n_window w))
        + n_window w).
Proof.
  intros Hen Hnl Hil Hfit. unfold get_window_range. rewrite Hen. simpl.
  apply enabled_true in Hen. unfold is_i32 in Hnl.
  rewrite Z.quot_div_nonneg by lia.
  assert (Hhalf : 0 <= n_window w / 2 <= n_window w).
  { split; [apply Z.div_pos; lia|]. apply Z.div_le_upper_bound; lia. }
  rewrite (i32_Done (current_il - n_window w / 2)) by (unfold is_i32; lia).
  simpl. rewrite i32_Done by (unfold is_i32; lia). simpl.
  destruct (Z.ltb_spec (current_il - n_window w / 2) 0) as [Hneg|Hpos]; simpl.
  - destruct (Z.ltb_spec (n_layer w) (Z.min (n_window w) (n_layer w))); [lia|].
    f_equal. f_equal; lia.
  - destruct (Z.ltb_spec (n_layer w) (current_il - n_window w / 2 + n_window w)).
    + rewrite i32_Done by (unfold is_i32; lia). simpl. f_equal. f_equal; lia.
    + f_equal. f_equal; lia.
Qed.

(** C7: [get_window_range(current_il)] returns [[0, n_layer)] whenever
    windowing is disabled.  When it is enabled, for a layer index
    [current_il] (and as long as [start + n_window] fits the [int32_t] it is
    computed in, which it does for every layer index when [n_layer] is at
    most [2^30]) it returns the interval of [n_window] layers that starts at
    [current_il - n_window / 2] moved into [[0, n_layer)]: it lies within
    [[0, n_layer)], contains [current_il], and is
    [[current_il - n_window/2, current_il - n_window/2 + n_window)] itself
    when that already lies within [[0, n_layer)].  With [n_layer = 40] and
    [n_window = 8] the results for 20, 2 and 39 are [[16, 24)], [[0, 8)]
    and [[32, 40)]. *)
Theorem get_window_range_centered (w : llama_layer_window) :
  (enabled w = false → ∀ current_il,
     get_window_range w current_il = Done (0, n_layer w)) ∧
  (enabled w = true → is_i32 (n_layer w) →
   ∀ current_il, 0 <= current_il < n_layer w →
     (n_layer w <= 2 ^ 30 →
      current_il - n_window w / 2 + n_window w < 2 ^ 31) ∧
     (current_il - n_window w / 2 + n_window w < 2 ^ 31 →
      ∃ start end_,
        get_window_range w current_il = Done (start, end_) ∧
        end_ = start + n_window w ∧
        0 <= start ∧ end_ <= n_layer w ∧
        start <= current_il < end_ ∧
        start = Z.max 0 (Z.min (current_il - n_window w / 2)
                               (n_layer w - n_window w)) ∧
        (0 <= current_il - n_window w / 2 →
         current_il - n_window w / 2 + n_window w <= n_layer w →
         start = current_il - n_window w / 2))) ∧
  (n_layer w = 40 → n_window w = 8 →
     get_window_range w 20 = Done (16, 24) ∧
     get_window_range w 2 = Done (0, 8) ∧
     get_window_range w 39 = Done (32, 40)).
Proof.
  split; [|split].
  - intros Hdis il. unfold get_window_range. by rewrite Hdis.
  - intros Hen Hnl il Hil.
    pose proof (proj1 (enabled_true w) Hen) as Hw.
    assert (Hhalf : 0 <= n_window w / 2 <= n_window w).
    { split; [apply Z.div_pos; lia|]. apply Z.div_le_upper_bound; lia. }
    assert (Hhalf' : n_window w / 2 < n_window w)
      by (apply Z.div_lt_upper_bound; lia).
    split; [lia|]. intros Hfit.
    eexists _, _. split; [by apply get_window_range_enabled|].
    repeat split; try lia.
  - intros Hnl Hnw.
    assert (Hen : enabled w = true)
      by (apply enabled_true; rewrite Hnl, Hnw; lia).
    rewrite !get_window_range_enabled
      by (rewrite ?Hnl, ?Hnw; unfold is_i32; (done || lia)).
    rewrite Hnl, Hnw. repeat split.
Qed.

Lemma get_window_range_centered_witness :
  get_window_range (mk_window 40 0 [] 0 [0; 0]) 7 = Done (0, 40) ∧
  (∃ start end_,
     get_window_range (mk_window 40 8 [] 0 [0; 0]) 20 = Done (start, end_) ∧
     start = 20 - 8 / 2 ∧ end_ = start + 8) ∧
  get_window_range (mk_window 40 8 [] 0 [0; 0]) 39 = Done (32, 40).
Proof.
  split; [|split].
  - apply (proj1 (get_window_range_centered (mk_window 40 0 [] 0 [0; 0]))).
    reflexivity.
  - destruct (proj1 (proj2 (get_window_range_centered
                              (mk_window 40 8 [] 0 [0; 0])))
                eq_refl ltac:(unfold is_i32; simpl; lia)
                20 ltac:(simpl; lia))
      as [_ Hrange].
    destruct Hrange as (start & end_ & Hrun & Hend & _ & _ & _ & _ & Hc);
      [vm_compute; reflexivity|].
    exists start, end_. split; [exact Hrun|]. split; [|exact Hend].
    apply Hc; vm_compute; discriminate.
  - apply (proj2 (proj2 (get_window_range_centered
                           (mk_window 40 8 [] 0 [0; 0]))));
      reflexivity.
Defined.

(** ** Pointer swaps *)

Lemma rebind_same n n' :
  nbytes n' = nbytes n → rebind n' (data n) (buffer n) = n.
Proof. destruct n, n'. simpl. intros ->. reflexivity. Qed.

Lemma restore_tensor_Done (m : gmap Z ggml_tensor) sp n' :
  m !! tensor sp = Some n' →
  restore_tensor m sp
  = Done (<[tensor sp := rebind n' (orig_data sp) (orig_buffer sp)]> m).
Proof. intros H. unfold restore_tensor. by rewrite H. Qed.

(** Staging the tensors [ts] and restoring what was saved, as one
    induction over [ts]. *)
Lemma stage_then_restore base buf ts :
  ∀ (mem : gmap Z ggml_tensor) saved offset,
    NoDup ts → (∀ t, t ∈ ts → is_Some (mem !! t)) →
    ∃ saved' mem' offset',
      for_each (stage_tensor base buf) ts (saved, mem, offset)
        = Done (saved ++ saved', mem', offset') ∧
      (∀ t, t ∉ ts → mem' !! t = mem !! t) ∧
      (∀ t, t ∈ ts → ∃ n n', mem !! t = Some n ∧ mem' !! t = Some n' ∧
                             nbytes n' = nbytes n ∧ buffer n' = buf) ∧
      (∀ m : gmap Z ggml_tensor,
         (∀ t, t ∈ ts → ∃ n n', mem !! t = Some n ∧ m !! t = Some n' ∧
                                nbytes n' = nbytes n) →
         ∃ m', for_each restore_tensor saved' m = Done m' ∧
               (∀ t, t ∈ ts → m' !! t = mem !! t) ∧
               (∀ t, t ∉ ts → m' !! t = m !! t)).
Proof.
  induction ts as [|x ts IH]; intros mem saved offset Hnd Hin.
  - exists [], mem, offset. simpl. rewrite app_nil_r.
    split; [done|]. split; [done|].
    split; [intros t Ht; by apply elem_of_nil in Ht|].
    intros m _. exists m. simpl. split; [done|].
    split; [intros t Ht; by apply elem_of_nil in Ht | done].
  - apply NoDup_cons in Hnd as [Hx Hnd].
    destruct (Hin x) as [n Hn]; [by left|].
    set (sx := {| tensor := x; orig_data := data n; orig_buffer := buffer n |}).
    set (mem1 := <[x := rebind n (base + offset) buf]> mem).
    destruct (IH mem1 (saved ++ [sx]) (wrap64 (offset + nbytes n)) Hnd)
      as (saved' & mem' & offset' & Hrun & Hout & Hinn & Hrest).
    { intros t Ht. unfold mem1. rewrite lookup_insert_ne; [|by intros ->].
      apply Hin. by right. }
    exists (sx :: saved'), mem', offset'.
    split.
    { simpl. rewrite Hn. simpl. fold sx. fold mem1. rewrite Hrun.
      by rewrite <- app_assoc. }
    split.
    { intros t Ht. apply not_elem_of_cons in Ht as [Htx Ht].
      rewrite (Hout t Ht). unfold mem1. by rewrite lookup_insert_ne. }
    split.
    { intros t Ht. apply elem_of_cons in Ht as [->|Ht].
      - exists n, (rebind n (base + offset) buf).
        split; [done|]. rewrite (Hout x Hx). unfold mem1.
        rewrite lookup_insert_eq. done.
      - destruct (Hinn t Ht) as (n1 & n' & H1 & H2 & H3 & H4).
        unfold mem1 in H1. rewrite lookup_insert_ne in H1 by (by intros ->).
        by exists n1, n'. }
    intros m Hm.
    destruct (Hm x) as (n0 & n' & Hn0 & Hn' & Hsz); [by left|].
    rewrite Hn in Hn0. injection Hn0 as <-.
    simpl. rewrite (restore_tensor_Done m sx n' Hn'). simpl.
    rewrite (rebind_same n n' Hsz).
    destruct (Hrest (<[x := n]> m)) as (m' & Hrun' & Hin' & Hout').
    { intros t Ht. destruct (Hm t) as (n1 & n1' & H1 & H2 & H3); [by right|].
      exists n1, n1'. unfold mem1.
      rewrite !lookup_insert_ne by (by intros ->). done. }
    exists m'. split; [done|]. split.
    + intros t Ht. apply elem_of_cons in Ht as [->|Ht].
      * rewrite (Hout' x Hx). by rewrite lookup_insert_eq.
      * rewrite (Hin' t Ht). unfold mem1.
        rewrite lookup_insert_ne; [done | by intros ->].
    + intros t Ht. apply not_elem_of_cons in Ht as [Htx Ht].
      rewrite (Hout' t Ht). by rewrite lookup_insert_ne.
Qed.

(** Restoring a saved list whose tensors are pairwise distinct. *)
Lemma restore_saved saved :
  ∀ m : gmap Z ggml_tensor,
    NoDup (tensor <$> saved) →
    (∀ sp, sp ∈ saved → is_Some (m !! tensor sp)) →
    ∃ m', for_each restore_tensor saved m = Done m' ∧
          (∀ sp, sp ∈ saved →
                 ∃ n, m !! tensor sp = Some n ∧
                      m' !! tensor sp
                      = Some (rebind n (orig_data sp) (orig_buffer sp))) ∧
          (∀ t, t ∉ tensor <$> saved → m' !! t = m !! t).
Proof.
  induction saved as [|sp saved IH]; intros m Hnd Hlive.
  - exists m. simpl. split; [done|].
    split; [intros sp Hsp; by apply elem_of_nil in Hsp | done].
  - rewrite fmap_cons in Hnd. apply NoDup_cons in Hnd as [Hsp Hnd].
    destruct (Hlive sp) as [n Hn]; [by left|].
    simpl. rewrite (restore_tensor_Done m sp n Hn). simpl.
    set (m1 := <[tensor sp := rebind n (orig_data sp) (orig_buffer sp)]> m).
    assert (Hne : ∀ sp', sp' ∈ saved → tensor sp ≠ tensor sp').
    { intros sp' Hin Heq. apply Hsp. rewrite Heq.
      apply list_elem_of_fmap. by exists sp'. }
    destruct (IH m1 Hnd) as (m' & Hrun & Hin' & Hout').
    { intros sp' Hin. unfold m1. rewrite lookup_insert_ne by (by apply Hne).
      apply Hlive. by right. }
    exists m'. split; [done|]. split.
    + intros sp' Hin. apply elem_of_cons in Hin as [->|Hin].
      * exists n. split; [done|]. rewrite (Hout' _ Hsp). unfold m1.
        by rewrite lookup_insert_eq.
      * destruct (Hin' sp' Hin) as (n' & H1 & H2). exists n'.
        split; [|done]. unfold m1 in H1.
        by rewrite lookup_insert_ne in H1 by (by apply Hne).
    + intros t Ht. rewrite ?fmap_cons in Ht.
      apply not_elem_of_cons in Ht as [Htx Ht].
      rewrite (Hout' t Ht). unfold m1. by rewrite lookup_insert_ne.
Qed.

Lemma swap_gpu_tier_noop get_base w mem i layer entry :
  0 <= i → entries w !! Z.to_nat i = Some entry →
  tier entry = LLAMA_TIER_GPU →
  swap_layer_to_gpu get_base w mem i layer = Done (w, mem) ∧
  swap_layer_to_cpu w mem i layer = Done (w, mem).
Proof.
  intros Hi He Ht. unfold swap_layer_to_gpu, swap_layer_to_cpu.
  rewrite (vec_at_Done _ _ _ Hi He). simpl. by rewrite Ht.
Qed.

Lemma tier_eqb_gpu_false e :
  tier e ≠ LLAMA_TIER_GPU → tier_eqb (tier e) LLAMA_TIER_GPU = false.
Proof. by destruct (tier e). Qed.

Lemma swap_cycle_restores get_base w (mem : gmap Z ggml_tensor) i layer entry :
  0 <= i → entries w !! Z.to_nat i = Some entry →
  tier entry ≠ LLAMA_TIER_GPU → staging_slot entry < 0 →
  0 <= active_slot w →
  is_Some (staging_gpu_buffer w !! Z.to_nat (active_slot w)) →
  NoDup (layer_tensors layer) →
  (∀ t, t ∈ layer_tensors layer → is_Some (mem !! t)) →
  ∃ w1 mem1 buf,
    swap_layer_to_gpu get_base w mem i layer = Done (w1, mem1) ∧
    staging_gpu_buffer w !! Z.to_nat (active_slot w) = Some buf ∧
    (∀ t, t ∉ layer_tensors layer → mem1 !! t = mem !! t) ∧
    (∀ t, t ∈ layer_tensors layer →
          ∃ n n', mem !! t = Some n ∧ mem1 !! t = Some n' ∧
                  nbytes n' = nbytes n ∧ buffer n' = buf) ∧
    (∃ e1, entries w1 !! Z.to_nat i = Some e1 ∧
           staging_slot e1 = active_slot w ∧ n_layer w1 = n_layer w) ∧
    swap_layer_to_cpu w1 mem1 i layer
    = Done (set_entries w (<[Z.to_nat i := set_staging entry (-1) []]> (entries w)),
            mem).
Proof.
  intros Hi He Ht Hslot Hact [buf Hbuf] Hnd Hin.
  assert (Hlen : (Z.to_nat i < length (entries w))%nat)
    by (eapply lookup_lt_Some; eauto).
  destruct (stage_then_restore (get_base buf) buf (layer_tensors layer)
              mem [] 0 Hnd Hin)
    as (saved' & mem1 & off' & Hrun & Hout & Hinn & Hrest).
  destruct (Hrest mem1) as (m' & Hrun' & Hin' & Hout').
  { intros t Htl. destruct (Hinn t Htl) as (n & n' & H1 & H2 & H3 & _).
    by exists n, n'. }
  assert (Hm' : m' = mem).
  { apply map_eq. intros t. destruct (decide (t ∈ layer_tensors layer)).
    - by apply Hin'.
    - rewrite Hout' by done. by apply Hout. }
  subst m'.
  eexists _, mem1, buf. split.
  { unfold swap_layer_to_gpu. rewrite (vec_at_Done _ _ _ Hi He). simpl.
    rewrite (tier_eqb_gpu_false _ Ht).
    destruct (Z.leb_spec 0 (staging_slot entry)); [lia|].
    rewrite (vec_at_Done _ _ _ Hact Hbuf). simpl. rewrite Hrun. simpl.
    rewrite (vec_set_Done _ _ _ Hi Hlen). reflexivity. }
  split; [done|]. split; [done|]. split; [done|].
  split.
  { eexists. simpl. split; [by apply list_lookup_insert_eq | done]. }
  unfold swap_layer_to_cpu. simpl.
  rewrite (vec_at_Done _ i (set_staging entry (active_slot w) saved') Hi)
    by (by apply list_lookup_insert_eq).
  simpl. rewrite (tier_eqb_gpu_false _ Ht).
  destruct (Z.ltb_spec (active_slot w) 0); [lia|].
  rewrite Hrun'. simpl.
  rewrite vec_set_Done by (rewrite ?length_insert; done). simpl.
  by rewrite list_insert_insert_eq.
Qed.

Lemma swap_cycles_restore get_base (mem : gmap Z ggml_tensor) i layer n :
  ∀ w entry,
    0 <= i → entries w !! Z.to_nat i = Some entry →
    tier entry ≠ LLAMA_TIER_GPU → staging_slot entry < 0 →
    0 <= active_slot w →
    is_Some (staging_gpu_buffer w !! Z.to_nat (active_slot w)) →
    NoDup (layer_tensors layer) →
    (∀ t, t ∈ layer_tensors layer → is_Some (mem !! t)) →
    ∃ wn, swap_cycles get_base n i layer (w, mem) = Done (wn, mem).
Proof.
  induction n as [|n IH]; intros w entry Hi He Ht Hslot Hact Hbuf Hnd Hin.
  - by exists w.
  - destruct (swap_cycle_restores get_base w mem i layer entry)
      as (w1 & mem1 & buf & Hgpu & _ & _ & _ & _ & Hcpu); try done.
    assert (Hlen : (Z.to_nat i < length (entries w))%nat)
      by (eapply lookup_lt_Some; eauto).
    simpl. unfold swap_cycle. simpl. rewrite Hgpu. simpl. rewrite Hcpu. simpl.
    apply (IH _ (set_staging entry (-1) [])); simpl; try done;
      try (by apply list_lookup_insert_eq).
Qed.

(** The pair of swaps on a layer whose fields name pairwise distinct
    nodes.  For a layer index [il] whose entry is permanently on the GPU,
    [swap_layer_to_gpu] and [swap_layer_to_cpu] change nothing.  For an
    entry of another tier that is not staged, with the layer's non-null
    tensor fields naming pairwise distinct tensor nodes, [swap_layer_to_gpu]
    redirects the [data] and [buffer] of exactly these nodes to the active
    staging buffer, creating and removing no node, and
    [swap_layer_to_cpu] then gives back the tensor memory as it was: every
    [data] and [buffer] field has its original value, the entry is unstaged
    again, and this holds after any number of such cycles.  For an entry
    that is already staged, [swap_layer_to_gpu] changes nothing and
    [swap_layer_to_cpu] puts back the [data] and [buffer] saved when the
    layer was staged, touching no other node. *)
Theorem swap_round_trip (get_base : Z → Z) (w : llama_layer_window)
    (mem : gmap Z ggml_tensor) (i : Z) (layer : list Z)
    (entry : llama_layer_window_entry) :
  0 <= i → entries w !! Z.to_nat i = Some entry →
  (tier entry = LLAMA_TIER_GPU →
     swap_layer_to_gpu get_base w mem i layer = Done (w, mem) ∧
     swap_layer_to_cpu w mem i layer = Done (w, mem)) ∧
  (tier entry ≠ LLAMA_TIER_GPU → staging_slot entry < 0 →
   0 <= active_slot w →
   is_Some (staging_gpu_buffer w !! Z.to_nat (active_slot w)) →
   NoDup (layer_tensors layer) →
   (∀ t, t ∈ layer_tensors layer → is_Some (mem !! t)) →
   ∃ w1 mem1 w2 buf,
     swap_layer_to_gpu get_base w mem i layer = Done (w1, mem1) ∧
     staging_gpu_buffer w !! Z.to_nat (active_slot w) = Some buf ∧
     is_on_gpu w1 i = Done (i <? n_layer w) ∧
     (∀ t, is_Some (mem1 !! t) ↔ is_Some (mem !! t)) ∧
     (∀ t, t ∉ layer_tensors layer → mem1 !! t = mem !! t) ∧
     (∀ t, t ∈ layer_tensors layer →
           ∃ n n', mem !! t = Some n ∧ mem1 !! t = Some n' ∧
                   nbytes n' = nbytes n ∧ buffer n' = buf) ∧
     swap_layer_to_cpu w1 mem1 i layer = Done (w2, mem) ∧
     entries w2 = <[Z.to_nat i := set_staging entry (-1) []]> (entries w) ∧
     (staging_slot entry = -1 → saved_ptrs entry = [] → w2 = w) ∧
     (∀ n, ∃ wn, swap_cycles get_base n i layer (w, mem) = Done (wn, mem))) ∧
  (tier entry ≠ LLAMA_TIER_GPU → 0 <= staging_slot entry →
   NoDup (tensor <$> saved_ptrs entry) →
   (∀ sp, sp ∈ saved_ptrs entry → is_Some (mem !! tensor sp)) →
   ∃ w2 mem2,
     swap_layer_to_gpu get_base w mem i layer = Done (w, mem) ∧
     swap_layer_to_cpu w mem i layer = Done (w2, mem2) ∧
     entries w2 = <[Z.to_nat i := set_staging entry (-1) []]> (entries w) ∧
     (∀ sp, sp ∈ saved_ptrs entry →
            ∃ n, mem !! tensor sp = Some n ∧
                 mem2 !! tensor sp
                 = Some (rebind n (orig_data sp) (orig_buffer sp))) ∧
     (∀ t, t ∉ tensor <$> saved_ptrs entry → mem2 !! t = mem !! t)).
Proof.
  intros Hi He. split; [|split].
  - intros Ht. by apply (swap_gpu_tier_noop get_base w mem i layer entry).
  - intros Ht Hslot Hact Hbuf Hnd Hin.
    destruct (swap_cycle_restores get_base w mem i layer entry)
      as (w1 & mem1 & buf & Hgpu & Hb & Hout & Hinn
          & (e1 & He1 & Hs1 & Hnl) & Hcpu);
      try done.
    eexists w1, mem1, _, buf.
    split; [exact Hgpu|]. split; [exact Hb|].
    split.
    { unfold is_on_gpu. rewrite (vec_at_Done _ _ _ Hi He1), Hnl. simpl.
      rewrite Hs1.
      destruct (Z.ltb_spec i 0); [lia|]. simpl.
      destruct (Z.leb_spec (n_layer w) i), (Z.ltb_spec i (n_layer w));
        try lia; try done.
      all: destruct (Z.leb_spec 0 (active_slot w)); [|lia].
      all: by rewrite orb_true_r. }
    split.
    { intros t. destruct (decide (t ∈ layer_tensors layer)) as [Htl|Htl].
      - destruct (Hinn t Htl) as (n & n' & -> & -> & _). by split.
      - by rewrite (Hout t Htl). }
    split; [done|]. split; [done|].
    split; [exact Hcpu|]. split; [done|].
    split.
    { intros Hm1 Hnil. destruct w as [nl nw es act sb]. simpl in *.
      unfold set_entries. simpl. f_equal. apply list_insert_id.
      rewrite He. f_equal. destruct entry. simpl in *. by subst. }
    intros n. by apply (swap_cycles_restore get_base mem i layer n w entry).
  - intros Ht Hslot Hnd Hlive.
    assert (Hlen : (Z.to_nat i < length (entries w))%nat)
      by (eapply lookup_lt_Some; eauto).
    destruct (restore_saved (saved_ptrs entry) mem Hnd Hlive)
      as (mem2 & Hrun & Hin & Hout).
    eexists _, mem2. split.
    { unfold swap_layer_to_gpu. rewrite (vec_at_Done _ _ _ Hi He). simpl.
      rewrite (tier_eqb_gpu_false _ Ht).
      by destruct (Z.leb_spec 0 (staging_slot entry)); [|lia]. }
    split.
    { unfold swap_layer_to_cpu. rewrite (vec_at_Done _ _ _ Hi He). simpl.
      rewrite (tier_eqb_gpu_false _ Ht).
      destruct (Z.ltb_spec (staging_slot entry) 0); [lia|].
      rewrite Hrun. simpl. rewrite (vec_set_Done _ _ _ Hi Hlen). reflexivity. }
    done.
Qed.

Lemma swap_round_trip_witness :
  ∃ w1 mem1 w2,
    let w := mk_window 2 1
               [mk_entry 0 LLAMA_TIER_CPU LLAMA_XFER_IDLE 24 (-1) [];
                mk_entry 1 LLAMA_TIER_GPU LLAMA_XFER_IDLE 24 (-1) []]
               0 [9000; 9001] in
    let mem : gmap Z ggml_tensor :=
      <[100 := mk_tensor 5000 7 16]> {[ 104 := mk_tensor 6000 7 8 ]} in
    swap_layer_to_gpu (λ b, b * 1000000) w mem 0 [100; 0; 104] = Done (w1, mem1) ∧
    mem1 !! 100 = Some (mk_tensor 9000000000 9000 16) ∧
    mem1 !! 104 = Some (mk_tensor 9000000016 9000 8) ∧
    swap_layer_to_cpu w1 mem1 0 [100; 0; 104] = Done (w2, mem) ∧
    w2 = w.
Proof.
  destruct (proj1 (proj2 (swap_round_trip (λ b, b * 1000000)
     (mk_window 2 1
        [mk_entry 0 LLAMA_TIER_CPU LLAMA_XFER_IDLE 24 (-1) [];
         mk_entry 1 LLAMA_TIER_GPU LLAMA_XFER_IDLE 24 (-1) []]
        0 [9000; 9001])
     (<[100 := mk_tensor 5000 7 16]> {[ 104 := mk_tensor 6000 7 8 ]})
     0 [100; 0; 104]
     (mk_entry 0 LLAMA_TIER_CPU LLAMA_XFER_IDLE 24 (-1) [])
     ltac:(lia) eq_refl)))
    as (w1 & mem1 & w2 & buf & Hgpu & _ & _ & _ & _ & _ & Hcpu & _ & Hw & _).
  - discriminate.
  - simpl. lia.
  - simpl. lia.
  - by eexists.
  - vm_compute. repeat constructor; intros H; inversion H; subst;
      match goal with H : _ ∈ _ |- _ => inversion H end.
  - intros t Ht. vm_compute in Ht.
    inversion Ht; subst; [by eexists|].
    match goal with H : _ ∈ [104] |- _ => inversion H; subst end;
      [by eexists|].
    match goal with H : _ ∈ [] |- _ => inversion H end.
  - exists w1, mem1, w2. simpl.
    split; [exact Hgpu|].
    assert (Hmem1 : mem1 = <[104 := mk_tensor 9000000016 9000 8]>
                             (<[100 := mk_tensor 9000000000 9000 16]>
                                (<[100 := mk_tensor 5000 7 16]>
                                   {[ 104 := mk_tensor 6000 7 8 ]}))).
    { vm_compute in Hgpu. injection Hgpu as _ <-. reflexivity. }
    split; [rewrite Hmem1; reflexivity|].
    split; [rewrite Hmem1; reflexivity|].
    split; [exact Hcpu|].
    by apply Hw.
Defined.

(** C6 (the code departs from the claim): a CPU-tier layer two of whose
    tensor fields name the same node, here node 100 with [data = 5000] and
    [buffer = 7].  [swap_layer_to_gpu] saves [(100, 5000, 7)] at the first
    field and redirects the node; at the second field it saves the
    redirected [(100, 9000000000, 9000)] as the original and redirects
    again.  [swap_layer_to_cpu] walks the saved list front to back, so the
    value written last is the staging address: after the pair of swaps the
    node has [data = 9000000000] and [buffer = 9000] instead of its
    original values, and the tensor memory differs from the one before.
    With the second field null the same pair of calls gives the tensor
    memory back. *)
Theorem swap_round_trip_aliased_fields :
  let get_base := λ b : Z, b * 1000000 in
  let w := mk_window 2 1
             [mk_entry 0 LLAMA_TIER_CPU LLAMA_XFER_IDLE 32 (-1) [];
              mk_entry 1 LLAMA_TIER_GPU LLAMA_XFER_IDLE 32 (-1) []]
             0 [9000; 9001] in
  let mem : gmap Z ggml_tensor := {[ 100 := mk_tensor 5000 7 16 ]} in
  let w1 := mk_window 2 1
              [mk_entry 0 LLAMA_TIER_CPU LLAMA_XFER_IDLE 32 0
                 [mk_saved 100 5000 7; mk_saved 100 9000000000 9000];
               mk_entry 1 LLAMA_TIER_GPU LLAMA_XFER_IDLE 32 (-1) []]
              0 [9000; 9001] in
  let mem1 : gmap Z ggml_tensor := {[ 100 := mk_tensor 9000000016 9000 16 ]} in
  let mem2 : gmap Z ggml_tensor := {[ 100 := mk_tensor 9000000000 9000 16 ]} in
  layer_tensors [100; 100] = [100; 100] ∧
  swap_layer_to_gpu get_base w mem 0 [100; 100] = Done (w1, mem1) ∧
  swap_layer_to_cpu w1 mem1 0 [100; 100] = Done (w, mem2) ∧
  mem2 !! 100 ≠ mem !! 100 ∧
  swap_cycle get_base 0 [100; 0] (w, mem) = Done (w, mem).
Proof.
  repeat split; try (vm_compute; reflexivity).
  vm_compute. discriminate.
Qed.

(** ** LRU eviction *)

Lemma sum_sizes_nonneg l :
  Forall (λ e, 0 <= ce_size e) l → 0 <= sum_sizes l.
Proof. induction 1; simpl; lia. Qed.

Lemma sum_sizes_app l1 l2 : sum_sizes (l1 ++ l2) = sum_sizes l1 + sum_sizes l2.
Proof. induction l1; simpl; lia. Qed.

Lemma sum_sizes_perm l1 l2 : Permutation l1 l2 → sum_sizes l1 = sum_sizes l2.
Proof. induction 1; simpl; lia. Qed.

Lemma cache_total_exact l :
  Forall (λ e, 0 <= ce_size e) l → sum_sizes l < 2 ^ 64 →
  cache_total l = sum_sizes l.
Proof.
  intros Hnn Hfit. unfold cache_total.
  assert (H : ∀ acc, 0 <= acc → acc + sum_sizes l < 2 ^ 64 →
                     fold_left (λ tot e, wrap64 (tot + ce_size e)) l acc
                     = acc + sum_sizes l).
  { clear Hfit. induction Hnn as [|e l He Hl IH]; intros acc Hacc Hfit; simpl in *.
    - lia.
    - pose proof (sum_sizes_nonneg l Hl).
      rewrite wrap64_small by (unfold is_u64; lia).
      rewrite IH by lia. lia. }
  rewrite H; lia.
Qed.

Lemma evict_loop_spec budget cache :
  ∀ freed,
    0 <= budget → Forall (λ e, 0 <= ce_size e) cache → sum_sizes cache < 2 ^ 64 →
    ∃ evicted kept,
      evict_loop budget (sum_sizes cache) cache freed = (freed ++ evicted, kept) ∧
      cache = evicted ++ kept ∧
      sum_sizes kept <= budget ∧
      (∀ pre e post, evicted = pre ++ e :: post →
                     budget < sum_sizes (e :: post ++ kept)).
Proof.
  induction cache as [|oldest rest IH]; intros freed Hb Hnn Hfit.
  - exists [], []. simpl. rewrite app_nil_r. repeat split; try done.
    intros pre e post H. by destruct pre.
  - apply Forall_cons in Hnn as [Ho Hnn].
    pose proof (sum_sizes_nonneg rest Hnn) as Hrest.
    simpl in *. destruct (Z.ltb_spec budget (ce_size oldest + sum_sizes rest)).
    + rewrite wrap64_small by (unfold is_u64; lia).
      replace (ce_size oldest + sum_sizes rest - ce_size oldest)
        with (sum_sizes rest) by lia.
      destruct (IH (freed ++ [oldest])) as (ev & kept & Hrun & Hc & Hk & Hmin);
        [done | done | lia |].
      exists (oldest :: ev), kept. rewrite Hrun, <- app_assoc. simpl.
      split; [done|]. split; [by rewrite Hc|]. split; [done|].
      intros pre e post Heq. destruct pre as [|p pre]; simpl in Heq.
      * injection Heq as <- <-. simpl. rewrite <- Hc. lia.
      * injection Heq as _ Heq. by apply (Hmin pre e post).
    + exists [], (oldest :: rest). rewrite app_nil_r. simpl.
      repeat split; try done. intros pre e post Heq. by destruct pre.
Qed.

Lemma insert_stable_perm x l : Permutation (x :: l) (insert_stable x l).
Proof.
  induction l as [|y l IH]; simpl; [done|].
  destruct (access_lt y x); [|done].
  rewrite perm_swap. by constructor.
Qed.

Lemma stable_sort_perm l : Permutation l (stable_sort l).
Proof.
  induction l as [|x l IH]; simpl; [done|].
  rewrite <- insert_stable_perm. by constructor.
Qed.

Lemma insert_stable_sorted x l :
  StronglySorted (λ a b, access_lt b a = false) l →
  StronglySorted (λ a b, access_lt b a = false) (insert_stable x l).
Proof.
  unfold access_lt. induction 1 as [|y l Hs IH Hall]; simpl.
  - repeat constructor.
  - unfold access_lt.
    destruct (Z.ltb_spec (last_access y) (last_access x)) as [Hlt|Hge].
    + constructor; [done|].
      rewrite <- (insert_stable_perm x l).
      constructor; [apply Z.ltb_ge; lia | done].
    + constructor; [by constructor|].
      constructor; [by apply Z.ltb_ge|].
      eapply Forall_impl; [exact Hall|]. simpl. intros z Hz.
      apply Z.ltb_ge in Hz. apply Z.ltb_ge. lia.
Qed.

Lemma stable_sort_post l : std_sort_post l (stable_sort l).
Proof.
  split; [apply stable_sort_perm|].
  induction l as [|x l IH]; simpl; [constructor|].
  by apply insert_stable_sorted.
Qed.

Lemma std_sort_by_access l l' : std_sort_post l l' → by_access l'.
Proof.
  intros [_ Hs]. unfold by_access.
  induction Hs as [|a l0 Hs IH Hall]; constructor; [done|].
  eapply Forall_impl; [exact Hall|]. simpl. unfold access_lt.
  intros b Hb. by apply Z.ltb_ge in Hb.
Qed.

Lemma evict_lru_stable_admissible budget cache :
  evict_lru budget cache (evict_lru_stable budget cache).1
                         (evict_lru_stable budget cache).2.
Proof.
  destruct cache as [|e cache]; [done|].
  unfold evict_lru, evict_lru_stable.
  exists (stable_sort (e :: cache)). split; [apply stable_sort_post|].
  by destruct (evict_sorted _ _).
Qed.

(** C8, as amended: [evict_lru()] always returns.  It frees cache entries
    in ascending order of [last_access], oldest first, the order among
    entries of equal [last_access] being whatever [std::sort] left (it need
    not be insertion order), and it stops at the first point where the total
    cached size is at most [cpu_cache_budget]: what is freed and what stays
    is the cache reordered by ascending [last_access]; every freed entry was
    freed while the total was still over budget; the total that stays is at
    most the budget. *)
Theorem evict_lru_within_budget (budget : Z) (cache : list cpu_cache_entry) :
  0 <= budget → Forall (λ e, 0 <= ce_size e) cache → sum_sizes cache < 2 ^ 64 →
  (∃ freed cache', evict_lru budget cache freed cache') ∧
  (∀ freed cache',
     evict_lru budget cache freed cache' →
     Permutation cache (freed ++ cache') ∧
     by_access (freed ++ cache') ∧
     (∀ e k, e ∈ freed → k ∈ cache' → last_access e <= last_access k) ∧
     sum_sizes cache' <= budget ∧
     cache_total cache' <= budget ∧
     (∀ pre e post, freed = pre ++ e :: post →
                    budget < sum_sizes (e :: post ++ cache'))).
Proof.
  intros Hb Hnn Hfit. split.
  { eexists _, _. apply evict_lru_stable_admissible. }
  intros freed cache' Hev.
  destruct cache as [|e0 cache0].
  { destruct Hev as [-> ->]. simpl. unfold by_access, cache_total. simpl.
    repeat split; try done; try constructor.
    - intros e k He. by apply elem_of_nil in He.
    - intros pre e post H. by destruct pre. }
  destruct Hev as (sorted & Hpost & Hrun).
  pose proof Hpost as [Hperm _].
  assert (Hnn' : Forall (λ e, 0 <= ce_size e) sorted)
    by (by rewrite <- Hperm).
  assert (Hfit' : sum_sizes sorted < 2 ^ 64)
    by (by rewrite <- (sum_sizes_perm _ _ Hperm)).
  unfold evict_sorted in Hrun. rewrite cache_total_exact in Hrun by done.
  destruct (evict_loop_spec budget sorted [] Hb Hnn' Hfit')
    as (ev & kept & Hrun' & Hsplit & Hk & Hmin).
  rewrite Hrun in Hrun'. simpl in Hrun'. injection Hrun' as -> ->.
  pose proof (std_sort_by_access _ _ Hpost) as Hsorted.
  rewrite Hsplit in Hsorted.
  assert (Hnnk : Forall (λ e, 0 <= ce_size e) kept).
  { rewrite Hsplit in Hnn'. by apply Forall_app in Hnn' as [_ ?]. }
  split; [by rewrite <- Hsplit|]. split; [done|].
  split.
  { intros e k He Hk'. unfold by_access in Hsorted.
    clear -Hsorted He Hk'. induction ev as [|x ev IH]; simpl in *.
    - by apply elem_of_nil in He.
    - apply StronglySorted_inv in Hsorted as [Hs Hall].
      apply elem_of_cons in He as [->|He]; [|by apply IH].
      rewrite Forall_forall in Hall. apply Hall.
      apply elem_of_app. by right. }
  split; [done|].
  split; [|done].
  rewrite cache_total_exact; [done | done |].
  pose proof (sum_sizes_nonneg ev) as Hev0.
  rewrite Hsplit, sum_sizes_app in Hfit'.
  rewrite Hsplit in Hnn'. apply Forall_app in Hnn' as [Hnne _].
  specialize (Hev0 Hnne). lia.
Qed.

Lemma evict_lru_within_budget_witness :
  ∃ freed cache',
    evict_lru 15 [mk_cache_entry 0 1000 10 3; mk_cache_entry 1 2000 10 1;
                  mk_cache_entry 2 3000 5 2] freed cache' ∧
    Permutation [mk_cache_entry 0 1000 10 3; mk_cache_entry 1 2000 10 1;
                 mk_cache_entry 2 3000 5 2] (freed ++ cache') ∧
    sum_sizes cache' <= 15.
Proof.
  destruct (evict_lru_within_budget 15
              [mk_cache_entry 0 1000 10 3; mk_cache_entry 1 2000 10 1;
               mk_cache_entry 2 3000 5 2])
    as [(freed & cache' & Hev) Hall].
  - lia.
  - repeat constructor; simpl; lia.
  - reflexivity.
  - exists freed, cache'. split; [exact Hev|].
    destruct (Hall freed cache' Hev) as (Hperm & _ & _ & Hsum & _).
    split; assumption.
Defined.

(** C8, counterexample: twenty cached layers of 10 bytes with the same
    [last_access], inserted in the order 0, 1, ..., 19, and a budget that
    admits nineteen of them.  Leaving the vector in the order
    10, 19, 18, ..., 11, 0, 9, 8, ..., 1 meets everything [std::sort]
    promises (it is the order the introsort of libstdc++ leaves: above 16
    elements the median-of-three step moves the middle element to the
    front and the partition then swaps the rest pairwise), and then the
    entry freed is the eleventh inserted; breaking the tie by insertion
    order would free the entry inserted first. *)
Lemma evict_lru_tie_order_unspecified :
  let e := λ i : Z, mk_cache_entry i (7000 + i) 10 1 in
  let cache :=
    e <$> [0; 1; 2; 3; 4; 5; 6; 7; 8; 9; 10; 11; 12; 13; 14; 15; 16; 17; 18; 19] in
  evict_lru 190 cache [e 10]
    (e <$> [19; 18; 17; 16; 15; 14; 13; 12; 11; 0; 9; 8; 7; 6; 5; 4; 3; 2; 1]) ∧
  evict_lru_stable 190 cache
  = ([e 0],
     e <$> [1; 2; 3; 4; 5; 6; 7; 8; 9; 10; 11; 12; 13; 14; 15; 16; 17; 18; 19]).
Proof.
  intros e cache. split; [|vm_compute; reflexivity].
  exists (e <$> [10; 19; 18; 17; 16; 15; 14; 13; 12; 11;
                 0; 9; 8; 7; 6; 5; 4; 3; 2; 1]).
  split; [|vm_compute; reflexivity].
  split.
  - unfold cache. apply fmap_Permutation.
    apply (bool_decide_unpack _). vm_compute. exact I.
  - unfold e. simpl. repeat constructor.
Qed.

(** * Further properties of the code *)

(** ** The allocator: free blocks, exhaustion, order of allocation *)

Lemma zero_index_count (pre l : list Z) :
  length (filter (λ i, (pre ++ l) !! i = Some 0) (seq (length pre) (length l)))
  = length (filter (λ rc, rc = 0) l).
Proof.
  revert pre. induction l as [|x l IH]; intros pre; [done|].
  simpl length at 2. simpl seq. rewrite !filter_cons.
  assert (Hx : (pre ++ x :: l) !! length pre = Some x).
  { rewrite lookup_app_r by lia. by rewrite Nat.sub_diag. }
  specialize (IH (pre ++ [x])). rewrite <- app_assoc in IH. simpl in IH.
  rewrite length_app in IH. simpl in IH.
  replace (length pre + 1)%nat with (S (length pre)) in IH by lia.
  destruct (decide (x = 0)) as [->|Hne].
  - rewrite decide_True by done. simpl. by rewrite IH.
  - rewrite decide_False by (rewrite Hx; congruence). by rewrite IH.
Qed.

Lemma free_list_perm a :
  alloc_inv a →
  free_list a ≡ₚ
  Z.of_nat <$> filter (λ i, ref_count a !! i = Some 0)
                      (seq 0 (length (ref_count a))).
Proof.
  intros (Hwf & Hnd & Hiff). apply NoDup_Permutation; [done| |].
  - apply (NoDup_fmap_2 Z.of_nat), NoDup_filter, NoDup_seq.
  - intros b. rewrite list_elem_of_fmap. split.
    + intros Hin.
      assert (Hb : 0 <= b < num_blocks a).
      { pose proof (wf_free_ids _ Hwf) as HF. rewrite Forall_forall in HF. auto. }
      exists (Z.to_nat b). split; [lia|].
      apply list_elem_of_filter. split; [by apply Hiff|].
      apply elem_of_seq. rewrite (wf_ref_len _ Hwf). lia.
    + intros (i & -> & Hi). apply list_elem_of_filter in Hi as [Hz Hi].
      apply elem_of_seq in Hi. rewrite (wf_ref_len _ Hwf) in Hi.
      apply Hiff; [lia|]. by rewrite Nat2Z.id.
Qed.

(** X1: in a state satisfying the invariant the free list has exactly as
    many entries as there are blocks with reference count zero, so
    [num_free()] is that number, [can_allocate(n)] holds exactly when at
    least [n] counts are zero, and free blocks plus blocks in use make up
    [total()]. *)
Theorem num_free_counts_zero_refs (a : llama_block_allocator) :
  alloc_inv a →
  length (free_list a) = zero_counts a ∧
  num_free a = Z.of_nat (zero_counts a) ∧
  (∀ n, can_allocate a n = true ↔ n <= Z.of_nat (zero_counts a)) ∧
  num_free a
  + Z.of_nat (length (filter (λ rc, rc ≠ 0) (ref_count a))) = total a.
Proof.
  intros Hinv. pose proof Hinv as (Hwf & _ & _).
  assert (Hlen : length (free_list a) = zero_counts a).
  { rewrite (free_list_perm a Hinv), length_fmap. unfold zero_counts.
    apply (zero_index_count [] (ref_count a)). }
  assert (Hle : (zero_counts a <= length (ref_count a))%nat)
    by apply length_filter.
  assert (Hnf : num_free a = Z.of_nat (zero_counts a)).
  { unfold num_free. rewrite Hlen. apply wrap32_small.
    pose proof (wf_num_blocks _ Hwf). pose proof (wf_ref_len _ Hwf).
    unfold is_u32 in *. lia. }
  split; [done|]. split; [done|]. split.
  - intros n. unfold can_allocate. rewrite Hlen. apply Z.leb_le.
  - rewrite Hnf. unfold total, zero_counts.
    pose proof (wf_num_blocks _ Hwf) as Hnb.
    pose proof (wf_ref_len _ Hwf) as Hrl. unfold is_u32 in Hnb.
    assert (Hsplit : ∀ l : list Z,
              (length (filter (λ rc : Z, rc = 0%Z) l)
               + length (filter (λ rc : Z, rc ≠ 0%Z) l) = length l)%nat).
    { induction l as [|x l IH]; [done|]. rewrite !filter_cons.
      destruct (decide (x = 0)).
      - rewrite decide_False by tauto. simpl. lia.
      - rewrite decide_True by done. simpl. lia. }
    specialize (Hsplit (ref_count a)). lia.
Qed.

Lemma num_free_counts_zero_refs_witness :
  num_free (mk_allocator 32 4 [3; 2] [1; 1; 0; 0]) = 2 ∧
  can_allocate (mk_allocator 32 4 [3; 2] [1; 1; 0; 0]) 2 = true.
Proof.
  assert (Hinv : alloc_inv (mk_allocator 32 4 [3; 2] [1; 1; 0; 0])).
  { destruct (construct_inv Debug 128 32 (mk_allocator 32 4 [3; 2; 1; 0] [0; 0; 0; 0]))
      as (H1 & H2 & H3); [unfold is_u32; lia | unfold is_u32; lia | lia | reflexivity |].
    destruct (allocate_inv Debug (mk_allocator 32 4 [3; 2; 1; 0] [0; 0; 0; 0]))
      as (b & a1 & Ha1 & Hi1 & _);
      [exact (conj H1 (conj H2 H3)) | discriminate |].
    vm_compute in Ha1. injection Ha1 as <- <-.
    destruct (allocate_inv Debug (mk_allocator 32 4 [3; 2; 1] [1; 0; 0; 0]) Hi1)
      as (b & a2 & Ha2 & Hi2 & _); [discriminate|].
    vm_compute in Ha2. injection Ha2 as <- <-. exact Hi2. }
  destruct (num_free_counts_zero_refs _ Hinv) as (_ & Hnf & Hcan & _).
  split; [exact Hnf|]. apply Hcan. vm_compute. discriminate.
Defined.

Lemma allocate_n_pops bm l2 :
  ∀ l1 a,
    alloc_inv a → free_list a = l1 ++ l2 →
    ∃ a', allocate_n bm (length l2) a = Done (reverse l2, a') ∧
          free_list a' = l1 ∧ alloc_inv a' ∧
          num_blocks a' = num_blocks a ∧ block_size a' = block_size a ∧
          (∀ b, b ∈ l2 → ref_count a' !! Z.to_nat b = Some 1) ∧
          (∀ b, 0 <= b → b ∉ l2 →
                ref_count a' !! Z.to_nat b = ref_count a !! Z.to_nat b).
Proof.
  induction l2 as [|x l2 IH] using rev_ind; intros l1 a Hinv Hfl.
  - exists a. rewrite app_nil_r in Hfl. simpl.
    split; [done|]. split; [done|]. split; [done|]. split; [done|].
    split; [done|]. split; [|done].
    intros b Hb. by apply elem_of_nil in Hb.
  - rewrite app_assoc in Hfl.
    destruct (inv_top_free a (l1 ++ l2) x Hinv Hfl) as (Hx & Hrc & Hnin).
    assert (Hlen : (Z.to_nat x < length (ref_count a))%nat)
      by (eapply lookup_lt_Some; eauto).
    destruct (allocate_inv bm a Hinv) as (b & a1 & Hrun & Hinv1 & _ & _).
    { rewrite Hfl. by destruct (l1 ++ l2). }
    rewrite (allocate_Done bm a (l1 ++ l2) x) in Hrun by (done || lia).
    injection Hrun as <- <-.
    destruct (IH l1 _ Hinv1 eq_refl)
      as (a' & Hn & Hfl' & Hinv' & Hnb & Hbs & Hone & Hsame).
    exists a'. rewrite length_app, Nat.add_1_r. simpl.
    rewrite (allocate_Done bm a (l1 ++ l2) x) by (done || lia). simpl.
    rewrite Hn. simpl. rewrite reverse_app. simpl.
    assert (Hx2 : x ∉ l2).
    { intros Hin. apply Hnin. apply elem_of_app. by right. }
    split; [done|]. split; [done|]. split; [done|]. split; [done|].
    split; [done|]. split.
    + intros b Hb. apply elem_of_app in Hb as [Hb|Hb].
      * by apply Hone.
      * apply list_elem_of_singleton in Hb as ->.
        rewrite (Hsame x) by (done || lia). simpl.
        by apply list_lookup_insert_eq.
    + intros b Hb0 Hb. rewrite (Hsame b Hb0).
      * simpl. rewrite list_lookup_insert_ne; [done|].
        intros Heq. apply Hb. apply elem_of_app. right.
        apply list_elem_of_singleton. lia.
      * intros Hin. apply Hb. apply elem_of_app. by left.
Qed.

(** X2: [allocate] serves the free list from its top.  In a state
    satisfying the invariant, [k] successive calls (for [k] at most the
    number of free blocks) return the last [k] entries of the free list,
    topmost first: pairwise distinct ids that were free, each now with
    count 1, while every other count is untouched and the invariant still
    holds.  With no free block left, [allocate] stops on its assertion
    when assertions are compiled in, and otherwise reads [back()] of an
    empty vector. *)
Theorem allocate_n_serves_top (bm : build) (a : llama_block_allocator) :
  alloc_inv a →
  (∀ k : nat, (k <= length (free_list a))%nat →
     ∃ a', allocate_n bm k a
           = Done (reverse (drop (length (free_list a) - k) (free_list a)), a') ∧
           free_list a' = take (length (free_list a) - k) (free_list a) ∧
           alloc_inv a' ∧
           NoDup (reverse (drop (length (free_list a) - k) (free_list a))) ∧
           (∀ b, b ∈ drop (length (free_list a) - k) (free_list a) →
                 ref_count a !! Z.to_nat b = Some 0 ∧
                 ref_count a' !! Z.to_nat b = Some 1) ∧
           (∀ b, 0 <= b → b ∉ drop (length (free_list a) - k) (free_list a) →
                 ref_count a' !! Z.to_nat b = ref_count a !! Z.to_nat b)) ∧
  (free_list a = [] →
     allocate Debug a = AssertFail ∧ allocate Release a = Undefined).
Proof.
  intros Hinv. split.
  - intros k Hk.
    set (l1 := take (length (free_list a) - k) (free_list a)).
    set (l2 := drop (length (free_list a) - k) (free_list a)).
    assert (Hfl : free_list a = l1 ++ l2) by (symmetry; apply take_drop).
    assert (Hl2 : length l2 = k) by (unfold l2; rewrite length_drop; lia).
    destruct (allocate_n_pops bm l2 l1 a Hinv Hfl)
      as (a' & Hn & Hfl' & Hinv' & _ & _ & Hone & Hsame).
    rewrite Hl2 in Hn. exists a'.
    pose proof Hinv as (Hwf & Hnd & Hiff).
    split; [done|]. split; [done|]. split; [done|].
    split.
    { rewrite reverse_Permutation. rewrite Hfl in Hnd.
      by apply NoDup_app in Hnd as (_ & _ & ?). }
    split; [|done].
    intros b Hb. split; [|by apply Hone].
    assert (Hin : b ∈ free_list a) by (rewrite Hfl, elem_of_app; by right).
    apply Hiff; [|done].
    pose proof (wf_free_ids _ Hwf) as HF. rewrite Forall_forall in HF. auto.
  - intros Hnil. unfold allocate. rewrite Hnil. by split.
Qed.

Lemma allocate_n_serves_top_witness :
  ∃ a', allocate_n Debug 2 (mk_allocator 32 3 [2; 1; 0] [0; 0; 0])
        = Done ([0; 1], a') ∧
        free_list a' = [2] ∧ alloc_inv a'.
Proof.
  destruct (construct_inv Debug 96 32 (mk_allocator 32 3 [2; 1; 0] [0; 0; 0]))
    as (H1 & H2 & H3); [unfold is_u32; lia | unfold is_u32; lia | lia | reflexivity |].
  destruct (proj1 (allocate_n_serves_top Debug
                     (mk_allocator 32 3 [2; 1; 0] [0; 0; 0])
                     (conj H1 (conj H2 H3))) 2%nat)
    as (a' & Hn & Hfl & Hinv & _); [simpl; lia|].
  exists a'. split; [exact Hn|]. split; [exact Hfl | exact Hinv].
Defined.

(** X3: a pool built from [(total_cells, blk_size)] with
    [0 < blk_size <= total_cells] has [num_blocks = total_cells / blk_size]
    blocks, all of them free ([ref_count] zero); allocating [num_blocks]
    times hands out the ids [0, 1, ..., num_blocks - 1] in ascending order
    and leaves the pool exhausted, every count being 1. *)
Theorem fresh_pool_ascending (bm : build) (total_cells blk_size : Z) :
  is_u32 total_cells → is_u32 blk_size → 0 < blk_size <= total_cells →
  ∃ a0 a_full,
    construct bm total_cells blk_size = Done a0 ∧
    total a0 = total_cells / blk_size ∧
    num_free a0 = total a0 ∧
    total a0 * blk_size <= total_cells < (total a0 + 1) * blk_size ∧
    allocate_n bm (Z.to_nat (total a0)) a0
      = Done (Z.of_nat <$> seq 0 (Z.to_nat (total a0)), a_full) ∧
    free_list a_full = [] ∧ can_allocate a_full 1 = false ∧
    ref_count a_full = replicate (Z.to_nat (total a0)) 1.
Proof.
  intros Ht Hb Hle.
  set (n := total_cells / blk_size).
  assert (Hn : 0 <= n <= total_cells).
  { split; [apply Z.div_pos; lia|]. apply Z.div_le_upper_bound; nia. }
  pose proof (construct_Done bm total_cells blk_size Hle) as Hc.
  fold n in Hc.
  set (a0 := mk_allocator blk_size n (init_free_list (Z.to_nat n) [])
                          (replicate (Z.to_nat n) 0)) in *.
  assert (Hinv : alloc_inv a0) by (by apply (construct_inv bm total_cells blk_size)).
  assert (Hlen : length (free_list a0) = Z.to_nat n).
  { simpl. by rewrite init_free_list_spec, length_app, length_reverse,
      length_fmap, length_seq. }
  destruct (allocate_n_pops bm (free_list a0) [] a0 Hinv eq_refl)
    as (a' & Hrun & Hfl & Hinv' & Hnb & _ & Hone & _).
  exists a0, a'. split; [done|]. split; [done|].
  split.
  { unfold num_free, total. rewrite Hlen. simpl.
    rewrite Z2Nat.id by lia. apply wrap32_small. unfold is_u32 in *. lia. }
  split.
  { simpl. unfold n. split.
    - rewrite Z.mul_comm. apply Z.mul_div_le. lia.
    - rewrite Z.mul_comm. pose proof (Z.mod_pos_bound total_cells blk_size).
      pose proof (Z.div_mod total_cells blk_size). nia. }
  rewrite Hlen in Hrun. simpl total.
  split.
  { rewrite Hrun. simpl. rewrite init_free_list_spec. simpl.
    by rewrite reverse_involutive. }
  split; [done|]. split; [unfold can_allocate; by rewrite Hfl|].
  apply list_eq. intros i.
  destruct Hinv' as (Hwf' & _ & _). pose proof (wf_ref_len _ Hwf') as Hl.
  rewrite Hnb in Hl. simpl in Hl.
  destruct (decide (i < Z.to_nat n)%nat) as [Hi|Hi].
  - rewrite lookup_replicate_2 by done.
    rewrite <- (Nat2Z.id i). apply Hone. simpl.
    apply elem_of_init_free_list. lia.
  - rewrite (proj1 (lookup_replicate_None _ _ _)) by lia.
    apply lookup_ge_None. lia.
Qed.

Lemma fresh_pool_ascending_witness :
  ∃ a0 a_full,
    construct Release 100 32 = Done a0 ∧ total a0 = 3 ∧
    allocate_n Release 3 a0 = Done ([0; 1; 2], a_full) ∧
    free_list a_full = [].
Proof.
  destruct (fresh_pool_ascending Release 100 32)
    as (a0 & a_full & Hc & Ht & _ & _ & Hn & Hfl & _);
    [unfold is_u32; lia | unfold is_u32; lia | lia |].
  exists a0, a_full. split; [exact Hc|].
  assert (Ht3 : total a0 = 3) by (rewrite Ht; reflexivity).
  split; [exact Ht3|]. rewrite Ht3 in Hn. split; [exact Hn | exact Hfl].
Defined.

(** ** Releasing the blocks of a list *)

Lemma free_block_all_inv bm l :
  ∀ a, alloc_inv a → releasable a l →
    ∃ a', for_each (free_block bm) l a = Done a' ∧ alloc_inv a' ∧
          num_blocks a' = num_blocks a ∧ block_size a' = block_size a ∧
          (∀ b, b ∈ free_list a → b ∈ free_list a') ∧
          (∀ b, 0 <= b →
                ref_count a' !! Z.to_nat b
                = (λ rc, rc - occ b l) <$> (ref_count a !! Z.to_nat b)).
Proof.
  induction l as [|x l IH]; intros a Hinv Hrel.
  - exists a. simpl. split; [done|]. split; [done|]. split; [done|].
    split; [done|]. split; [done|]. intros b _.
    destruct (ref_count a !! Z.to_nat b); simpl; [|done].
    f_equal. rewrite occ_nil. lia.
  - destruct (Hrel x) as (Hx & rcx & Hrcx & Hocc); [by left|].
    rewrite occ_cons_eq in Hocc. pose proof (occ_nonneg x l) as Hnn.
    pose proof Hinv as (Hwf & _ & _).
    destruct (inv_lookup a x Hwf Hx) as (rc' & Hrc' & Hu).
    rewrite Hrcx in Hrc'. injection Hrc' as <-.
    assert (Hlive : live a x) by (split; [done|]; exists rcx; split; [done|lia]).
    destruct (free_block_inv bm a x Hinv Hlive) as (a1 & Hrun & Hinv1).
    pose proof Hrun as Hrun'.
    rewrite (free_block_Done bm a x rcx) in Hrun' by (done || lia).
    injection Hrun' as Ha1.
    assert (Hlen : (Z.to_nat x < length (ref_count a))%nat)
      by (eapply lookup_lt_Some; eauto).
    destruct (IH a1 Hinv1) as (a' & Hrun2 & Hinv' & Hnb & Hbs & Hfl & Hcnt).
    { intros b Hb. destruct (Hrel b) as (Hbr & rc & Hrc & Hm); [by right|].
      rewrite <- Ha1. simpl. split; [done|].
      destruct (decide (b = x)) as [->|Hne].
      - rewrite Hrcx in Hrc. injection Hrc as <-.
        rewrite list_lookup_insert_eq by done.
        exists (rcx - 1). split; [done|]. rewrite occ_cons_eq in Hm. lia.
      - rewrite list_lookup_insert_ne by lia.
        rewrite occ_cons_ne in Hm by done. by exists rc. }
    exists a'. simpl. rewrite Hrun. simpl.
    split; [done|]. split; [done|].
    split; [by rewrite Hnb, <- Ha1|]. split; [by rewrite Hbs, <- Ha1|].
    split.
    + intros b Hb. apply Hfl. rewrite <- Ha1. simpl.
      destruct (rcx =? 1); [|done]. apply elem_of_app. by left.
    + intros b Hb0. rewrite (Hcnt b Hb0), <- Ha1. simpl.
      destruct (decide (b = x)) as [->|Hne].
      * rewrite list_lookup_insert_eq, Hrcx by done. simpl.
        f_equal. rewrite occ_cons_eq. lia.
      * rewrite list_lookup_insert_ne by lia. by rewrite occ_cons_ne.
Qed.

(** Blocks with a single reference, named once: they land on the free list
    in list order. *)
Lemma free_block_all_unshared bm l :
  ∀ a, NoDup l →
    (∀ b, b ∈ l → 0 <= b < num_blocks a ∧ ref_count a !! Z.to_nat b = Some 1) →
    ∃ a', for_each (free_block bm) l a = Done a' ∧
          free_list a' = free_list a ++ l ∧
          num_blocks a' = num_blocks a ∧ block_size a' = block_size a ∧
          (∀ b, b ∈ l → ref_count a' !! Z.to_nat b = Some 0) ∧
          (∀ b, 0 <= b → b ∉ l →
                ref_count a' !! Z.to_nat b = ref_count a !! Z.to_nat b).
Proof.
  induction l as [|x l IH]; intros a Hnd Hall.
  - exists a. simpl. rewrite app_nil_r.
    split; [done|]. split; [done|]. split; [done|]. split; [done|].
    split; [|done]. intros b Hb. by apply elem_of_nil in Hb.
  - apply NoDup_cons in Hnd as [Hx Hnd].
    destruct (Hall x) as (Hxr & Hrc); [by left|].
    assert (Hlen : (Z.to_nat x < length (ref_count a))%nat)
      by (eapply lookup_lt_Some; eauto).
    simpl. rewrite (free_block_Done bm a x 1) by (unfold is_u32; (done || lia)).
    simpl.
    set (a1 := mk_allocator _ _ _ _).
    destruct (IH a1 Hnd) as (a' & Hrun & Hfl & Hnb & Hbs & Hz & Hsame).
    { intros b Hb. destruct (Hall b) as (Hbr & Hb1); [by right|].
      split; [done|]. simpl. rewrite list_lookup_insert_ne; [done|].
      intros Heq. apply Hx. by replace x with b by lia. }
    exists a'. split; [done|].
    split; [rewrite Hfl; simpl; by rewrite <- app_assoc|].
    split; [done|]. split; [done|]. split.
    + intros b Hb. apply elem_of_cons in Hb as [->|Hb]; [|by apply Hz].
      rewrite (Hsame x) by (done || lia). simpl.
      by apply list_lookup_insert_eq.
    + intros b Hb0 Hb. apply not_elem_of_cons in Hb as [Hne Hb].
      rewrite (Hsame b Hb0 Hb). simpl. by rewrite list_lookup_insert_ne by lia.
Qed.

(** ** [free_seq] *)

(** X4: [free_seq] on an absent sequence changes nothing.  On a present
    sequence whose blocks each hold at least as many references as the
    list names them, in a state satisfying the allocator invariant, it
    returns: the sequence is gone, every other sequence is as before, each
    count has dropped by the number of entries naming the block, a block
    whose last references these were is on the free list, the allocator
    invariant still holds, and a second [free_seq] changes nothing. *)
Theorem free_seq_releases (bm : build) (t : llama_block_table) (seq : Z)
    (alloc : llama_block_allocator) :
  (tables t !! seq = None → free_seq bm t seq alloc = Done (t, alloc)) ∧
  (∀ blocks,
     tables t !! seq = Some blocks → alloc_inv alloc → releasable alloc blocks →
     ∃ t' alloc',
       free_seq bm t seq alloc = Done (t', alloc') ∧
       has_seq t' seq = false ∧
       (∀ s, s ≠ seq → tables t' !! s = tables t !! s) ∧
       alloc_inv alloc' ∧
       (∀ b rc, 0 <= b → ref_count alloc !! Z.to_nat b = Some rc →
                ref_count alloc' !! Z.to_nat b = Some (rc - occ b blocks)) ∧
       (∀ b, b ∈ blocks →
             ref_count alloc !! Z.to_nat b = Some (occ b blocks) →
             b ∈ free_list alloc') ∧
       free_seq bm t' seq alloc' = Done (t', alloc')).
Proof.
  split.
  - intros Hnone. unfold free_seq. by rewrite Hnone.
  - intros blocks Hseq Hinv Hrel.
    destruct (free_block_all_inv bm blocks alloc Hinv Hrel)
      as (alloc' & Hrun & Hinv' & Hnb & _ & _ & Hcnt).
    eexists _, alloc'. split.
    { unfold free_seq. rewrite Hseq, Hrun. reflexivity. }
    simpl. split.
    { unfold has_seq. simpl. rewrite lookup_delete_eq.
      apply bool_decide_eq_false_2. by intros [? ?]. }
    split; [intros s Hs; by rewrite lookup_delete_ne|].
    split; [done|].
    split; [intros b rc Hb Hrc; by rewrite Hcnt, Hrc|].
    split.
    + intros b Hb Hrc. destruct (Hrel b Hb) as (Hbr & _).
      destruct Hinv' as (_ & _ & Hiff). apply Hiff; [by rewrite Hnb|].
      rewrite Hcnt, Hrc by lia. simpl. f_equal. lia.
    + unfold free_seq. simpl. by rewrite lookup_delete_eq.
Qed.

Lemma free_seq_releases_witness :
  ∃ t' alloc',
    free_seq Debug (mk_table 32 {[ 0 := [0; 1] ]}) 0
             (mk_allocator 32 3 [2] [1; 2; 0]) = Done (t', alloc') ∧
    has_seq t' 0 = false ∧ alloc_inv alloc' ∧
    ref_count alloc' !! Z.to_nat 1 = Some 1 ∧
    0 ∈ free_list alloc'.
Proof.
  assert (Hinv : alloc_inv (mk_allocator 32 3 [2] [1; 2; 0])).
  { destruct (construct_inv Debug 96 32 (mk_allocator 32 3 [2; 1; 0] [0; 0; 0]))
      as (H1 & H2 & H3);
      [unfold is_u32; lia | unfold is_u32; lia | lia | reflexivity |].
    destruct (allocate_n_pops Debug [1; 0] [2]
                (mk_allocator 32 3 [2; 1; 0] [0; 0; 0]) (conj H1 (conj H2 H3))
                eq_refl) as (a1 & Hn & _ & Hi1 & _).
    vm_compute in Hn. injection Hn as <-.
    destruct (inc_ref_inv Debug (mk_allocator 32 3 [2] [1; 1; 0]) 1 Hi1)
      as (a2 & Ha2 & Hi2).
    - split; simpl; [lia|]. exists 1. split; [reflexivity | lia].
    - vm_compute. discriminate.
    - vm_compute in Ha2. injection Ha2 as <-. exact Hi2. }
  destruct (proj2 (free_seq_releases Debug (mk_table 32 {[ 0 := [0; 1] ]}) 0
                     (mk_allocator 32 3 [2] [1; 2; 0])) [0; 1])
    as (t' & alloc' & Hrun & Hhas & _ & Hinv' & Hcnt & Hfree & _).
  - reflexivity.
  - exact Hinv.
  - intros b Hb. simpl.
    assert (Hcases : b = 0 ∨ b = 1).
    { inversion Hb; subst; [by left|].
      match goal with H : _ ∈ [1] |- _ => inversion H; subst end;
        [by right|].
      match goal with H : _ ∈ [] |- _ => inversion H end. }
    destruct Hcases as [-> | ->]; (split; [lia|]).
    + exists 1. split; [reflexivity|]. vm_compute. discriminate.
    + exists 2. split; [reflexivity|]. vm_compute. discriminate.
  - exists t', alloc'. split; [exact Hrun|]. split; [exact Hhas|].
    split; [exact Hinv'|].
    split; [apply (Hcnt 1 2); [lia | reflexivity]|].
    apply Hfree; [by left | reflexivity].
Defined.

(** X5: [free_seq] on a sequence whose blocks are pairwise distinct and
    hold one reference each pushes them onto the free list in logical
    order: the free list grows by exactly the sequence's block list, the
    counts of these blocks are zero, and no other count changes. *)
Theorem free_seq_unshared (bm : build) (t : llama_block_table) (seq : Z)
    (alloc : llama_block_allocator) (blocks : list Z) :
  tables t !! seq = Some blocks → NoDup blocks →
  (∀ b, b ∈ blocks →
        0 <= b < num_blocks alloc ∧ ref_count alloc !! Z.to_nat b = Some 1) →
  ∃ alloc',
    free_seq bm t seq alloc
      = Done (set_tables t (delete seq (tables t)), alloc') ∧
    free_list alloc' = free_list alloc ++ blocks ∧
    length (free_list alloc')
      = (length (free_list alloc) + length blocks)%nat ∧
    (∀ b, b ∈ blocks → ref_count alloc' !! Z.to_nat b = Some 0) ∧
    (∀ b, 0 <= b → b ∉ blocks →
          ref_count alloc' !! Z.to_nat b = ref_count alloc !! Z.to_nat b).
Proof.
  intros Hseq Hnd Hall.
  destruct (free_block_all_unshared bm blocks alloc Hnd Hall)
    as (alloc' & Hrun & Hfl & _ & _ & Hz & Hsame).
  exists alloc'. split.
  { unfold free_seq. by rewrite Hseq, Hrun. }
  split; [done|]. split; [by rewrite Hfl, length_app|]. by split.
Qed.

Lemma free_seq_unshared_witness :
  ∃ alloc',
    free_seq Release (mk_table 32 {[ 0 := [0; 1] ]}) 0
             (mk_allocator 32 4 [3; 2] [1; 1; 0; 0])
      = Done (mk_table 32 (delete 0 {[ 0 := [0; 1] ]}), alloc') ∧
    free_list alloc' = [3; 2; 0; 1].
Proof.
  destruct (free_seq_unshared Release (mk_table 32 {[ 0 := [0; 1] ]}) 0
              (mk_allocator 32 4 [3; 2] [1; 1; 0; 0]) [0; 1])
    as (alloc' & Hrun & Hfl & _).
  - reflexivity.
  - repeat constructor; intros H; inversion H; subst;
      match goal with H : _ ∈ [] |- _ => inversion H end.
  - intros b Hb. simpl.
    assert (Hcases : b = 0 ∨ b = 1).
    { inversion Hb; subst; [by left|].
      match goal with H : _ ∈ [1] |- _ => inversion H; subst end;
        [by right|].
      match goal with H : _ ∈ [] |- _ => inversion H end. }
    destruct Hcases as [-> | ->]; (split; [lia | reflexivity]).
  - exists alloc'. split; [exact Hrun | exact Hfl].
Defined.

(** Releasing references that are not the last ones: nothing is pushed. *)
Lemma free_block_all_keep bm l :
  ∀ a,
    (∀ b, b ∈ l →
          0 <= b < num_blocks a ∧
          ∃ rc, ref_count a !! Z.to_nat b = Some rc ∧
                occ b l < rc ∧ rc <= UINT32_MAX) →
    ∃ a', for_each (free_block bm) l a = Done a' ∧
          free_list a' = free_list a ∧
          num_blocks a' = num_blocks a ∧ block_size a' = block_size a ∧
          length (ref_count a') = length (ref_count a) ∧
          (∀ b, 0 <= b →
                ref_count a' !! Z.to_nat b
                = (λ rc, rc - occ b l) <$> (ref_count a !! Z.to_nat b)).
Proof.
  induction l as [|x l IH]; intros a Hall.
  - exists a. simpl. split; [done|]. split; [done|]. split; [done|].
    split; [done|]. split; [done|]. intros b _.
    destruct (ref_count a !! Z.to_nat b); simpl; [|done].
    f_equal. rewrite occ_nil. lia.
  - destruct (Hall x) as (Hx & rcx & Hrcx & Hocc & Hmax); [by left|].
    rewrite occ_cons_eq in Hocc. pose proof (occ_nonneg x l) as Hnn.
    assert (Hlen : (Z.to_nat x < length (ref_count a))%nat)
      by (eapply lookup_lt_Some; eauto).
    simpl. rewrite (free_block_Done bm a x rcx)
      by (unfold is_u32, UINT32_MAX in *; (done || lia)).
    simpl. destruct (Z.eqb_spec rcx 1); [lia|].
    set (a1 := mk_allocator _ _ _ _).
    destruct (IH a1) as (a' & Hrun & Hfl & Hnb & Hbs & Hl & Hcnt).
    { intros b Hb. destruct (Hall b) as (Hbr & rc & Hrc & Hm & Hmx); [by right|].
      split; [done|]. simpl.
      destruct (decide (b = x)) as [->|Hne].
      - rewrite Hrcx in Hrc. injection Hrc as <-.
        rewrite list_lookup_insert_eq by done.
        exists (rcx - 1). split; [done|]. rewrite occ_cons_eq in Hm. lia.
      - rewrite list_lookup_insert_ne by lia.
        rewrite occ_cons_ne in Hm by done. by exists rc. }
    exists a'. split; [done|]. split; [done|]. split; [done|]. split; [done|].
    split; [rewrite Hl; simpl; by rewrite length_insert|].
    intros b Hb0. rewrite (Hcnt b Hb0). simpl.
    destruct (decide (b = x)) as [->|Hne].
    + rewrite list_lookup_insert_eq, Hrcx by done. simpl.
      f_equal. rewrite occ_cons_eq. lia.
    + rewrite list_lookup_insert_ne by lia. by rewrite occ_cons_ne.
Qed.

(** ** [share] followed by [free_seq] *)

(** X6: sharing [src] into a sequence id [dst] that does not exist and
    then freeing [dst] gives back exactly the table and the allocator one
    started from (the blocks of [src] being allocated, and their counts
    not wrapping): a copy-on-write fork that is dropped leaves no trace. *)
Theorem share_then_free_seq (bm : build) (t : llama_block_table) (src dst : Z)
    (alloc : llama_block_allocator) (blocks : list Z) :
  tables t !! src = Some blocks → tables t !! dst = None →
  shareable alloc blocks →
  ∃ t1 alloc1,
    share bm t src dst alloc = Done (t1, alloc1) ∧
    has_seq t1 dst = true ∧
    free_seq bm t1 dst alloc1 = Done (t, alloc).
Proof.
  intros Hsrc Hdst Hs.
  destruct (share_Done bm t src dst alloc blocks Hsrc Hs)
    as (alloc1 & Hrun & Hbs & Hnb & Hfl & Hlen & Hcnt).
  destruct (free_block_all_keep bm blocks alloc1)
    as (alloc2 & Hrun2 & Hfl2 & Hnb2 & Hbs2 & Hlen2 & Hcnt2).
  { intros b Hb. destruct (Hs b Hb) as (Hbr & rc & Hrc & Hpos & Hmax).
    split; [by rewrite Hnb|]. exists (rc + occ b blocks).
    split; [by rewrite Hcnt, Hrc by lia|]. lia. }
  eexists _, alloc1. split; [exact Hrun|].
  split.
  { unfold has_seq. simpl. rewrite lookup_insert_eq.
    by apply bool_decide_eq_true_2. }
  unfold free_seq. simpl. rewrite lookup_insert_eq, Hrun2. simpl.
  rewrite delete_insert_id by done.
  f_equal. f_equal; [by destruct t|].
  destruct alloc as [bs nb fl rcs], alloc2 as [bs2 nb2 fl2 rcs2].
  simpl in *. subst. f_equal; try congruence.
  apply list_eq. intros i.
  specialize (Hcnt2 (Z.of_nat i)). specialize (Hcnt (Z.of_nat i)).
  rewrite Nat2Z.id in Hcnt2, Hcnt.
  rewrite Hcnt2, Hcnt by lia.
  destruct (rcs !! i); simpl; [|done]. f_equal. lia.
Qed.

Lemma share_then_free_seq_witness :
  ∃ t1 alloc1,
    share Debug (mk_table 32 {[ 0 := [0; 1] ]}) 0 1
          (mk_allocator 32 4 [3; 2] [1; 1; 0; 0]) = Done (t1, alloc1) ∧
    free_seq Debug t1 1 alloc1
      = Done (mk_table 32 {[ 0 := [0; 1] ]},
              mk_allocator 32 4 [3; 2] [1; 1; 0; 0]).
Proof.
  destruct (share_then_free_seq Debug (mk_table 32 {[ 0 := [0; 1] ]}) 0 1
              (mk_allocator 32 4 [3; 2] [1; 1; 0; 0]) [0; 1])
    as (t1 & alloc1 & Hrun & _ & Hfree).
  - reflexivity.
  - reflexivity.
  - intros b Hb. simpl.
    assert (Hcases : b = 0 ∨ b = 1).
    { inversion Hb; subst; [by left|].
      match goal with H : _ ∈ [1] |- _ => inversion H; subst end;
        [by right|].
      match goal with H : _ ∈ [] |- _ => inversion H end. }
    destruct Hcases as [-> | ->]; (split; [lia|]); exists 1;
      (split; [reflexivity|]); (split; [lia|]); vm_compute; discriminate.
  - exists t1, alloc1. split; [exact Hrun | exact Hfree].
Defined.

(** ** Address translation, continued *)

Lemma vec_at_None {A} (v : list A) i :
  0 <= i → v !! Z.to_nat i = None → vec_at v i = Undefined.
Proof.
  intros Hi Hx. unfold vec_at.
  destruct (Z.ltb_spec i 0); [lia|]. by rewrite Hx.
Qed.

Lemma logical_to_physical_eval bm t seq pos blocks :
  0 < tbl_block_size t → tables t !! seq = Some blocks → 0 <= pos < 2 ^ 31 →
  logical_to_physical bm t seq pos =
  match blocks !! Z.to_nat (pos / tbl_block_size t) with
  | Some b => Done (wrap32 (b * tbl_block_size t + pos mod tbl_block_size t))
  | None => match bm with Debug => AssertFail | Release => Undefined end
  end.
Proof.
  intros Hbs Hseq Hpos.
  destruct (blocks !! Z.to_nat (pos / tbl_block_size t)) as [b|] eqn:Hb.
  - by apply (logical_to_physical_Done bm t seq pos blocks b).
  - unfold logical_to_physical, udiv32. rewrite Hseq.
    assert (Hw : wrap32 pos = pos) by (apply wrap32_small; unfold is_u32; lia).
    assert (Hq : 0 <= pos / tbl_block_size t) by (apply Z.div_pos; lia).
    rewrite Hw. destruct (Z.eqb_spec (tbl_block_size t) 0); [lia|].
    pose proof (proj1 (lookup_ge_None _ _) Hb) as Hge.
    destruct bm; simpl.
    + destruct (Z.leb_spec 0 pos); [|lia]. simpl.
      destruct (Z.ltb_spec (pos / tbl_block_size t) (Z.of_nat (length blocks)));
        [lia | done].
    + by rewrite (vec_at_None _ _ Hq Hb).
Qed.

Lemma get_block_id_eval bm t seq pos blocks :
  0 < tbl_block_size t → tables t !! seq = Some blocks → 0 <= pos < 2 ^ 31 →
  get_block_id bm t seq pos =
  match blocks !! Z.to_nat (pos / tbl_block_size t) with
  | Some b => Done b
  | None => match bm with Debug => AssertFail | Release => Undefined end
  end.
Proof.
  intros Hbs Hseq Hpos. unfold get_block_id, udiv32. rewrite Hseq.
  assert (Hw : wrap32 pos = pos) by (apply wrap32_small; unfold is_u32; lia).
  assert (Hq : 0 <= pos / tbl_block_size t) by (apply Z.div_pos; lia).
  rewrite Hw. destruct (Z.eqb_spec (tbl_block_size t) 0); [lia|].
  destruct (blocks !! Z.to_nat (pos / tbl_block_size t)) as [b|] eqn:Hb.
  - pose proof (lookup_lt_Some _ _ _ Hb) as Hlt.
    destruct bm; simpl.
    + destruct (Z.leb_spec 0 pos); [|lia]. simpl.
      destruct (Z.ltb_spec (pos / tbl_block_size t) (Z.of_nat (length blocks)));
        [|lia]. simpl. by apply vec_at_Done.
    + by apply vec_at_Done.
  - pose proof (proj1 (lookup_ge_None _ _) Hb) as Hge.
    destruct bm; simpl.
    + destruct (Z.leb_spec 0 pos); [|lia]. simpl.
      destruct (Z.ltb_spec (pos / tbl_block_size t) (Z.of_nat (length blocks)));
        [lia | done].
    + by apply vec_at_None.
Qed.

(** X7: the physical cell decodes back.  For a valid position whose block
    id [b] satisfies [b * block_size + block_size <= 2^32],
    [get_block_id] returns [b] and the cell [c] returned by
    [logical_to_physical] satisfies [c / block_size = b] and
    [c mod block_size = pos mod block_size]. *)
Theorem translation_decodes (bm : build) (t : llama_block_table)
    (seq pos : Z) (blocks : list Z) (b : Z) :
  0 < tbl_block_size t → tables t !! seq = Some blocks → 0 <= pos < 2 ^ 31 →
  blocks !! Z.to_nat (pos / tbl_block_size t) = Some b →
  0 <= b → b * tbl_block_size t + tbl_block_size t <= 2 ^ 32 →
  get_block_id bm t seq pos = Done b ∧
  ∃ c, logical_to_physical bm t seq pos = Done c ∧
       c / tbl_block_size t = b ∧
       c mod tbl_block_size t = pos mod tbl_block_size t ∧
       is_u32 c.
Proof.
  intros Hbs Hseq Hpos Hb Hb0 Hfit.
  pose proof (Z.mod_pos_bound pos (tbl_block_size t) Hbs) as Hm.
  split; [by rewrite (get_block_id_eval bm t seq pos blocks), Hb|].
  exists (b * tbl_block_size t + pos mod tbl_block_size t).
  split.
  { rewrite (logical_to_physical_eval bm t seq pos blocks), Hb by done.
    f_equal. apply wrap32_small. unfold is_u32. nia. }
  split; [|split].
  - rewrite Z.div_add_l by lia. rewrite Z.div_small by lia. lia.
  - rewrite Z.add_comm, Z.mod_add by lia. by apply Z.mod_small.
  - unfold is_u32. nia.
Qed.

Lemma translation_decodes_witness :
  get_block_id Debug (mk_table 32 {[ 0 := [5; 7] ]}) 0 50 = Done 7 ∧
  ∃ c, logical_to_physical Debug (mk_table 32 {[ 0 := [5; 7] ]}) 0 50 = Done c ∧
       c / 32 = 7 ∧ c mod 32 = 50 mod 32.
Proof.
  destruct (translation_decodes Debug (mk_table 32 {[ 0 := [5; 7] ]})
              0 50 [5; 7] 7) as (Hg & c & Hc & Hd & Hm & _).
  - simpl. lia.
  - reflexivity.
  - lia.
  - reflexivity.
  - lia.
  - simpl. lia.
  - split; [exact Hg|]. exists c. split; [exact Hc|]. split; [exact Hd | exact Hm].
Defined.

(** X8: translation never aliases distinct data.  With block ids that fit
    ([b * block_size + block_size <= 2^32]), two valid positions of one
    sequence whose block list names no block twice get the same cell only
    if they are the same position, and positions of two sequences whose
    block lists share no block never get the same cell. *)
Theorem translation_injective (bm : build) (t : llama_block_table)
    (s1 s2 p1 p2 : Z) (bl1 bl2 : list Z) (c : Z) :
  0 < tbl_block_size t →
  tables t !! s1 = Some bl1 → tables t !! s2 = Some bl2 →
  (∀ b, b ∈ bl1 ++ bl2 →
        0 <= b ∧ b * tbl_block_size t + tbl_block_size t <= 2 ^ 32) →
  0 <= p1 < 2 ^ 31 → 0 <= p2 < 2 ^ 31 →
  logical_to_physical bm t s1 p1 = Done c →
  logical_to_physical bm t s2 p2 = Done c →
  (s1 = s2 → NoDup bl1 → p1 = p2) ∧
  ¬ (∀ b, b ∈ bl1 → b ∉ bl2).
Proof.
  intros Hbs H1 H2 Hfit Hp1 Hp2 Hc1 Hc2.
  rewrite (logical_to_physical_eval bm t s1 p1 bl1) in Hc1 by done.
  rewrite (logical_to_physical_eval bm t s2 p2 bl2) in Hc2 by done.
  destruct (bl1 !! Z.to_nat (p1 / tbl_block_size t)) as [b1|] eqn:Hb1;
    [|by destruct bm].
  destruct (bl2 !! Z.to_nat (p2 / tbl_block_size t)) as [b2|] eqn:Hb2;
    [|by destruct bm].
  injection Hc1 as Hc1. injection Hc2 as Hc2.
  pose proof (Z.mod_pos_bound p1 (tbl_block_size t) Hbs) as Hm1.
  pose proof (Z.mod_pos_bound p2 (tbl_block_size t) Hbs) as Hm2.
  assert (Hin1 : b1 ∈ bl1) by (eapply list_elem_of_lookup_2; eauto).
  assert (Hin2 : b2 ∈ bl2) by (eapply list_elem_of_lookup_2; eauto).
  destruct (Hfit b1) as [Hb10 Hf1]; [apply elem_of_app; by left|].
  destruct (Hfit b2) as [Hb20 Hf2]; [apply elem_of_app; by right|].
  rewrite wrap32_small in Hc1 by (unfold is_u32; nia).
  rewrite wrap32_small in Hc2 by (unfold is_u32; nia).
  assert (Hd1 : c / tbl_block_size t = b1).
  { rewrite <- Hc1, Z.div_add_l, Z.div_small by lia. lia. }
  assert (Hd2 : c / tbl_block_size t = b2).
  { rewrite <- Hc2, Z.div_add_l, Z.div_small by lia. lia. }
  assert (Hbb : b1 = b2) by congruence. destruct Hbb.
  assert (Hoff : p1 mod tbl_block_size t = p2 mod tbl_block_size t) by lia.
  split.
  - intros <- Hnd. rewrite H1 in H2. injection H2 as <-.
    pose proof (NoDup_lookup _ _ _ _ Hnd Hb1 Hb2) as Hidx.
    assert (Hq1 : 0 <= p1 / tbl_block_size t) by (apply Z.div_pos; lia).
    assert (Hq2 : 0 <= p2 / tbl_block_size t) by (apply Z.div_pos; lia).
    rewrite (Z.div_mod p1 (tbl_block_size t)),
            (Z.div_mod p2 (tbl_block_size t)) by lia.
    rewrite Hoff. f_equal. f_equal. lia.
  - intros Hdisj. by apply (Hdisj b1).
Qed.

Lemma translation_injective_witness :
  (0 = 0 → NoDup [5; 7] → 31 = 31) ∧ ¬ (∀ b, b ∈ [5; 7] → b ∉ [5; 7]).
Proof.
  apply (translation_injective Debug (mk_table 32 {[ 0 := [5; 7] ]})
           0 0 31 31 [5; 7] [5; 7] 191).
  - simpl. lia.
  - reflexivity.
  - reflexivity.
  - intros b Hb. simpl.
    assert (Hcases : b = 5 ∨ b = 7).
    { repeat (match goal with
              | H : _ ∈ _ ++ _ |- _ => simpl in H
              | H : _ ∈ _ :: _ |- _ => inversion H; subst; clear H; [tauto|]
              | H : _ ∈ [] |- _ => inversion H
              end). }
    destruct Hcases as [-> | ->]; lia.
  - lia.
  - lia.
  - reflexivity.
  - reflexivity.
Defined.

(** X9: what the table does off its contract.  For a sequence that is
    not in the table, [capacity] and [num_blocks_for] are 0 and [has_seq]
    is false, while [logical_to_physical] and [get_block_id] stop on an
    assertion when assertions are compiled in and otherwise dereference
    [tables.end()].  A negative position fails the first assertion.  For
    a present sequence, a position past the allocated blocks fails the
    bounds assertion, and without assertions indexes the block list out
    of range.  With [block_size] left at its default 0, translation
    divides by zero. *)
Theorem translation_contract_violations (t : llama_block_table) (seq pos : Z) :
  (tables t !! seq = None →
     capacity t seq = 0 ∧ num_blocks_for t seq = 0 ∧ has_seq t seq = false ∧
     logical_to_physical Debug t seq pos = AssertFail ∧
     logical_to_physical Release t seq pos = Undefined ∧
     get_block_id Debug t seq pos = AssertFail ∧
     get_block_id Release t seq pos = Undefined) ∧
  (pos < 0 →
     logical_to_physical Debug t seq pos = AssertFail ∧
     get_block_id Debug t seq pos = AssertFail) ∧
  (∀ blocks,
     tables t !! seq = Some blocks → 0 <= pos < 2 ^ 31 →
     (0 < tbl_block_size t →
      Z.of_nat (length blocks) <= pos / tbl_block_size t →
      logical_to_physical Debug t seq pos = AssertFail ∧
      logical_to_physical Release t seq pos = Undefined ∧
      get_block_id Debug t seq pos = AssertFail ∧
      get_block_id Release t seq pos = Undefined) ∧
     (tbl_block_size t = 0 →
      ∀ bm, logical_to_physical bm t seq pos = Undefined ∧
            get_block_id bm t seq pos = Undefined)).
Proof.
  split; [|split].
  - intros Hnone. unfold capacity, num_blocks_for, has_seq,
      logical_to_physical, get_block_id. rewrite Hnone. simpl.
    assert (Hdec : bool_decide (is_Some (@None (list Z))) = false).
    { apply bool_decide_eq_false_2. by intros [? ?]. }
    rewrite ?Hdec. repeat split; by destruct (0 <=? pos).
  - intros Hneg. unfold logical_to_physical, get_block_id. simpl.
    by destruct (Z.leb_spec 0 pos); [lia|].
  - intros blocks Hseq Hpos. split.
    + intros Hbs Hlen.
      assert (Hq : 0 <= pos / tbl_block_size t) by (apply Z.div_pos; lia).
      assert (Hnone : blocks !! Z.to_nat (pos / tbl_block_size t) = None)
        by (apply lookup_ge_None; lia).
      rewrite !(logical_to_physical_eval _ t seq pos blocks),
              !(get_block_id_eval _ t seq pos blocks), Hnone by done.
      done.
    + intros Hz bm. unfold logical_to_physical, get_block_id, udiv32.
      rewrite Hseq, Hz. simpl.
      destruct bm; simpl; [|done].
      by destruct (Z.leb_spec 0 pos); [|lia].
Qed.

Lemma translation_contract_violations_witness :
  logical_to_physical Debug (mk_table 32 {[ 0 := [5; 7] ]}) 1 0 = AssertFail ∧
  logical_to_physical Debug (mk_table 32 {[ 0 := [5; 7] ]}) 0 64 = AssertFail ∧
  logical_to_physical Release (mk_table 32 {[ 0 := [5; 7] ]}) 0 64 = Undefined ∧
  logical_to_physical Release (mk_table 0 {[ 0 := [5; 7] ]}) 0 3 = Undefined.
Proof.
  split; [|split; [|split]].
  - apply (proj1 (translation_contract_violations
                    (mk_table 32 {[ 0 := [5; 7] ]}) 1 0)). reflexivity.
  - destruct (proj2 (proj2 (translation_contract_violations
                (mk_table 32 {[ 0 := [5; 7] ]}) 0 64)) [5; 7]) as [H _].
    + reflexivity.
    + lia.
    + apply H; simpl; [lia|]. vm_compute. discriminate.
  - destruct (proj2 (proj2 (translation_contract_violations
                (mk_table 32 {[ 0 := [5; 7] ]}) 0 64)) [5; 7]) as [H _].
    + reflexivity.
    + lia.
    + apply H; simpl; [lia|]. vm_compute. discriminate.
  - destruct (proj2 (proj2 (translation_contract_violations
                (mk_table 0 {[ 0 := [5; 7] ]}) 0 3)) [5; 7]) as [_ H].
    + reflexivity.
    + lia.
    + apply H. reflexivity.
Defined.

(** ** Growing a sequence *)

Lemma logical_to_physical_congr bm t t' s s' pos :
  tbl_block_size t' = tbl_block_size t → tables t' !! s' = tables t !! s →
  logical_to_physical bm t' s' pos = logical_to_physical bm t s pos.
Proof. intros Hbs Ht. unfold logical_to_physical. by rewrite Hbs, Ht. Qed.

Lemma vec_at_app_l {A} (v w : list A) i x :
  vec_at v i = Done x → vec_at (v ++ w) i = Done x.
Proof.
  unfold vec_at. destruct (i <? 0); [done|].
  destruct (v !! Z.to_nat i) as [y|] eqn:Hy; [|done]. intros [= ->].
  by rewrite (lookup_app_l_Some _ _ _ _ Hy).
Qed.

Lemma append_block_new_cell (bm : build) (t : llama_block_table)
    (seq block_id : Z) :
  tables (append_block t seq block_id) !! seq
    = Some (default [] (tables t !! seq) ++ [block_id]) ∧
  (∀ pos,
     0 < tbl_block_size t → 0 <= pos < 2 ^ 31 →
     pos / tbl_block_size t
       = Z.of_nat (length (default [] (tables t !! seq))) →
     logical_to_physical bm (append_block t seq block_id) seq pos
       = Done (wrap32 (block_id * tbl_block_size t + pos mod tbl_block_size t))).
Proof.
  split; [simpl; apply lookup_insert_eq|].
  intros pos Hbs Hpos Hidx.
  apply (logical_to_physical_Done bm (append_block t seq block_id) seq pos
           (default [] (tables t !! seq) ++ [block_id]) block_id);
    simpl; try done; try apply lookup_insert_eq.
  rewrite Hidx, Nat2Z.id.
  rewrite lookup_app_r by lia. by rewrite Nat.sub_diag.
Qed.

(** X10: [append_block] creates the list if the sequence is new and
    otherwise extends it by one entry; it never disturbs a translation
    that was defined: every [(seq', pos)] that resolved to a cell before
    resolves to the same cell afterwards, in either build.  The positions
    of the new logical block resolve into the appended block. *)
Theorem append_block_extends (bm : build) (t : llama_block_table)
    (seq block_id : Z) :
  has_seq (append_block t seq block_id) seq = true ∧
  tables (append_block t seq block_id) !! seq
    = Some (default [] (tables t !! seq) ++ [block_id]) ∧
  (∀ s, s ≠ seq → tables (append_block t seq block_id) !! s = tables t !! s) ∧
  (∀ s pos c,
     logical_to_physical bm t s pos = Done c →
     logical_to_physical bm (append_block t seq block_id) s pos = Done c) ∧
  (∀ pos,
     0 < tbl_block_size t → 0 <= pos < 2 ^ 31 →
     pos / tbl_block_size t
       = Z.of_nat (length (default [] (tables t !! seq))) →
     logical_to_physical bm (append_block t seq block_id) seq pos
       = Done (wrap32 (block_id * tbl_block_size t + pos mod tbl_block_size t))).
Proof.
  assert (Hnew : tables (append_block t seq block_id) !! seq
                 = Some (default [] (tables t !! seq) ++ [block_id]))
    by (simpl; apply lookup_insert_eq).
  split.
  { unfold has_seq. rewrite Hnew. by apply bool_decide_eq_true_2. }
  split; [done|].
  split; [intros s Hs; simpl; by rewrite lookup_insert_ne|].
  split.
  - intros s pos c Hc. destruct (decide (s = seq)) as [->|Hne].
    + unfold logical_to_physical in *. rewrite Hnew.
      destruct (tables t !! seq) as [blocks|] eqn:Hseq.
      * destruct bm; simpl in *.
        -- destruct (0 <=? pos); simpl in *; [|done].
           destruct (udiv32 (wrap32 pos) (tbl_block_size t)) as [lb| |];
             simpl in *; try done.
           destruct (Z.ltb_spec lb (Z.of_nat (length blocks))); simpl in Hc;
             [|done].
           destruct (Z.ltb_spec lb (Z.of_nat (length (blocks ++ [block_id]))));
             [|rewrite length_app in *; lia]. simpl.
           destruct (vec_at blocks lb) as [x| |] eqn:Hx; simpl in Hc; try done.
           by rewrite (vec_at_app_l _ _ _ _ Hx).
        -- destruct (udiv32 (wrap32 pos) (tbl_block_size t)) as [lb| |];
             simpl in *; try done.
           destruct (vec_at blocks lb) as [x| |] eqn:Hx; simpl in Hc; try done.
           by rewrite (vec_at_app_l _ _ _ _ Hx).
      * exfalso. destruct bm; simpl in Hc; [|done].
        by destruct (0 <=? pos).
    + rewrite <- Hc. apply logical_to_physical_congr; [done|].
      simpl. by rewrite lookup_insert_ne.
  - intros pos Hbs Hpos Hidx.
    apply (logical_to_physical_Done bm (append_block t seq block_id) seq pos
             (default [] (tables t !! seq) ++ [block_id]) block_id);
      simpl; try done; try apply lookup_insert_eq.
    rewrite Hidx, Nat2Z.id.
    rewrite lookup_app_r by lia. by rewrite Nat.sub_diag.
Qed.

Lemma append_block_extends_witness :
  logical_to_physical Debug
    (append_block (mk_table 32 {[ 0 := [5] ]}) 0 7) 0 40 = Done 232.
Proof.
  destruct (append_block_extends Debug (mk_table 32 {[ 0 := [5] ]}) 0 7)
    as (_ & _ & _ & _ & Hnew).
  rewrite (Hnew 40); [reflexivity | simpl; lia | lia | reflexivity].
Defined.

(** X11: filling a sequence position by position.  In a state satisfying
    the allocator invariant, with the sequence's blocks being ids of the
    pool and [pos] at most its capacity and below [INT_MAX], the growth
    step of the callers returns a cell inside the pool
    ([phys < num_blocks * block_size]).  It leaves table and allocator
    alone when [pos] is below the capacity; at the capacity it takes the
    top of the free list, appends it, and fails (by the caller's check)
    exactly when no block is free.  Afterwards [pos + 1] is again at most
    the capacity.  At [pos = INT_MAX] the caller's [pos + 1] overflows
    [int], whatever the state. *)
Theorem grow_and_translate_fills (bm : build) (t : llama_block_table)
    (alloc : llama_block_allocator) (seq pos : Z) :
  let blocks := default [] (tables t !! seq) in
  let len := Z.of_nat (length blocks) in
  grow_and_translate bm t alloc seq (2 ^ 31 - 1) = Undefined ∧
  (alloc_inv alloc → 0 < tbl_block_size t →
  num_blocks alloc * tbl_block_size t < 2 ^ 32 →
  Forall (λ b, 0 <= b < num_blocks alloc) blocks →
  len * tbl_block_size t < 2 ^ 32 →
  0 <= pos < 2 ^ 31 - 1 → pos <= len * tbl_block_size t →
  (pos = len * tbl_block_size t → free_list alloc = [] →
     grow_and_translate bm t alloc seq pos = AssertFail) ∧
  (pos < len * tbl_block_size t ∨ free_list alloc ≠ [] →
   ∃ phys t' alloc',
     grow_and_translate bm t alloc seq pos = Done (phys, t', alloc') ∧
     0 <= phys < num_blocks alloc * tbl_block_size t ∧
     alloc_inv alloc' ∧ num_blocks alloc' = num_blocks alloc ∧
     tbl_block_size t' = tbl_block_size t ∧
     (pos < len * tbl_block_size t → t' = t ∧ alloc' = alloc) ∧
     (pos = len * tbl_block_size t →
      ∃ b, last (free_list alloc) = Some b ∧
           t' = append_block t seq b ∧
           free_list alloc' = removelast (free_list alloc)) ∧
     Forall (λ b, 0 <= b < num_blocks alloc)
            (default [] (tables t' !! seq)) ∧
     pos + 1
       <= Z.of_nat (length (default [] (tables t' !! seq))) * tbl_block_size t)).
Proof.
  intros blocks len. subst len blocks.
  remember (default [] (tables t !! seq)) as blocks eqn:Hblocks.
  set (len := Z.of_nat (length blocks)).
  split; [reflexivity|].
  intros Hinv Hbs Hpool Hids Hcap Hpos' Hfill.
  assert (Hpos : 0 <= pos < 2 ^ 31) by lia.
  assert (Hlen0 : 0 <= len) by (unfold len; lia).
  assert (Hcapv : capacity t seq = len * tbl_block_size t).
  { unfold capacity.
    destruct (tables t !! seq) as [bl|]; simpl in Hblocks; subst blocks;
      [|unfold len; simpl; lia].
    fold len.
    rewrite (wrap32_small len) by (unfold is_u32; nia).
    apply wrap32_small. unfold is_u32. nia. }
  assert (Hneed : needs_new_block t seq (wrap32 (pos + 1))
                  = (len * tbl_block_size t <? pos + 1)).
  { unfold needs_new_block. rewrite Hcapv, wrap32_small; [done|].
    unfold is_u32. lia. }
  unfold grow_and_translate.
  rewrite i32_Done by (unfold is_i32; lia). simpl. rewrite Hneed.
  destruct (Z.ltb_spec (len * tbl_block_size t) (pos + 1)) as [Hgrow|Hstay].
  - (* a new block is needed: pos is exactly the capacity *)
    assert (Hpeq : pos = len * tbl_block_size t) by lia.
    split.
    { intros _ Hnil. unfold can_allocate. rewrite Hnil. reflexivity. }
    intros [Hlt|Hne]; [lia|].
    destruct (allocate_inv bm alloc Hinv Hne) as (b & a1 & Hrun & Hinv1 & Hlast & _).
    pose proof Hlast as Hlast'.
    apply last_Some in Hlast' as [l Hfl].
    destruct (inv_top_free alloc l b Hinv Hfl) as (Hb & Hrc & _).
    pose proof Hrun as Hrun'.
    rewrite (allocate_Done bm alloc l b) in Hrun' by (done || lia).
    injection Hrun' as Ha1.
    assert (Hcan : can_allocate alloc 1 = true).
    { unfold can_allocate. rewrite Hfl, length_app. simpl. apply Z.leb_le. lia. }
    rewrite Hcan, Hrun. simpl.
    assert (Hidx : pos / tbl_block_size t = len).
    { rewrite Hpeq. apply Z.div_mul. lia. }
    destruct (append_block_new_cell bm t seq b) as (Hnew & Hcell).
    rewrite <- Hblocks in Hnew, Hcell.
    rewrite (Hcell pos Hbs Hpos Hidx). simpl.
    pose proof (Z.mod_pos_bound pos (tbl_block_size t) Hbs) as Hm.
    rewrite wrap32_small by (unfold is_u32; nia).
    eexists _, _, _. split; [reflexivity|].
    split; [nia|]. split; [done|]. split; [by rewrite <- Ha1|].
    split; [done|]. split; [lia|].
    split.
    { intros _. exists b. split; [done|]. split; [done|].
      rewrite <- Ha1. simpl. by rewrite Hfl, removelast_last. }
    rewrite Hnew. simpl. split.
    + apply Forall_app. split; [done|]. by apply Forall_singleton.
    + rewrite length_app. simpl. fold len. nia.
  - (* the position is already covered *)
    split; [intros Heq; lia|]. intros _. simpl.
    assert (Hq : 0 <= pos / tbl_block_size t < len).
    { split; [apply Z.div_pos; lia|]. apply Z.div_lt_upper_bound; lia. }
    destruct (tables t !! seq) as [bl|] eqn:Hseq; simpl in Hblocks;
      subst blocks; [|unfold len in Hq; simpl in Hq; lia].
    destruct (lookup_lt_is_Some_2 bl (Z.to_nat (pos / tbl_block_size t)))
      as [b Hb]; [unfold len in Hq; lia|].
    rewrite (logical_to_physical_Done bm t seq pos bl b) by done. simpl.
    assert (Hbid : 0 <= b < num_blocks alloc).
    { rewrite Forall_forall in Hids. apply Hids.
      eapply list_elem_of_lookup_2; eauto. }
    pose proof (Z.mod_pos_bound pos (tbl_block_size t) Hbs) as Hm.
    rewrite wrap32_small by (unfold is_u32; nia).
    eexists _, _, _. split; [reflexivity|].
    split; [nia|]. split; [done|]. split; [done|]. split; [done|].
    split; [done|]. split; [intros Heq; lia|].
    rewrite Hseq. simpl. split; [done|]. fold len. lia.
Qed.

Lemma grow_and_translate_fills_witness :
  ∃ phys t' alloc',
    grow_and_translate Debug (mk_table 32 {[ 0 := [0] ]})
      (mk_allocator 32 3 [2; 1] [1; 0; 0]) 0 32 = Done (phys, t', alloc') ∧
    0 <= phys < 3 * 32 ∧ alloc_inv alloc'.
Proof.
  assert (Hinv : alloc_inv (mk_allocator 32 3 [2; 1] [1; 0; 0])).
  { destruct (construct_inv Debug 96 32 (mk_allocator 32 3 [2; 1; 0] [0; 0; 0]))
      as (H1 & H2 & H3);
      [unfold is_u32; lia | unfold is_u32; lia | lia | reflexivity |].
    destruct (allocate_n_pops Debug [0] [2; 1]
                (mk_allocator 32 3 [2; 1; 0] [0; 0; 0]) (conj H1 (conj H2 H3))
                eq_refl) as (a1 & Hn & _ & Hi1 & _).
    vm_compute in Hn. injection Hn as <-. exact Hi1. }
  destruct (proj2 (grow_and_translate_fills Debug (mk_table 32 {[ 0 := [0] ]})
                     (mk_allocator 32 3 [2; 1] [1; 0; 0]) 0 32)) as [_ Hok].
  - exact Hinv.
  - simpl. lia.
  - simpl. lia.
  - repeat constructor; simpl; lia.
  - vm_compute. reflexivity.
  - lia.
  - vm_compute. discriminate.
  - destruct Hok as (phys & t' & alloc' & Hrun & Hphys & Hinv' & _).
    + right. discriminate.
    + exists phys, t', alloc'. split; [exact Hrun|].
      split; [exact Hphys | exact Hinv'].
Defined.

(** ** Copy-on-write writes *)

Lemma replace_block_Done bm t seq idx new_id blocks :
  tables t !! seq = Some blocks → 0 <= idx < Z.of_nat (length blocks) →
  replace_block bm t seq idx new_id
  = Done (set_tables t (<[seq := <[Z.to_nat idx := new_id]> blocks]> (tables t))).
Proof.
  intros Hseq Hidx. unfold replace_block. rewrite Hseq.
  rewrite vec_set_Done by lia.
  destruct bm; simpl; [|done].
  by destruct (Z.ltb_spec idx (Z.of_nat (length blocks))); [|lia].
Qed.

(** X12: [replace_block(seq, idx, new)] rewrites one entry of one
    sequence.  For a present sequence and an index inside its list it
    returns; positions of logical block [idx] then resolve into the new
    block, every other position of the sequence and every position of
    every other sequence resolves as before.  On an absent sequence or an
    index past the list it stops on an assertion when assertions are
    compiled in and is undefined otherwise. *)
Theorem replace_block_rewrites_one (bm : build) (t : llama_block_table)
    (seq idx new_id : Z) :
  (tables t !! seq = None →
     replace_block Debug t seq idx new_id = AssertFail ∧
     replace_block Release t seq idx new_id = Undefined) ∧
  (∀ blocks,
     tables t !! seq = Some blocks → 0 <= idx →
     (Z.of_nat (length blocks) <= idx →
        replace_block Debug t seq idx new_id = AssertFail ∧
        replace_block Release t seq idx new_id = Undefined) ∧
     (idx < Z.of_nat (length blocks) →
      ∃ t',
        replace_block bm t seq idx new_id = Done t' ∧
        tables t' !! seq = Some (<[Z.to_nat idx := new_id]> blocks) ∧
        tbl_block_size t' = tbl_block_size t ∧
        (∀ s pos, s ≠ seq →
           logical_to_physical bm t' s pos = logical_to_physical bm t s pos) ∧
        (∀ pos, 0 < tbl_block_size t → 0 <= pos < 2 ^ 31 →
           pos / tbl_block_size t ≠ idx →
           logical_to_physical bm t' seq pos = logical_to_physical bm t seq pos) ∧
        (∀ pos, 0 < tbl_block_size t → 0 <= pos < 2 ^ 31 →
           pos / tbl_block_size t = idx →
           logical_to_physical bm t' seq pos
           = Done (wrap32 (new_id * tbl_block_size t
                           + pos mod tbl_block_size t))))).
Proof.
  split.
  - intros Hnone. unfold replace_block. rewrite Hnone. by split.
  - intros blocks Hseq Hidx0. split.
    + intros Hge. unfold replace_block, vec_set. rewrite Hseq. simpl.
      destruct (Z.ltb_spec idx (Z.of_nat (length blocks))); [lia|].
      split; [done|].
      destruct (Z.ltb_spec idx 0); [done|].
      by rewrite bool_decide_eq_false_2 by lia.
    + intros Hlt.
      eexists. split; [by apply replace_block_Done|]. simpl.
      split; [apply lookup_insert_eq|]. split; [done|].
      split.
      { intros s pos Hs. apply logical_to_physical_congr; [done|].
        simpl. by rewrite lookup_insert_ne. }
      split.
      * intros pos Hbs Hpos Hne.
        assert (Hq : 0 <= pos / tbl_block_size t) by (apply Z.div_pos; lia).
        rewrite (logical_to_physical_eval bm _ seq pos
                   (<[Z.to_nat idx := new_id]> blocks));
          [|done|simpl; apply lookup_insert_eq|done].
        rewrite (logical_to_physical_eval bm t seq pos blocks) by done.
        simpl. by rewrite list_lookup_insert_ne by lia.
      * intros pos Hbs Hpos Heq.
        rewrite (logical_to_physical_eval bm _ seq pos
                   (<[Z.to_nat idx := new_id]> blocks));
          [|done|simpl; apply lookup_insert_eq|done].
        simpl. rewrite Heq. by rewrite list_lookup_insert_eq by lia.
Qed.

Lemma replace_block_rewrites_one_witness :
  ∃ t',
    replace_block Debug (mk_table 32 {[ 0 := [5; 7] ]}) 0 1 9 = Done t' ∧
    logical_to_physical Debug t' 0 40 = Done 296 ∧
    logical_to_physical Debug t' 0 3
      = logical_to_physical Debug (mk_table 32 {[ 0 := [5; 7] ]}) 0 3.
Proof.
  destruct (proj2 (replace_block_rewrites_one Debug
                     (mk_table 32 {[ 0 := [5; 7] ]}) 0 1 9) [5; 7])
    as [_ Hok].
  - reflexivity.
  - lia.
  - destruct Hok as (t' & Hrun & _ & _ & _ & Hother & Hnew); [simpl; lia|].
    exists t'. split; [exact Hrun|]. split.
    + rewrite (Hnew 40); [reflexivity | simpl; lia | lia | reflexivity].
    + apply Hother; [simpl; lia | lia |]. vm_compute. discriminate.
Defined.

(** X13: a write after a fork stays private.  After [share(src, dst)]
    into a fresh [dst], replacing a block of [dst] leaves every
    translation of [src] exactly as it was before the fork, and changes
    the translation of [dst] only inside the replaced logical block. *)
Theorem cow_write_is_private (bm : build) (t : llama_block_table)
    (src dst idx new_id : Z) (alloc : llama_block_allocator)
    (blocks : list Z) :
  tables t !! src = Some blocks → tables t !! dst = None →
  shareable alloc blocks → 0 <= idx < Z.of_nat (length blocks) →
  ∃ t1 alloc1 t2,
    share bm t src dst alloc = Done (t1, alloc1) ∧
    replace_block bm t1 dst idx new_id = Done t2 ∧
    tables t2 !! src = Some blocks ∧
    tables t2 !! dst = Some (<[Z.to_nat idx := new_id]> blocks) ∧
    (∀ pos, logical_to_physical bm t2 src pos
            = logical_to_physical bm t src pos) ∧
    (∀ pos, 0 < tbl_block_size t → 0 <= pos < 2 ^ 31 →
            pos / tbl_block_size t ≠ idx →
            logical_to_physical bm t2 dst pos
            = logical_to_physical bm t src pos).
Proof.
  intros Hsrc Hdst Hs Hidx.
  assert (Hne : src ≠ dst) by (intros ->; congruence).
  destruct (share_Done bm t src dst alloc blocks Hsrc Hs)
    as (alloc1 & Hrun & _).
  set (t1 := set_tables t (<[dst := blocks]> (tables t))) in *.
  assert (Hd1 : tables t1 !! dst = Some blocks) by apply lookup_insert_eq.
  eexists t1, alloc1, _. split; [exact Hrun|].
  split; [by apply (replace_block_Done bm t1 dst idx new_id blocks)|].
  simpl. split; [by rewrite !lookup_insert_ne|].
  split; [apply lookup_insert_eq|]. split.
  - intros pos. apply logical_to_physical_congr; [done|].
    simpl. by rewrite !lookup_insert_ne.
  - intros pos Hbs Hpos Hq.
    assert (Hq0 : 0 <= pos / tbl_block_size t) by (apply Z.div_pos; lia).
    rewrite (logical_to_physical_eval bm _ dst pos
               (<[Z.to_nat idx := new_id]> blocks));
      [|done|simpl; apply lookup_insert_eq|done].
    rewrite (logical_to_physical_eval bm t src pos blocks) by done.
    simpl. by rewrite list_lookup_insert_ne by lia.
Qed.

Lemma cow_write_is_private_witness :
  ∃ t1 alloc1 t2,
    share Debug (mk_table 32 {[ 0 := [0; 1] ]}) 0 1
          (mk_allocator 32 4 [3; 2] [1; 1; 0; 0]) = Done (t1, alloc1) ∧
    replace_block Debug t1 1 1 2 = Done t2 ∧
    tables t2 !! 0 = Some [0; 1] ∧ tables t2 !! 1 = Some [0; 2].
Proof.
  destruct (cow_write_is_private Debug (mk_table 32 {[ 0 := [0; 1] ]}) 0 1 1 2
              (mk_allocator 32 4 [3; 2] [1; 1; 0; 0]) [0; 1])
    as (t1 & alloc1 & t2 & Hrun & Hrep & Hsrc & Hdst & _).
  - reflexivity.
  - reflexivity.
  - intros b Hb. simpl.
    assert (Hcases : b = 0 ∨ b = 1).
    { inversion Hb; subst; [by left|].
      match goal with H : _ ∈ [1] |- _ => inversion H; subst end;
        [by right|].
      match goal with H : _ ∈ [] |- _ => inversion H end. }
    destruct Hcases as [-> | ->]; (split; [lia|]); exists 1;
      (split; [reflexivity|]); (split; [lia|]); vm_compute; discriminate.
  - simpl. lia.
  - exists t1, alloc1, t2. split; [exact Hrun|]. split; [exact Hrep|].
    split; [exact Hsrc | exact Hdst].
Defined.

(** ** Context shift *)

Lemma lookup_erase_range (bl : list Z) (s e i : nat) :
  (s <= e <= length bl)%nat →
  (take s bl ++ drop e bl) !! i
  = if decide (i < s)%nat then bl !! i else bl !! (i + (e - s))%nat.
Proof.
  intros Hse. destruct (decide (i < s)%nat).
  - rewrite lookup_app_l by (rewrite length_take; lia).
    by apply lookup_take_lt.
  - rewrite lookup_app_r by (rewrite length_take; lia).
    rewrite length_take, lookup_drop. f_equal. lia.
Qed.

(** X14: [remove_blocks_range] as a context shift.  On an absent
    sequence it changes nothing.  On a present sequence, when
    [pos_end + block_size - 1] fits a [uint32_t] and the covered blocks
    can be released, with [s = pos_start / block_size] and
    [e = min (ceil (pos_end / block_size)) (number of blocks)]: if
    [e <= s] nothing changes; otherwise the call returns, the allocator
    invariant still holds, the list has [e - s] entries fewer, every
    position below block [s] resolves as before, and every position from
    block [s] on resolves to what the position [(e - s) * block_size]
    further on resolved to before.  No other sequence is touched. *)
Theorem remove_blocks_range_shifts (bm : build) (t : llama_block_table)
    (seq pos_start pos_end : Z) (alloc : llama_block_allocator) :
  (tables t !! seq = None →
     remove_blocks_range bm t seq pos_start pos_end alloc = Done (t, alloc)) ∧
  (∀ blocks,
     tables t !! seq = Some blocks →
     0 < tbl_block_size t → 0 <= pos_start → 0 <= pos_end →
     pos_end + tbl_block_size t - 1 < 2 ^ 32 →
     Z.of_nat (length blocks) < 2 ^ 32 →
     let s := pos_start / tbl_block_size t in
     let e := Z.min ((pos_end + tbl_block_size t - 1) / tbl_block_size t)
                    (Z.of_nat (length blocks)) in
     (e <= s →
        remove_blocks_range bm t seq pos_start pos_end alloc = Done (t, alloc)) ∧
     (s < e → alloc_inv alloc →
      releasable alloc (take (Z.to_nat (e - s)) (drop (Z.to_nat s) blocks)) →
      ∃ t' alloc',
        remove_blocks_range bm t seq pos_start pos_end alloc = Done (t', alloc') ∧
        alloc_inv alloc' ∧
        tables t' !! seq
          = Some (take (Z.to_nat s) blocks ++ drop (Z.to_nat e) blocks) ∧
        num_blocks_for t' seq = num_blocks_for t seq - (e - s) ∧
        (∀ s', s' ≠ seq → tables t' !! s' = tables t !! s') ∧
        (∀ b rc, 0 <= b → ref_count alloc !! Z.to_nat b = Some rc →
           ref_count alloc' !! Z.to_nat b
           = Some (rc - occ b (take (Z.to_nat (e - s))
                                    (drop (Z.to_nat s) blocks)))) ∧
        (∀ pos, 0 <= pos < 2 ^ 31 → pos / tbl_block_size t < s →
           logical_to_physical bm t' seq pos
           = logical_to_physical bm t seq pos) ∧
        (∀ pos, 0 <= pos → pos + (e - s) * tbl_block_size t < 2 ^ 31 →
           s <= pos / tbl_block_size t →
           logical_to_physical bm t' seq pos
           = logical_to_physical bm t seq
               (pos + (e - s) * tbl_block_size t)))).
Proof.
  split.
  - intros Hnone. unfold remove_blocks_range. by rewrite Hnone.
  - intros blocks Hseq Hbs Hps Hpe Hfit Hlen s e.
    pose proof (remove_blocks_range_in_range bm t seq pos_start pos_end
                  alloc blocks Hseq Hbs Hps Hpe Hfit Hlen) as Hrun.
    simpl in Hrun. fold s in Hrun. fold e in Hrun.
    assert (Hs0 : 0 <= s) by (apply Z.div_pos; lia).
    assert (Hele : e <= Z.of_nat (length blocks)) by apply Z.le_min_r.
    split.
    + intros Hle. rewrite Hrun.
      by destruct (Z.leb_spec e s); [|lia].
    + intros Hlt Hinv Hrel.
      destruct (free_block_all_inv bm _ alloc Hinv Hrel)
        as (alloc' & Hfree & Hinv' & _ & _ & _ & Hcnt).
      rewrite Hrun. destruct (Z.leb_spec e s); [lia|].
      rewrite Hfree. simpl.
      eexists _, alloc'. split; [reflexivity|]. simpl.
      split; [done|]. split; [apply lookup_insert_eq|].
      split.
      { unfold num_blocks_for. simpl. rewrite lookup_insert_eq, Hseq.
        rewrite length_app, length_take, length_drop.
        rewrite !wrap32_small by (unfold is_u32; lia). lia. }
      split; [intros s' Hs'; by rewrite lookup_insert_ne|].
      split; [intros b rc Hb Hrc; by rewrite Hcnt, Hrc|].
      assert (Hev : ∀ pos, 0 <= pos < 2 ^ 31 →
                logical_to_physical bm
                  (set_tables t
                     (<[seq := take (Z.to_nat s) blocks
                               ++ drop (Z.to_nat e) blocks]> (tables t)))
                  seq pos
                = match (take (Z.to_nat s) blocks ++ drop (Z.to_nat e) blocks)
                          !! Z.to_nat (pos / tbl_block_size t) with
                  | Some b => Done (wrap32 (b * tbl_block_size t
                                            + pos mod tbl_block_size t))
                  | None => match bm with
                            | Debug => AssertFail
                            | Release => Undefined
                            end
                  end).
      { intros pos Hpos.
        rewrite (logical_to_physical_eval bm _ seq pos
                   (take (Z.to_nat s) blocks ++ drop (Z.to_nat e) blocks));
          [reflexivity | exact Hbs | apply lookup_insert_eq | exact Hpos]. }
      split.
      * intros pos Hpos Hq.
        assert (Hq0 : 0 <= pos / tbl_block_size t) by (apply Z.div_pos; lia).
        rewrite Hev by done.
        rewrite (logical_to_physical_eval bm t seq pos blocks) by done.
        rewrite lookup_erase_range by lia.
        by rewrite decide_True by lia.
      * intros pos Hpos0 Hpos Hq.
        assert (Hq0 : 0 <= pos / tbl_block_size t) by (apply Z.div_pos; lia).
        assert (Hes : 0 <= (e - s) * tbl_block_size t) by nia.
        rewrite Hev by lia.
        rewrite (logical_to_physical_eval bm t seq _ blocks) by (done || lia).
        rewrite lookup_erase_range by lia.
        rewrite decide_False by lia.
        rewrite Z.div_add, Z.mod_add by lia.
        by replace (Z.to_nat (pos / tbl_block_size t + (e - s)))
          with (Z.to_nat (pos / tbl_block_size t)
                + (Z.to_nat e - Z.to_nat s))%nat by lia.
Qed.

Lemma remove_blocks_range_shifts_witness :
  ∃ t' alloc',
    remove_blocks_range Debug (mk_table 32 {[ 0 := [0; 1; 2; 3] ]}) 0 32 96
      (mk_allocator 32 8 [7; 6; 5; 4] [1; 1; 1; 1; 0; 0; 0; 0])
    = Done (t', alloc') ∧
    tables t' !! 0 = Some [0; 3] ∧ alloc_inv alloc' ∧
    logical_to_physical Debug t' 0 40
    = logical_to_physical Debug (mk_table 32 {[ 0 := [0; 1; 2; 3] ]}) 0 104.
Proof.
  assert (Hinv : alloc_inv (mk_allocator 32 8 [7; 6; 5; 4]
                                         [1; 1; 1; 1; 0; 0; 0; 0])).
  { destruct (construct_inv Debug 256 32
                (mk_allocator 32 8 [7; 6; 5; 4; 3; 2; 1; 0]
                              [0; 0; 0; 0; 0; 0; 0; 0]))
      as (H1 & H2 & H3);
      [unfold is_u32; lia | unfold is_u32; lia | lia | reflexivity |].
    destruct (allocate_n_pops Debug [3; 2; 1; 0] [7; 6; 5; 4]
                (mk_allocator 32 8 [7; 6; 5; 4; 3; 2; 1; 0]
                              [0; 0; 0; 0; 0; 0; 0; 0])
                (conj H1 (conj H2 H3)) eq_refl) as (a1 & Hn & _ & Hi1 & _).
    vm_compute in Hn. injection Hn as <-. exact Hi1. }
  destruct (proj2 (remove_blocks_range_shifts Debug
                     (mk_table 32 {[ 0 := [0; 1; 2; 3] ]}) 0 32 96
                     (mk_allocator 32 8 [7; 6; 5; 4] [1; 1; 1; 1; 0; 0; 0; 0]))
              [0; 1; 2; 3]) as [_ Hok].
  - reflexivity.
  - simpl. lia.
  - lia.
  - lia.
  - simpl. lia.
  - simpl. lia.
  - destruct Hok as (t' & alloc' & Hrun & Hinv' & Hseq & _ & _ & _ & _ & Hshift).
    + vm_compute. reflexivity.
    + exact Hinv.
    + intros b Hb. vm_compute in Hb.
      assert (Hcases : b = 1 ∨ b = 2).
      { inversion Hb; subst; [by left|].
        match goal with H : _ ∈ [2] |- _ => inversion H; subst end;
          [by right|].
        match goal with H : _ ∈ [] |- _ => inversion H end. }
      destruct Hcases as [-> | ->]; (split; [simpl; lia|]); exists 1;
        (split; [reflexivity|]); vm_compute; discriminate.
    + exists t', alloc'. split; [exact Hrun|]. split; [exact Hseq|].
      split; [exact Hinv'|].
      apply (Hshift 40); [lia | vm_compute; reflexivity | vm_compute; discriminate].
Defined.

(** ** Clearing the table *)

Lemma free_list_length a :
  alloc_inv a → length (free_list a) = zero_counts a.
Proof.
  intros Hinv. rewrite (free_list_perm a Hinv), length_fmap.
  apply (zero_index_count [] (ref_count a)).
Qed.

Lemma for_each_concat {A S} (body : S → A → outcome S) (ll : list (list A)) s :
  for_each (λ s' l, for_each body l s') ll s = for_each body (concat ll) s.
Proof.
  revert s. induction ll as [|l ll IH]; intros s; simpl; [done|].
  rewrite for_each_app. destruct (for_each body l s); simpl; auto.
Qed.

Lemma for_each_entries (bm : build) (order : list (Z * list Z)) a :
  for_each (λ a' (entry : Z * list Z), for_each (free_block bm) entry.2 a')
           order a
  = for_each (free_block bm) (concat (order.*2)) a.
Proof.
  rewrite <- for_each_concat. revert a.
  induction order as [|x order IH]; intros a; simpl; [done|].
  destruct (for_each (free_block bm) x.2 a); simpl; auto.
Qed.

Lemma occ_perm b l1 l2 : l1 ≡ₚ l2 → occ b l1 = occ b l2.
Proof.
  intros Hp. unfold occ. f_equal.
  induction Hp; simpl; repeat case_match; congruence.
Qed.

Lemma releasable_perm a l1 l2 : l1 ≡ₚ l2 → releasable a l1 → releasable a l2.
Proof.
  intros Hp Hrel b Hb. rewrite <- Hp in Hb.
  destruct (Hrel b Hb) as (Hr & rc & Hrc & Hocc).
  split; [done|]. exists rc. split; [done|].
  by rewrite <- (occ_perm b l1 l2 Hp).
Qed.

Lemma concat_perm {A} (l1 l2 : list (list A)) :
  l1 ≡ₚ l2 → concat l1 ≡ₚ concat l2.
Proof.
  induction 1; simpl.
  - done.
  - by f_equiv.
  - rewrite !app_assoc. f_equiv. apply Permutation_app_comm.
  - etrans; eauto.
Qed.

Lemma all_zero_counts (l : list Z) :
  (∀ i rc, l !! i = Some rc → rc = 0) →
  length (filter (λ rc, rc = 0) l) = length l.
Proof.
  induction l as [|x l IH]; intros H; [done|].
  rewrite filter_cons. rewrite decide_True by (apply (H 0%nat); done).
  simpl. f_equal. apply IH. intros i rc Hi. by apply (H (S i)).
Qed.

(** X15: [clear] hands back every reference the table holds, whatever
    order the map is walked in.  When the allocator invariant holds and
    every mapped block's count covers its mapping entries, each run
    returns, the table has no sequence left, the invariant still holds
    and every count has dropped by the number of mapping entries that
    named the block.  When the counts were exactly those numbers, the
    whole pool is free afterwards. *)
Theorem clear_releases_all (bm : build) (t : llama_block_table)
    (alloc : llama_block_allocator) :
  alloc_inv alloc →
  releasable alloc (mapped_blocks t) →
  (∃ r, clear bm t alloc r) ∧
  ∀ r, clear bm t alloc r →
    ∃ t' alloc',
      r = Done (t', alloc') ∧
      (∀ seq, has_seq t' seq = false ∧ capacity t' seq = 0
              ∧ num_blocks_for t' seq = 0) ∧
      tbl_block_size t' = tbl_block_size t ∧
      alloc_inv alloc' ∧
      total alloc' = total alloc ∧
      (∀ b rc, 0 <= b → ref_count alloc !! Z.to_nat b = Some rc →
         ref_count alloc' !! Z.to_nat b = Some (rc - occ b (mapped_blocks t))) ∧
      ((∀ b rc, 0 <= b → ref_count alloc !! Z.to_nat b = Some rc →
          rc = occ b (mapped_blocks t)) →
       num_free alloc' = total alloc' ∧
       can_allocate alloc' (total alloc') = true).
Proof.
  intros Hinv Hrel. split.
  { exists (clear_in_order bm (map_to_list (tables t)) t alloc).
    by exists (map_to_list (tables t)). }
  intros r (order & Hperm & ->).
  assert (Hp : concat (order.*2) ≡ₚ mapped_blocks t).
  { unfold mapped_blocks. apply concat_perm. by rewrite Hperm. }
  assert (Hrel' : releasable alloc (concat (order.*2))).
  { by apply (releasable_perm alloc (mapped_blocks t)). }
  destruct (free_block_all_inv bm _ alloc Hinv Hrel')
    as (alloc' & Hfree & Hinv' & Hnb & _ & _ & Hcnt).
  unfold clear_in_order. rewrite for_each_entries, Hfree. simpl.
  eexists _, alloc'. split; [reflexivity|].
  split.
  { intros seq. unfold has_seq, capacity, num_blocks_for. simpl.
    rewrite lookup_empty. split; [|done].
    apply bool_decide_eq_false. by intros [? ?]. }
  split; [done|]. split; [done|]. split; [done|].
  assert (Hcnt' : ∀ b rc, 0 <= b → ref_count alloc !! Z.to_nat b = Some rc →
            ref_count alloc' !! Z.to_nat b = Some (rc - occ b (mapped_blocks t))).
  { intros b rc Hb Hrc. rewrite Hcnt, Hrc by done. simpl.
    by rewrite (occ_perm b _ _ Hp). }
  split; [exact Hcnt'|].
  intros Hexact.
  pose proof Hinv as ([Hnbu Hlen _ _] & _ & _).
  pose proof Hinv' as ([Hnbu' Hlen' _ _] & _ & _).
  assert (Hall : length (free_list alloc') = Z.to_nat (num_blocks alloc')).
  { rewrite (free_list_length alloc' Hinv'). unfold zero_counts.
    rewrite all_zero_counts; [lia|].
    intros i rc' Hi.
    assert (Hi' : (i < length (ref_count alloc))%nat).
    { apply lookup_lt_Some in Hi. lia. }
    destruct (lookup_lt_is_Some_2 _ _ Hi') as [rc Hrc].
    specialize (Hcnt' (Z.of_nat i) rc ltac:(lia)).
    rewrite Nat2Z.id in Hcnt'. rewrite (Hcnt' Hrc) in Hi.
    injection Hi as <-.
    rewrite <- (Hexact (Z.of_nat i) rc); [lia | lia | by rewrite Nat2Z.id]. }
  unfold num_free, can_allocate, total. rewrite Hall.
  unfold is_u32 in Hnbu'.
  rewrite Z2Nat.id by lia.
  rewrite wrap32_small by (unfold is_u32; lia).
  split; [done|]. apply Z.leb_refl.
Qed.


Lemma clear_releases_all_witness :
  ∃ r, clear Debug (mk_table 32 {[ 0 := [0; 1] ]})
             (mk_allocator 32 4 [3; 2] [1; 1; 0; 0]) r ∧
    ∃ t' alloc', r = Done (t', alloc') ∧ alloc_inv alloc' ∧
                 num_free alloc' = 4.
Proof.
  assert (Hinv : alloc_inv (mk_allocator 32 4 [3; 2] [1; 1; 0; 0])).
  { destruct (construct_inv Debug 128 32
                (mk_allocator 32 4 [3; 2; 1; 0] [0; 0; 0; 0]))
      as (H1 & H2 & H3);
      [unfold is_u32; lia | unfold is_u32; lia | lia | reflexivity |].
    destruct (allocate_n_pops Debug [1; 0] [3; 2]
                (mk_allocator 32 4 [3; 2; 1; 0] [0; 0; 0; 0])
                (conj H1 (conj H2 H3)) eq_refl) as (a1 & Hn & _ & Hi1 & _).
    vm_compute in Hn. injection Hn as <-. exact Hi1. }
  assert (Hrel : releasable (mk_allocator 32 4 [3; 2] [1; 1; 0; 0])
                   (mapped_blocks (mk_table 32 {[ 0 := [0; 1] ]}))).
  { intros b Hb. vm_compute in Hb.
    assert (Hcases : b = 0 ∨ b = 1).
    { inversion Hb; subst; [by left|].
      match goal with H : _ ∈ [1] |- _ => inversion H; subst end;
        [by right|].
      match goal with H : _ ∈ [] |- _ => inversion H end. }
    destruct Hcases as [-> | ->]; (split; [simpl; lia|]); exists 1;
      (split; [reflexivity|]); vm_compute; discriminate. }
  destruct (clear_releases_all Debug _ _ Hinv Hrel) as [[r Hr] Hall].
  exists r. split; [exact Hr|].
  destruct (Hall r Hr)
    as (t' & alloc' & Hrun & _ & _ & Hinv' & Htot & _ & Hfull).
  exists t', alloc'. split; [exact Hrun|]. split; [exact Hinv'|].
  destruct Hfull as [Hnf _].
  - intros b rc Hb Hrc.
    assert (Hcases : b = 0 ∨ b = 1 ∨ b = 2 ∨ b = 3 ∨ 4 <= b) by lia.
    destruct Hcases as [-> | [-> | [-> | [-> | Hge]]]];
      try (vm_compute in Hrc; injection Hrc as <-; vm_compute; reflexivity).
    apply lookup_lt_Some in Hrc. simpl in Hrc. lia.
  - rewrite Hnf, Htot. reflexivity.
Defined.

(** ** The window as the current layer advances *)

Lemma get_window_range_clamp w current_il :
  enabled w = true → is_i32 (n_layer w) →
  - 2 ^ 31 <= current_il - n_window w / 2 →
  current_il - n_window w / 2 + n_window w < 2 ^ 31 →
  get_window_range w current_il =
  Done (Z.max 0 (Z.min (current_il - n_window w / 2) (n_layer w - n_window w)),
        Z.max 0 (Z.min (current_il - n_window w / 2) (n_layer w - n_window w))
        + n_window w).
Proof.
  intros Hen Hnl Hlo Hfit. unfold get_window_range. rewrite Hen. simpl.
  apply enabled_true in Hen. unfold is_i32 in Hnl.
  rewrite Z.quot_div_nonneg by lia.
  assert (Hhalf : 0 <= n_window w / 2 <= n_window w).
  { split; [apply Z.div_pos; lia|]. apply Z.div_le_upper_bound; lia. }
  rewrite (i32_Done (current_il - n_window w / 2)) by (unfold is_i32; lia).
  simpl. rewrite i32_Done by (unfold is_i32; lia). simpl.
  destruct (Z.ltb_spec (current_il - n_window w / 2) 0) as [Hneg|Hpos]; simpl.
  - destruct (Z.ltb_spec (n_layer w) (Z.min (n_window w) (n_layer w))); [lia|].
    f_equal. f_equal; lia.
  - destruct (Z.ltb_spec (n_layer w) (current_il - n_window w / 2 + n_window w)).
    + rewrite i32_Done by (unfold is_i32; lia). simpl. f_equal. f_equal; lia.
    + f_equal. f_equal; lia.
Qed.

(** X16: an enabled window slides with the current layer.  For every
    argument between [-2^30] and [2^30], layer index or not,
    [get_window_range] returns [n_window] consecutive layers inside
    [[0, n_layer)]: the first [n_window] layers for an argument up to
    [n_window / 2], the last [n_window] for an argument from
    [n_layer - n_window + n_window / 2] on.  The window never moves
    backwards when the argument grows, and moves by at most the amount the
    argument grew by, so advancing one layer brings in at most one new
    layer.  With [n_window >= 2] the arguments [INT32_MAX] and
    [INT32_MIN] overflow the [int32_t] arithmetic. *)
Theorem get_window_range_slides (w : llama_layer_window) :
  enabled w = true → is_i32 (n_layer w) →
  (∀ il, - 2 ^ 30 <= il < 2 ^ 30 →
     ∃ s e,
       get_window_range w il = Done (s, e) ∧
       0 <= s ∧ e = s + n_window w ∧ e <= n_layer w ∧
       (il <= n_window w / 2 → s = 0) ∧
       (n_layer w - n_window w + n_window w / 2 <= il → e = n_layer w) ∧
       (∀ il', il <= il' < 2 ^ 30 →
          ∃ s' e', get_window_range w il' = Done (s', e') ∧
                   s <= s' <= s + (il' - il))) ∧
  (2 <= n_window w →
     get_window_range w (2 ^ 31 - 1) = Undefined ∧
     get_window_range w (- 2 ^ 31) = Undefined).
Proof.
  intros Hen Hnl.
  pose proof (proj1 (enabled_true w) Hen) as Hw. unfold is_i32 in Hnl.
  assert (Hhalf : 0 <= n_window w / 2 ∧ 2 * (n_window w / 2) <= n_window w).
  { split; [apply Z.div_pos; lia|]. apply Z.mul_div_le. lia. }
  assert (Hhalf' : n_window w < 2 * (n_window w / 2) + 2).
  { pose proof (Z.mul_succ_div_gt (n_window w) 2). lia. }
  assert (Hrun : ∀ il, - 2 ^ 30 <= il < 2 ^ 30 →
            get_window_range w il =
            Done (Z.max 0 (Z.min (il - n_window w / 2) (n_layer w - n_window w)),
                  Z.max 0 (Z.min (il - n_window w / 2) (n_layer w - n_window w))
                  + n_window w)).
  { intros il Hil. apply get_window_range_clamp; try done; lia. }
  split.
  - intros il Hil. eexists _, _. split; [by apply Hrun|].
    split; [lia|]. split; [done|]. split; [lia|]. split; [lia|].
    split; [lia|].
    intros il' Hil'. eexists _, _. split; [apply Hrun; lia|]. lia.
  - intros H2. unfold get_window_range. rewrite Hen. simpl.
    rewrite Z.quot_div_nonneg by lia.
    assert (1 <= n_window w / 2) by (apply Z.div_le_lower_bound; lia).
    split.
    + rewrite (i32_Done (2 ^ 31 - 1 - n_window w / 2)) by (unfold is_i32; lia).
      simpl. unfold i32 at 1.
      destruct (Z.ltb_spec (2 ^ 31 - 1 - n_window w / 2 + n_window w) (2 ^ 31));
        [lia|]. by rewrite andb_false_r.
    + unfold i32 at 1.
      by destruct (Z.leb_spec (- 2 ^ 31) (- 2 ^ 31 - n_window w / 2)); [lia|].
Qed.

Lemma get_window_range_slides_witness :
  ∃ s e, get_window_range (mk_window 40 8 [] 0 [0; 0]) 17 = Done (s, e) ∧
         e = s + 8 ∧
         ∃ s' e', get_window_range (mk_window 40 8 [] 0 [0; 0]) 18
                  = Done (s', e') ∧ s <= s' <= s + (18 - 17).
Proof.
  destruct (proj1 (get_window_range_slides (mk_window 40 8 [] 0 [0; 0])
                     eq_refl ltac:(unfold is_i32; simpl; lia))
              17 ltac:(lia))
    as (s & e & Hrun & _ & He & _ & _ & _ & Hnext).
  exists s, e. split; [exact Hrun|]. split; [exact He|].
  apply Hnext. lia.
Defined.

(** ** Setting the window up *)

Lemma length_resize {A} (v : list A) n d : length (resize v n d) = n.
Proof. unfold resize. rewrite length_app, length_take, length_replicate. lia. Qed.

Lemma lookup_resize {A} (v : list A) n d i :
  (i < n)%nat → resize v n d !! i = Some (default d (v !! i)).
Proof.
  intros Hi. unfold resize. destruct (decide (i < length v)%nat) as [Hl|Hl].
  - rewrite lookup_app_l by (rewrite length_take; lia).
    rewrite lookup_take_lt by lia.
    destruct (lookup_lt_is_Some_2 v i Hl) as [x Hx]. by rewrite Hx.
  - rewrite lookup_app_r by (rewrite length_take; lia).
    rewrite (lookup_ge_None_2 v i) by lia. simpl.
    apply lookup_replicate_2. rewrite length_take. lia.
Qed.

Lemma init_loop (suf : list llama_layer_window_entry) :
  ∀ pre,
    for_each (λ es i, e <- vec_at es i ;; vec_set es i (init_entry e i))
             (seqZ (Z.of_nat (length pre)) (Z.of_nat (length suf)))
             (pre ++ suf)
    = Done (pre ++ imap (λ j e, init_entry e (Z.of_nat (length pre + j))) suf).
Proof.
  induction suf as [|x suf IH]; intros pre; [done|].
  simpl length. rewrite seqZ_cons by lia. simpl.
  rewrite (vec_at_Done _ _ x) by
    (try lia; rewrite Nat2Z.id, lookup_app_r, Nat.sub_diag by lia; done).
  simpl.
  rewrite vec_set_Done by
    (try lia; rewrite Nat2Z.id, length_app; simpl; lia).
  simpl. rewrite Nat2Z.id.
  replace (<[length pre := init_entry x (Z.of_nat (length pre))]> (pre ++ x :: suf))
    with ((pre ++ [init_entry x (Z.of_nat (length pre))]) ++ suf).
  2:{ rewrite <- app_assoc. simpl.
      rewrite insert_app_r_alt by lia. by rewrite Nat.sub_diag. }
  specialize (IH (pre ++ [init_entry x (Z.of_nat (length pre))])).
  rewrite length_app in IH. simpl in IH.
  replace (Z.succ (Z.of_nat (length pre)))
    with (Z.of_nat (length pre + 1)) by lia.
  replace (Z.pred (Z.of_nat (S (length suf)))) with (Z.of_nat (length suf))
    by lia.
  rewrite IH, <- app_assoc. simpl. rewrite Nat.add_0_r.
  do 3 f_equal. apply imap_ext. intros j e _. simpl. do 2 f_equal. lia.
Qed.

Lemma init_Done w n :
  0 <= n →
  init w n
  = Some (Done {| n_layer := n; n_window := n_window w;
                  entries := imap (λ j e, init_entry e (Z.of_nat j))
                               (resize (entries w) (Z.to_nat n) default_entry);
                  active_slot := active_slot w;
                  staging_gpu_buffer := staging_gpu_buffer w |}).
Proof.
  intros Hn. unfold init. destruct (Z.ltb_spec n 0); [lia|].
  pose proof (init_loop (resize (entries w) (Z.to_nat n) default_entry) [])
    as Hloop.
  simpl in Hloop. rewrite length_resize, Z2Nat.id in Hloop by lia.
  change (Z.of_nat 0) with 0 in Hloop. by rewrite Hloop.
Qed.


Lemma init_entries_lookup (es : list llama_layer_window_entry) (n : nat) i :
  (i < n)%nat →
  imap (λ j e, init_entry e (Z.of_nat j)) (resize es n default_entry) !! i
  = Some (init_entry (default default_entry (es !! i)) (Z.of_nat i)).
Proof.
  intros Hi. by rewrite list_lookup_imap, lookup_resize.
Qed.

(** X17: [init] resets the tracking of every layer.  A negative count
    makes [resize] throw.  For [n >= 0] the call returns a window of
    exactly [n] entries; entry [i] has index [i], the CPU tier, no transfer
    and no staging slot, and keeps the [weight_bytes] and [saved_ptrs] the
    entry at that index had before.  Afterwards no layer counts as being
    on the GPU, [swap_layer_to_cpu] restores nothing for any layer,
    whatever was staged before the call, indexing a layer outside
    [[0, n)] in either swap is undefined, and a second [init] with the same
    count changes nothing. *)
Theorem init_resets_tracking (w : llama_layer_window) (n : Z) :
  (n < 0 → init w n = None) ∧
  (0 <= n →
   ∃ w',
     init w n = Some (Done w') ∧
     n_layer w' = n ∧ n_window w' = n_window w ∧
     length (entries w') = Z.to_nat n ∧
     (∀ i, 0 <= i < n →
        ∃ e, entries w' !! Z.to_nat i = Some e ∧
             il e = i ∧ tier e = LLAMA_TIER_CPU ∧
             xfer_state e = LLAMA_XFER_IDLE ∧ staging_slot e = -1 ∧
             weight_bytes e
             = default 0 (weight_bytes <$> entries w !! Z.to_nat i) ∧
             saved_ptrs e
             = default [] (saved_ptrs <$> entries w !! Z.to_nat i)) ∧
     (∀ i, is_on_gpu w' i = Done false) ∧
     (∀ mem i layer, 0 <= i < n →
        swap_layer_to_cpu w' mem i layer = Done (w', mem)) ∧
     (∀ get_base mem i layer, i < 0 ∨ n <= i →
        swap_layer_to_gpu get_base w' mem i layer = Undefined ∧
        swap_layer_to_cpu w' mem i layer = Undefined) ∧
     init w' n = Some (Done w')).
Proof.
  split.
  { intros Hn. unfold init. by destruct (Z.ltb_spec n 0); [|lia]. }
  intros Hn. eexists. split; [by apply init_Done|]. simpl.
  set (es' := imap (λ j e, init_entry e (Z.of_nat j))
                (resize (entries w) (Z.to_nat n) default_entry)).
  assert (Hlen : length es' = Z.to_nat n).
  { unfold es'. by rewrite length_imap, length_resize. }
  assert (Hlk : ∀ i, 0 <= i < n →
            es' !! Z.to_nat i
            = Some (init_entry (default default_entry
                                  (entries w !! Z.to_nat i)) i)).
  { intros i Hi. unfold es'. rewrite init_entries_lookup by lia.
    by rewrite Z2Nat.id by lia. }
  split; [done|]. split; [done|]. split; [done|].
  split.
  { intros i Hi. eexists. split; [by apply Hlk|]. simpl.
    repeat (split; [done|]).
    by destruct (entries w !! Z.to_nat i). }
  split.
  { intros i. unfold is_on_gpu. simpl.
    destruct (Z.ltb_spec i 0); [done|].
    destruct (Z.leb_spec n i); [done|]. simpl.
    assert (Hi : 0 <= i < n) by lia.
    by rewrite (vec_at_Done _ _ _ (proj1 Hi) (Hlk i Hi)). }
  split.
  { intros mem i layer Hi. unfold swap_layer_to_cpu. simpl.
    rewrite (vec_at_Done _ _ _ (proj1 Hi) (Hlk i Hi)). done. }
  split.
  { intros get_base mem i layer Hi.
    assert (Hat : vec_at es' i = Undefined).
    { unfold vec_at. destruct (Z.ltb_spec i 0); [done|].
      rewrite lookup_ge_None_2; [done|lia]. }
    unfold swap_layer_to_gpu, swap_layer_to_cpu. simpl. by rewrite Hat. }
  rewrite init_Done by done. simpl. do 2 f_equal.
  f_equal. fold es'.
  apply list_eq. intros i.
  destruct (decide (i < Z.to_nat n)%nat) as [Hi|Hi].
  - rewrite init_entries_lookup by done.
    specialize (Hlk (Z.of_nat i) ltac:(lia)). rewrite Nat2Z.id in Hlk.
    by rewrite Hlk.
  - rewrite !lookup_ge_None_2; [done | lia |].
    rewrite length_imap, length_resize. lia.
Qed.

Lemma init_resets_tracking_witness :
  ∃ w', init (mk_window 2 1
                [mk_entry 0 LLAMA_TIER_CPU LLAMA_XFER_IDLE 64 0
                          [mk_saved 100 5000 7]]
                0 [8; 9]) 3 = Some (Done w') ∧
        length (entries w') = 3%nat ∧
        ∀ i, is_on_gpu w' i = Done false.
Proof.
  destruct (proj2 (init_resets_tracking
                     (mk_window 2 1
                        [mk_entry 0 LLAMA_TIER_CPU LLAMA_XFER_IDLE 64 0
                                  [mk_saved 100 5000 7]]
                        0 [8; 9]) 3))
    as (w' & Hrun & _ & _ & Hlen & _ & Hoff & _); [lia|].
  exists w'. split; [exact Hrun|]. split; [exact Hlen | exact Hoff].
Defined.

(** ** Layer sizes and the staging area *)

Lemma sum_nbytes_nonneg (mem : gmap Z ggml_tensor) ts :
  (∀ t, t ∈ ts → ∃ n, mem !! t = Some n ∧ 0 <= nbytes n) →
  0 <= sum_nbytes mem ts.
Proof.
  induction ts as [|x ts IH]; intros H; simpl; [lia|].
  destruct (H x) as (n & Hn & Hnn); [by left|]. rewrite Hn. simpl.
  assert (0 <= sum_nbytes mem ts) by (apply IH; intros t Ht; apply H; by right).
  unfold sum_nbytes in *. lia.
Qed.

Lemma sum_nbytes_app (mem : gmap Z ggml_tensor) l1 l2 :
  sum_nbytes mem (l1 ++ l2) = sum_nbytes mem l1 + sum_nbytes mem l2.
Proof.
  induction l1 as [|x l1 IH]; simpl; [done|].
  unfold sum_nbytes in *. rewrite IH. lia.
Qed.

Lemma sum_nbytes_ext (m1 m2 : gmap Z ggml_tensor) ts :
  (∀ t, t ∈ ts → nbytes <$> m1 !! t = nbytes <$> m2 !! t) →
  sum_nbytes m1 ts = sum_nbytes m2 ts.
Proof.
  induction ts as [|x ts IH]; intros H; simpl; [done|].
  rewrite (H x) by (by left). f_equal. apply IH. intros t Ht. apply H. by right.
Qed.

Lemma layer_total_exact (mem : gmap Z ggml_tensor) ts :
  ∀ acc,
    (∀ t, t ∈ ts → ∃ n, mem !! t = Some n ∧ 0 <= nbytes n) →
    0 <= acc → acc + sum_nbytes mem ts < 2 ^ 64 →
    for_each (add_nbytes mem) ts acc = Done (acc + sum_nbytes mem ts).
Proof.
  induction ts as [|x ts IH]; intros acc H Hacc Hfit; simpl.
  - f_equal. lia.
  - destruct (H x) as (n & Hn & Hnn); [by left|].
    assert (Hts : ∀ t, t ∈ ts → ∃ n, mem !! t = Some n ∧ 0 <= nbytes n)
      by (intros t Ht; apply H; by right).
    pose proof (sum_nbytes_nonneg mem ts Hts) as Hs.
    simpl in Hfit. rewrite Hn in Hfit. simpl in Hfit.
    fold (sum_nbytes mem ts) in Hfit.
    unfold add_nbytes at 1. rewrite Hn. simpl.
    rewrite wrap64_small by (unfold is_u64; lia).
    rewrite IH by (done || lia). f_equal. fold (sum_nbytes mem ts). lia.
Qed.

Lemma layer_total_returns (mem : gmap Z ggml_tensor) ts :
  ∀ acc, (∀ t, t ∈ ts → is_Some (mem !! t)) →
         ∃ tot, for_each (add_nbytes mem) ts acc = Done tot.
Proof.
  induction ts as [|x ts IH]; intros acc H; simpl; [by eexists|].
  destruct (H x) as [n Hn]; [by left|].
  unfold add_nbytes at 1. rewrite Hn. simpl. apply IH.
  intros t Ht. apply H. by right.
Qed.

Lemma max_layer_size_ge (es : list llama_layer_window_entry) e :
  e ∈ es → tier e = LLAMA_TIER_CPU → weight_bytes e <= max_layer_size es.
Proof.
  unfold max_layer_size.
  assert (Hmono : ∀ l m, m <= fold_left
            (λ m e, if tier_eqb (tier e) LLAMA_TIER_CPU
                    then Z.max m (weight_bytes e) else m) l m).
  { induction l as [|x l IH]; intros m; simpl; [lia|].
    destruct (tier_eqb (tier x) LLAMA_TIER_CPU);
      [etrans; [|apply IH]; lia | apply IH]. }
  generalize 0. induction es as [|x es IH]; intros m Hin Ht.
  - by apply elem_of_nil in Hin.
  - apply elem_of_cons in Hin as [->|Hin]; simpl.
    + rewrite Ht. simpl. etrans; [|apply Hmono]. lia.
    + by apply IH.
Qed.


Lemma compute_loop (mem : gmap Z ggml_tensor) (layers : list (list Z))
    (es : list llama_layer_window_entry) (k : nat) :
  (k <= length es)%nat → (k <= length layers)%nat →
  (∀ j l t, (j < k)%nat → layers !! j = Some l → t ∈ layer_tensors l →
            is_Some (mem !! t)) →
  ∃ es',
    for_each (λ es i,
                layer <- vec_at layers i ;;
                total <- for_each (add_nbytes mem) (layer_tensors layer) 0 ;;
                e <- vec_at es i ;;
                vec_set es i (set_weight_bytes e total))
             (seqZ 0 (Z.of_nat k)) es = Done es' ∧
    length es' = length es ∧
    (∀ j e, es !! j = Some e → (k <= j)%nat → es' !! j = Some e) ∧
    (∀ j e l, es !! j = Some e → (j < k)%nat → layers !! j = Some l →
       ∃ tot, for_each (add_nbytes mem) (layer_tensors l) 0 = Done tot ∧
              es' !! j = Some (set_weight_bytes e tot)).
Proof.
  induction k as [|k IH]; intros Hes Hly Hmem.
  - exists es. simpl. split; [done|]. split; [done|]. split; [done|]. lia.
  - destruct IH as (es1 & Hrun & Hlen & Hhi & Hlo); [lia | lia | |].
    { intros j l t Hj. apply Hmem. lia. }
    destruct (lookup_lt_is_Some_2 layers k) as [l Hl]; [lia|].
    destruct (lookup_lt_is_Some_2 es k) as [e He]; [lia|].
    destruct (layer_total_returns mem (layer_tensors l) 0) as [tot Htot].
    { intros t Ht. by apply (Hmem k l t); [lia| |]. }
    exists (<[k := set_weight_bytes e tot]> es1).
    split.
    { replace (Z.of_nat (S k)) with (Z.of_nat k + 1) by lia.
      rewrite seqZ_app by lia. rewrite for_each_app, Hrun. simpl.
      change (Z.of_nat 0) with 0. rewrite !Z.add_0_l.
      rewrite (vec_at_Done layers _ l) by (try lia; by rewrite Nat2Z.id).
      simpl. rewrite Htot. simpl.
      rewrite (vec_at_Done es1 _ e)
        by (try lia; rewrite Nat2Z.id; by apply Hhi).
      simpl. rewrite vec_set_Done by (try lia; rewrite Nat2Z.id; lia).
      by rewrite Nat2Z.id. }
    split; [by rewrite length_insert|].
    split.
    + intros j e' He' Hj. rewrite list_lookup_insert_ne by lia.
      apply Hhi; [done|lia].
    + intros j e' l' He' Hj Hl'. destruct (decide (j = k)) as [->|Hne].
      * rewrite He in He'. rewrite Hl in Hl'.
        injection He' as <-. injection Hl' as <-.
        exists tot. split; [done|]. apply list_lookup_insert_eq. lia.
      * rewrite list_lookup_insert_ne by done. apply (Hlo j e' l'); [done|lia|done].
Qed.

Lemma sum_nbytes_take (mem : gmap Z ggml_tensor) ts k t n :
  (∀ t, t ∈ ts → ∃ n, mem !! t = Some n ∧ 0 <= nbytes n) →
  ts !! k = Some t → mem !! t = Some n →
  0 <= sum_nbytes mem (take k ts) ∧
  sum_nbytes mem (take k ts) + nbytes n <= sum_nbytes mem ts.
Proof.
  intros H Hk Hn.
  rewrite <- (take_drop_middle ts k t Hk) at 3.
  rewrite sum_nbytes_app. simpl. rewrite Hn. simpl.
  fold (sum_nbytes mem (drop (S k) ts)).
  assert (0 <= sum_nbytes mem (take k ts)).
  { apply sum_nbytes_nonneg. intros t' Ht'. apply H.
    by apply (subseteq_take k ts). }
  assert (0 <= sum_nbytes mem (drop (S k) ts)).
  { apply sum_nbytes_nonneg. intros t' Ht'. apply H.
    by apply (subseteq_drop (S k) ts). }
  lia.
Qed.

Lemma last_field_exists (ts : list Z) t :
  t ∈ ts →
  ∃ k, ts !! k = Some t ∧ ∀ j, (k < j)%nat → ts !! j ≠ Some t.
Proof.
  induction ts as [|x ts IH]; intros Hin; [by apply elem_of_nil in Hin|].
  destruct (decide (t ∈ ts)) as [Hts|Hts].
  - destruct (IH Hts) as (k & Hk & Hlast). exists (S k). split; [done|].
    intros [|j] Hj; [lia|]. simpl. apply Hlast. lia.
  - apply elem_of_cons in Hin as [->|Hin]; [|done].
    exists 0%nat. split; [done|].
    intros [|j] Hj; [lia|]. simpl. intros Hx. apply Hts.
    by apply list_elem_of_lookup_2 in Hx.
Qed.

(** Where the staging loop leaves each tensor node: at the offset of the
    last field that names it. *)
Lemma stage_offsets base buf ts :
  ∀ (mem : gmap Z ggml_tensor) saved offset,
    (∀ t, t ∈ ts → ∃ n, mem !! t = Some n ∧ 0 <= nbytes n) →
    0 <= offset → offset + sum_nbytes mem ts < 2 ^ 64 →
    ∃ saved' mem',
      for_each (stage_tensor base buf) ts (saved, mem, offset)
        = Done (saved', mem', offset + sum_nbytes mem ts) ∧
      (∀ t, t ∉ ts → mem' !! t = mem !! t) ∧
      (∀ k t, ts !! k = Some t → (∀ j, (k < j)%nat → ts !! j ≠ Some t) →
         ∃ n, mem !! t = Some n ∧
              mem' !! t
              = Some (rebind n (base + (offset + sum_nbytes mem (take k ts)))
                             buf)).
Proof.
  induction ts as [|x ts IH]; intros mem saved offset Hin Hoff Hfit.
  - exists saved, mem. simpl. rewrite Z.add_0_r. by repeat split.
  - destruct (Hin x) as (n & Hn & Hnn); [by left|].
    assert (Hts : ∀ t, t ∈ ts → ∃ n, mem !! t = Some n ∧ 0 <= nbytes n)
      by (intros t Ht; apply Hin; by right).
    pose proof (sum_nbytes_nonneg mem ts Hts) as Hs.
    set (mem1 := <[x := rebind n (base + offset) buf]> mem).
    assert (Hnb : ∀ t, nbytes <$> mem1 !! t = nbytes <$> mem !! t).
    { intros t. unfold mem1. destruct (decide (t = x)) as [->|Hne].
      - by rewrite lookup_insert_eq, Hn.
      - by rewrite lookup_insert_ne. }
    assert (Hsame : ∀ l, sum_nbytes mem1 l = sum_nbytes mem l).
    { intros l. apply sum_nbytes_ext. intros t _. apply Hnb. }
    simpl in Hfit. rewrite Hn in Hfit. simpl in Hfit.
    fold (sum_nbytes mem ts) in Hfit.
    destruct (IH mem1 (saved ++ [{| tensor := x; orig_data := data n;
                                    orig_buffer := buffer n |}])
                 (offset + nbytes n))
      as (saved' & mem' & Hrun & Hout & Hat).
    { intros t Ht. destruct (Hts t Ht) as (n' & Hn' & Hnn').
      pose proof (Hnb t) as Ht1. rewrite Hn' in Ht1.
      destruct (mem1 !! t) as [n1|]; [|done].
      simpl in Ht1. injection Ht1 as Ht1.
      exists n1. split; [done | lia]. }
    { lia. }
    { rewrite Hsame. lia. }
    exists saved', mem'. split.
    { simpl. rewrite Hn. simpl. fold mem1.
      rewrite wrap64_small by (unfold is_u64; lia).
      rewrite Hrun. do 2 f_equal. rewrite Hsame.
      fold (sum_nbytes mem ts). lia. }
    split.
    { intros t Ht. apply not_elem_of_cons in Ht as [Htx Ht].
      rewrite (Hout t Ht). unfold mem1. by rewrite lookup_insert_ne. }
    intros k t Hk Hlast. destruct k as [|k]; simpl in Hk.
    + injection Hk as <-. exists n. split; [done|].
      assert (Hx : x ∉ ts).
      { intros Hx. apply list_elem_of_lookup_1 in Hx as [j Hj].
        by apply (Hlast (S j) ltac:(lia)). }
      rewrite (Hout x Hx). unfold mem1. rewrite lookup_insert_eq.
      simpl. do 3 f_equal. lia.
    + destruct (Hat k t Hk) as (n1 & Hn1 & Hm').
      { intros j Hj. apply (Hlast (S j)). lia. }
      destruct (Hts t) as (n0 & Hn0 & _);
        [by apply list_elem_of_lookup_2 in Hk|].
      exists n0. split; [done|]. rewrite Hm'.
      pose proof (Hnb t) as Ht1. rewrite Hn1, Hn0 in Ht1.
      simpl in Ht1. injection Ht1 as Ht1.
      unfold rebind. rewrite Ht1. do 3 f_equal.
      simpl. rewrite Hn. simpl. fold (sum_nbytes mem (take k ts)).
      rewrite Hsame. lia.
Qed.

Lemma cast_i32_small z : 0 <= z < 2 ^ 31 → cast_i32 z = z.
Proof. intros H. unfold cast_i32. rewrite Z.mod_small; lia. Qed.

(** X18: a staged layer lies inside the staging buffer.  Let the window
    have one entry per layer, and let [compute_layer_sizes] run over a
    model whose tensor nodes exist.  It returns, and the entry of a layer
    [i] whose field sizes add up below [2^64] gets exactly that sum (one
    term per non-null field, so a node named by two fields counts twice)
    as [weight_bytes], its other fields unchanged.  If the layer is
    CPU-tier, the size [allocate_staging_buffers] requests covers it, and
    [swap_layer_to_gpu] leaves each tensor node of the layer in the active
    staging buffer at the offset of the last field that names it, which is
    the sum of the sizes of the fields before that one: the node keeps its
    size, lies within [max_layer_size] bytes of the base, and two
    different nodes never overlap.  When the fields name pairwise distinct
    nodes this is a back-to-back layout in field order. *)
Theorem staged_layer_fits (get_base : Z → Z) (w : llama_layer_window)
    (mem : gmap Z ggml_tensor) (layers : list (list Z)) (i : Z)
    (layer : list Z) (entry : llama_layer_window_entry) (buf : Z) :
  length (entries w) = Z.to_nat (n_layer w) →
  Z.of_nat (length layers) < 2 ^ 31 →
  (∀ l t, l ∈ layers → t ∈ layer_tensors l → is_Some (mem !! t)) →
  0 <= i < n_layer w →
  layers !! Z.to_nat i = Some layer →
  entries w !! Z.to_nat i = Some entry →
  (∀ t, t ∈ layer_tensors layer → ∃ n, mem !! t = Some n ∧ 0 <= nbytes n) →
  sum_nbytes mem (layer_tensors layer) < 2 ^ 64 →
  tier entry = LLAMA_TIER_CPU → staging_slot entry < 0 →
  0 <= active_slot w →
  staging_gpu_buffer w !! Z.to_nat (active_slot w) = Some buf →
  ∃ w1 w2 mem2,
    compute_layer_sizes w mem layers = Done w1 ∧
    entries w1 !! Z.to_nat i
    = Some (set_weight_bytes entry (sum_nbytes mem (layer_tensors layer))) ∧
    sum_nbytes mem (layer_tensors layer) <= max_layer_size (entries w1) ∧
    swap_layer_to_gpu get_base w1 mem i layer = Done (w2, mem2) ∧
    (∀ k t, layer_tensors layer !! k = Some t →
       (∀ j, (k < j)%nat → layer_tensors layer !! j ≠ Some t) →
       ∃ n n', mem !! t = Some n ∧ mem2 !! t = Some n' ∧
               nbytes n' = nbytes n ∧ buffer n' = buf ∧
               data n' = get_base buf
                         + sum_nbytes mem (take k (layer_tensors layer)) ∧
               get_base buf <= data n' ∧
               data n' + nbytes n'
               <= get_base buf + max_layer_size (entries w1)) ∧
    (∀ t t' n n',
       t ≠ t' → t ∈ layer_tensors layer → t' ∈ layer_tensors layer →
       mem2 !! t = Some n → mem2 !! t' = Some n' →
       data n + nbytes n <= data n' ∨ data n' + nbytes n' <= data n) ∧
    (NoDup (layer_tensors layer) →
     ∀ k k' t t' n n',
       (k < k')%nat →
       layer_tensors layer !! k = Some t →
       layer_tensors layer !! k' = Some t' →
       mem2 !! t = Some n → mem2 !! t' = Some n' →
       data n = get_base buf
                + sum_nbytes mem (take k (layer_tensors layer)) ∧
       data n + nbytes n <= data n').
Proof.
  intros Hlen Hly Hmem Hi Hlayer Hentry Hnn Hfit Htier Hslot Hact Hbuf.
  set (ts := layer_tensors layer) in *.
  assert (Hil : (Z.to_nat i < length layers)%nat)
    by (by apply lookup_lt_Some in Hlayer).
  set (k := Z.to_nat (Z.min (n_layer w) (Z.of_nat (length layers)))).
  destruct (compute_loop mem layers (entries w) k) as (es1 & Hrun & Hlen1 & _ & Hlo);
    [unfold k; lia | unfold k; lia | |].
  { intros j l t _ Hl. apply Hmem. by apply list_elem_of_lookup_2 in Hl. }
  destruct (Hlo (Z.to_nat i) entry layer Hentry) as (tot & Htot & He1);
    [unfold k; lia | done |].
  fold ts in Htot.
  rewrite (layer_total_exact mem ts 0 Hnn) in Htot by lia.
  injection Htot as <-. rewrite Z.add_0_l in He1.
  set (e1 := set_weight_bytes entry (sum_nbytes mem ts)) in *.
  set (w1 := set_entries w es1).
  assert (Hmax : sum_nbytes mem ts <= max_layer_size es1).
  { apply (max_layer_size_ge es1 e1); [|done].
    by apply list_elem_of_lookup_2 in He1. }
  destruct (stage_offsets (get_base buf) buf ts mem [] 0 Hnn)
    as (saved' & mem2 & Hstage & _ & Hat); [lia | lia |].
  rewrite Z.add_0_l in Hstage.
  assert (Hplace : ∀ j t, ts !! j = Some t →
            (∀ j', (j < j')%nat → ts !! j' ≠ Some t) →
            ∃ n, mem !! t = Some n ∧ 0 <= nbytes n ∧
                 mem2 !! t
                 = Some (rebind n (get_base buf + sum_nbytes mem (take j ts))
                                buf)).
  { intros j t Hj Hlast. destruct (Hat j t Hj Hlast) as (n & Hn & Hm).
    exists n. split; [done|]. rewrite Z.add_0_l in Hm. split; [|done].
    destruct (Hnn t) as (n0 & Hn0 & Hnn0);
      [by apply list_elem_of_lookup_2 in Hj|].
    rewrite Hn in Hn0. by injection Hn0 as <-. }
  assert (Hordered : ∀ j j' t t' m,
            (j < j')%nat → ts !! j = Some t → ts !! j' = Some t' →
            mem !! t = Some m →
            get_base buf + sum_nbytes mem (take j ts) + nbytes m
            <= get_base buf + sum_nbytes mem (take j' ts)).
  { intros j j' t t' m Hjj Hj Hj' Hm.
    assert (Hjt : take j' ts !! j = Some t) by (by rewrite lookup_take_lt).
    destruct (sum_nbytes_take mem (take j' ts) j t m) as [_ Hend];
      [|done|done|].
    { intros t0 Ht0. apply Hnn. by apply (subseteq_take j' ts). }
    rewrite take_take in Hend.
    replace (j `min` j')%nat with j in Hend by lia. lia. }
  exists w1, (set_entries w1
                (<[Z.to_nat i := set_staging e1 (active_slot w) saved']> es1)),
         mem2.
  split.
  { unfold compute_layer_sizes.
    rewrite cast_i32_small by lia.
    rewrite <- (Z2Nat.id (Z.min _ _)) by lia. fold k. by rewrite Hrun. }
  split; [done|]. split; [done|]. split.
  { unfold swap_layer_to_gpu. simpl.
    rewrite (vec_at_Done es1 i e1) by (done || lia). simpl.
    rewrite Htier. simpl.
    destruct (Z.leb_spec 0 (staging_slot entry)); [lia|].
    rewrite (vec_at_Done _ _ buf) by done. simpl.
    fold ts. rewrite Hstage. simpl.
    rewrite vec_set_Done by lia. reflexivity. }
  split; [|split].
  - intros j t Hj Hlast. destruct (Hplace j t Hj Hlast) as (n & Hn & Hn0 & Hm).
    exists n, (rebind n (get_base buf + sum_nbytes mem (take j ts)) buf).
    split; [done|]. split; [done|]. simpl.
    destruct (sum_nbytes_take mem ts j t n Hnn Hj Hn) as [H0 Hend].
    repeat (split; [done || lia|]). lia.
  - intros t t' n n' Hne Ht Ht' Hn Hn'.
    destruct (last_field_exists ts t Ht) as (j & Hj & Hlast).
    destruct (last_field_exists ts t' Ht') as (j' & Hj' & Hlast').
    destruct (Hplace j t Hj Hlast) as (m & Hm & Hm0 & Hmm).
    destruct (Hplace j' t' Hj' Hlast') as (m' & Hm' & Hm0' & Hmm').
    rewrite Hmm in Hn. rewrite Hmm' in Hn'.
    injection Hn as <-. injection Hn' as <-. simpl.
    assert (Hjj : (j < j')%nat ∨ (j' < j)%nat).
    { destruct (decide (j = j')) as [->|]; [|lia].
      rewrite Hj in Hj'. by injection Hj'. }
    destruct Hjj as [Hjj|Hjj].
    + left. by apply (Hordered j j' t t' m).
    + right. by apply (Hordered j' j t' t m').
  - intros Hnd j j' t t' n n' Hjj Hj Hj' Hn Hn'.
    assert (Hall : ∀ a x, ts !! a = Some x →
              ∀ b, (a < b)%nat → ts !! b ≠ Some x).
    { intros a x Ha b Hab Hb.
      pose proof (NoDup_lookup ts a b x Hnd Ha Hb). lia. }
    destruct (Hplace j t Hj (Hall j t Hj)) as (m & Hm & Hm0 & Hmm).
    destruct (Hplace j' t' Hj' (Hall j' t' Hj')) as (m' & Hm' & Hm0' & Hmm').
    rewrite Hmm in Hn. rewrite Hmm' in Hn'.
    injection Hn as <-. injection Hn' as <-. simpl.
    split; [done|]. by apply (Hordered j j' t t' m).
Qed.

Lemma staged_layer_fits_witness :
  ∃ w1 w2 mem2,
    let w := mk_window 1 0
               [mk_entry 0 LLAMA_TIER_CPU LLAMA_XFER_IDLE 0 (-1) []]
               0 [9000; 9001] in
    let mem : gmap Z ggml_tensor :=
      <[100 := mk_tensor 5000 7 16]> {[ 104 := mk_tensor 6000 7 8 ]} in
    compute_layer_sizes w mem [[100; 0; 104; 100]] = Done w1 ∧
    entries w1 !! 0%nat
    = Some (mk_entry 0 LLAMA_TIER_CPU LLAMA_XFER_IDLE 40 (-1) []) ∧
    sum_nbytes mem (layer_tensors [100; 0; 104; 100])
    <= max_layer_size (entries w1) ∧
    swap_layer_to_gpu (λ b, b * 1000000) w1 mem 0 [100; 0; 104; 100]
    = Done (w2, mem2) ∧
    mem2 !! 100 = Some (mk_tensor 9000000024 9000 16) ∧
    mem2 !! 104 = Some (mk_tensor 9000000016 9000 8).
Proof.
  assert (Hts : ∀ t, t ∈ layer_tensors [100; 0; 104; 100] → t = 100 ∨ t = 104).
  { intros t Ht. vm_compute in Ht.
    inversion Ht; subst; [by left|].
    match goal with H : _ ∈ [104; 100] |- _ => inversion H; subst end;
      [by right|].
    match goal with H : _ ∈ [100] |- _ => inversion H; subst end;
      [by left|].
    match goal with H : _ ∈ [] |- _ => inversion H end. }
  destruct (staged_layer_fits (λ b, b * 1000000)
     (mk_window 1 0 [mk_entry 0 LLAMA_TIER_CPU LLAMA_XFER_IDLE 0 (-1) []]
        0 [9000; 9001])
     (<[100 := mk_tensor 5000 7 16]> {[ 104 := mk_tensor 6000 7 8 ]})
     [[100; 0; 104; 100]] 0 [100; 0; 104; 100]
     (mk_entry 0 LLAMA_TIER_CPU LLAMA_XFER_IDLE 0 (-1) []) 9000)
    as (w1 & w2 & mem2 & Hsz & He1 & Hmax & Hgpu & Hat & _).
  - reflexivity.
  - simpl. lia.
  - intros l t Hl Ht.
    assert (l = [100; 0; 104; 100]) as ->.
    { inversion Hl; subst; [done|].
      match goal with H : _ ∈ [] |- _ => inversion H end. }
    destruct (Hts t Ht) as [-> | ->]; by eexists.
  - simpl. lia.
  - reflexivity.
  - reflexivity.
  - intros t Ht.
    destruct (Hts t Ht) as [-> | ->]; eexists; (split; [reflexivity|]);
      simpl; lia.
  - vm_compute. reflexivity.
  - reflexivity.
  - simpl. lia.
  - simpl. lia.
  - reflexivity.
  - exists w1, w2, mem2. simpl.
    split; [exact Hsz|]. split; [exact He1|]. split; [exact Hmax|].
    split; [exact Hgpu|].
    split.
    + destruct (Hat 2%nat 100) as (n & n' & Hn & Hn' & Hnb & Hb & Hd & _).
      * reflexivity.
      * intros j Hj Hx.
        assert (Hge : (3 <= j)%nat) by lia.
        apply lookup_lt_Some in Hx. vm_compute in Hx. lia.
      * vm_compute in Hn. injection Hn as <-.
        rewrite Hn'. destruct n' as [d b nb]. simpl in *.
        vm_compute in Hd. by subst.
    + destruct (Hat 1%nat 104) as (n & n' & Hn & Hn' & Hnb & Hb & Hd & _).
      * reflexivity.
      * intros j Hj Hx.
        assert (Hcases : j = 2%nat ∨ (3 <= j)%nat) by lia.
        destruct Hcases as [-> | Hge]; [by vm_compute in Hx|].
        apply lookup_lt_Some in Hx. vm_compute in Hx. lia.
      * vm_compute in Hn. injection Hn as <-.
        rewrite Hn'. destruct n' as [d b nb]. simpl in *.
        vm_compute in Hd. by subst.
Defined.

(** ** Window size detection *)

Lemma scan_cpu_layers_Done (es : list llama_layer_window_entry) :
  Z.of_nat (length es) < 2 ^ 31 →
  scan_cpu_layers es = Done (max_layer_size es, count_cpu es).
Proof.
  intros Hlen. unfold scan_cpu_layers, max_layer_size, count_cpu.
  assert (H : ∀ m n, 0 <= n → n + Z.of_nat (length es) < 2 ^ 31 →
    for_each (λ (st : Z * Z) e,
                if tier_eqb (tier e) LLAMA_TIER_CPU
                then n_cpu <- i32 (st.2 + 1) ;;
                     Done (Z.max st.1 (weight_bytes e), n_cpu)
                else Done st) es (m, n)
    = Done (fold_left (λ m e, if tier_eqb (tier e) LLAMA_TIER_CPU
                              then Z.max m (weight_bytes e) else m) es m,
            n + Z.of_nat (length (filter
                  (λ e, tier_eqb (tier e) LLAMA_TIER_CPU = true) es)))).
  { clear Hlen. induction es as [|x es IH]; intros m n Hn Hfit; simpl.
    - f_equal. f_equal. lia.
    - simpl in Hfit. rewrite filter_cons.
      destruct (tier_eqb (tier x) LLAMA_TIER_CPU) eqn:Hx; simpl.
      + rewrite i32_Done by (unfold is_i32; lia). simpl.
        rewrite IH by lia. rewrite ?decide_True by done.
        simpl length. f_equal. f_equal. lia.
      + rewrite IH by lia. by rewrite ?decide_False by done. }
  rewrite H by lia. f_equal.
Qed.

Lemma max_layer_size_bounds (es : list llama_layer_window_entry) (B : Z) :
  0 < B → Forall (λ e, 0 <= weight_bytes e < B) es →
  0 <= max_layer_size es < B ∧
  (0 < max_layer_size es → 1 <= count_cpu es).
Proof.
  intros HB Hall. unfold max_layer_size, count_cpu.
  assert (H : ∀ m, 0 <= m < B →
    0 <= fold_left (λ m e, if tier_eqb (tier e) LLAMA_TIER_CPU
                           then Z.max m (weight_bytes e) else m) es m < B ∧
    (m < fold_left (λ m e, if tier_eqb (tier e) LLAMA_TIER_CPU
                           then Z.max m (weight_bytes e) else m) es m →
     (1 <= length (filter (λ e, tier_eqb (tier e) LLAMA_TIER_CPU = true) es))%nat)).
  { induction Hall as [|x es Hx Hall IH]; intros m Hm; simpl; [lia|].
    rewrite filter_cons.
    destruct (tier_eqb (tier x) LLAMA_TIER_CPU) eqn:Hxt.
    - rewrite ?decide_True by done. simpl.
      destruct (IH (Z.max m (weight_bytes x))) as [H1 _]; [lia|].
      split; [done | lia].
    - rewrite ?decide_False by done. by apply IH. }
  destruct (H 0) as [H1 H2]; [lia|]. split; [done|]. lia.
Qed.


Lemma wrap64_range z : 0 <= wrap64 z < 2 ^ 64.
Proof. unfold wrap64. apply Z.mod_pos_bound. lia. Qed.

(** X19: what [auto_detect_window] returns.  For [size_t] arguments and
    layer sizes below [2^63] the call returns, stores the value it returns
    as [n_window] and changes nothing else.  The value is 0 exactly when
    the free VRAM does not exceed the reserved amount or no CPU-tier layer
    has a size; otherwise it is
    [min (max 1 (int32_t)(available / (2 * max_layer))) n_cpu], hence
    between 1 and the number of CPU-tier layers.  When the quotient is at
    least 1 and fits an [int32_t], that many double-buffered slots fit the
    available VRAM; when the quotient is 0 the result is still 1 although
    one slot does not fit; when the quotient is in [[2^31, 2^32)] the cast
    is negative and the result is 1. *)
Theorem auto_detect_window_bounds (w : llama_layer_window)
    (free_vram kv_cache_size activation_size : Z) :
  is_u64 free_vram → is_u64 kv_cache_size → is_u64 activation_size →
  Forall (λ e, 0 <= weight_bytes e < 2 ^ 63) (entries w) →
  Z.of_nat (length (entries w)) < 2 ^ 31 →
  let reserved :=
    wrap64 (wrap64 (kv_cache_size + activation_size) + safety_margin) in
  let max_layer := max_layer_size (entries w) in
  let n_cpu := count_cpu (entries w) in
  ∃ r,
    auto_detect_window w free_vram kv_cache_size activation_size
    = Done (r, set_n_window w r) ∧
    0 <= r <= n_cpu ∧
    (kv_cache_size + activation_size + safety_margin < 2 ^ 64 →
     reserved = kv_cache_size + activation_size + safety_margin) ∧
    (r = 0 ↔ free_vram <= reserved ∨ max_layer = 0) ∧
    (reserved < free_vram → 0 < max_layer →
     let q := (free_vram - reserved) / (2 * max_layer) in
     r = Z.min (Z.max 1 (cast_i32 q)) n_cpu ∧
     (1 <= q < 2 ^ 31 → r * (2 * max_layer) <= free_vram - reserved) ∧
     (q = 0 → r = 1 ∧ free_vram - reserved < r * (2 * max_layer)) ∧
     (2 ^ 31 <= q < 2 ^ 32 → r = 1)).
Proof.
  intros Hfree Hkv Hact Hall Hlen reserved max_layer n_cpu.
  unfold is_u64 in *.
  assert (Hmargin : safety_margin = 268435456) by reflexivity.
  pose proof (wrap64_range (wrap64 (kv_cache_size + activation_size)
                            + safety_margin)) as Hres.
  fold reserved in Hres.
  destruct (max_layer_size_bounds (entries w) (2 ^ 63) ltac:(lia) Hall)
    as [Hmax Hcpu].
  fold max_layer in Hmax, Hcpu. fold n_cpu in Hcpu.
  assert (Hn0 : 0 <= n_cpu) by (unfold n_cpu, count_cpu; lia).
  assert (Hnowrap : kv_cache_size + activation_size + safety_margin < 2 ^ 64 →
                    reserved = kv_cache_size + activation_size + safety_margin).
  { intros H. unfold reserved.
    rewrite (wrap64_small (kv_cache_size + activation_size))
      by (unfold is_u64; lia).
    apply wrap64_small. unfold is_u64. lia. }
  unfold auto_detect_window. fold reserved.
  destruct (Z.leb_spec free_vram reserved) as [Hle|Hgt].
  { exists 0. split; [done|]. split; [lia|]. split; [done|].
    split; [split; [by left | done] | lia]. }
  rewrite scan_cpu_layers_Done by done. simpl.
  fold max_layer. fold n_cpu.
  destruct (Z.eqb_spec max_layer 0) as [Hz|Hnz]; simpl.
  { exists 0. split; [done|]. split; [lia|]. split; [done|].
    split; [split; [by right | done] | lia]. }
  destruct (Z.eqb_spec n_cpu 0) as [Hcz|Hcnz]; [lia|].
  rewrite (wrap64_small (2 * max_layer)) by (unfold is_u64; lia).
  destruct (Z.eqb_spec (2 * max_layer) 0) as [|_]; [lia|].
  rewrite (wrap64_small (free_vram - reserved)) by (unfold is_u64; lia).
  set (q := (free_vram - reserved) / (2 * max_layer)).
  assert (Hq : 0 <= q) by (apply Z.div_pos; lia).
  assert (Hqlo : q * (2 * max_layer) <= free_vram - reserved).
  { unfold q. rewrite Z.mul_comm. apply Z.mul_div_le. lia. }
  assert (Hqhi : free_vram - reserved < (q + 1) * (2 * max_layer)).
  { unfold q. pose proof (Z.mul_succ_div_gt (free_vram - reserved)
                            (2 * max_layer) ltac:(lia)). lia. }
  exists (Z.min (Z.max 1 (cast_i32 q)) n_cpu).
  split; [done|]. split; [lia|]. split; [done|].
  split; [lia|].
  intros _ _. split; [done|].
  split.
  { intros Hq1. rewrite cast_i32_small by lia.
    assert (Z.min (Z.max 1 q) n_cpu <= q) by lia. nia. }
  split.
  { intros Hq0. rewrite Hq0, cast_i32_small by lia.
    replace (Z.min (Z.max 1 0) n_cpu) with 1 by lia.
    split; [done|]. rewrite Hq0 in Hqhi. lia. }
  intros Hbig.
  assert (Hc : cast_i32 q = q - 2 ^ 32).
  { unfold cast_i32.
    replace (q + 2 ^ 31) with (q - 2 ^ 31 + 1 * 2 ^ 32) by lia.
    rewrite Z.mod_add by lia. rewrite Z.mod_small by lia. lia. }
  rewrite Hc. lia.
Qed.

Lemma auto_detect_window_bounds_witness :
  ∃ r,
    let w := mk_window 3 0
               [mk_entry 0 LLAMA_TIER_CPU LLAMA_XFER_IDLE 1000 (-1) [];
                mk_entry 1 LLAMA_TIER_GPU LLAMA_XFER_IDLE 5000 (-1) [];
                mk_entry 2 LLAMA_TIER_CPU LLAMA_XFER_IDLE 3000 (-1) []]
               0 [0; 0] in
    auto_detect_window w 268465456 0 0 = Done (r, set_n_window w r) ∧
    0 <= r <= 2.
Proof.
  destruct (auto_detect_window_bounds
              (mk_window 3 0
                 [mk_entry 0 LLAMA_TIER_CPU LLAMA_XFER_IDLE 1000 (-1) [];
                  mk_entry 1 LLAMA_TIER_GPU LLAMA_XFER_IDLE 5000 (-1) [];
                  mk_entry 2 LLAMA_TIER_CPU LLAMA_XFER_IDLE 3000 (-1) []]
                 0 [0; 0])
              268465456 0 0) as (r & Hrun & Hr & _).
  - unfold is_u64. lia.
  - unfold is_u64. lia.
  - unfold is_u64. lia.
  - repeat constructor; simpl; lia.
  - simpl. lia.
  - exists r. split; [exact Hrun | exact Hr].
Defined.

(** ** Tier assignment *)

Lemma assign_tier_Done (st : tier_state) (i : Z) e :
  0 <= i → ts_entries st !! Z.to_nat i = Some e →
  0 <= weight_bytes e →
  0 <= ts_gpu_budget st < 2 ^ 64 → 0 <= ts_cpu_budget st < 2 ^ 64 →
  0 <= ts_n_gpu_static st < 2 ^ 31 - 1 → 0 <= ts_n_cpu st < 2 ^ 31 - 1 →
  0 <= ts_n_disk st < 2 ^ 31 - 1 →
  let t := greedy_tier (ts_gpu_budget st) (ts_cpu_budget st) (weight_bytes e) in
  assign_tier st i
  = Done (mk_tier_state
            (<[Z.to_nat i := set_tier e t]> (ts_entries st))
            (ts_gpu_budget st
             - (if tier_eqb t LLAMA_TIER_GPU then weight_bytes e else 0))
            (ts_cpu_budget st
             - (if tier_eqb t LLAMA_TIER_CPU then weight_bytes e else 0))
            (ts_n_gpu_static st + (if tier_eqb t LLAMA_TIER_GPU then 1 else 0))
            (ts_n_cpu st + (if tier_eqb t LLAMA_TIER_CPU then 1 else 0))
            (ts_n_disk st + (if tier_eqb t LLAMA_TIER_DISK then 1 else 0))).
Proof.
  intros Hi He Hwb Hgb Hcb Hng Hnc Hnd t.
  assert (Hlen : (Z.to_nat i < length (ts_entries st))%nat)
    by (by apply lookup_lt_Some in He).
  unfold assign_tier. rewrite (vec_at_Done _ _ _ Hi He). simpl.
  rewrite !(vec_set_Done _ _ _ Hi Hlen). simpl.
  subst t. unfold greedy_tier.
  destruct (Z.leb_spec (weight_bytes e) (ts_gpu_budget st)); simpl.
  - rewrite i32_Done by (unfold is_i32; lia). simpl.
    rewrite wrap64_small by (unfold is_u64; lia).
    by rewrite !Z.sub_0_r, !Z.add_0_r.
  - destruct (Z.leb_spec (weight_bytes e) (ts_cpu_budget st)); simpl.
    + rewrite i32_Done by (unfold is_i32; lia). simpl.
      rewrite wrap64_small by (unfold is_u64; lia).
      by rewrite !Z.sub_0_r, !Z.add_0_r.
    + rewrite i32_Done by (unfold is_i32; lia). simpl.
      by rewrite !Z.sub_0_r, !Z.add_0_r.
Qed.

Lemma tier_bytes_nonneg t es :
  Forall (λ e, 0 <= weight_bytes e) es → 0 <= tier_bytes t es.
Proof.
  induction 1 as [|x es Hx _ IH]; simpl; [lia|].
  fold (tier_bytes t es). destruct (tier_eqb (tier x) t); lia.
Qed.

Lemma count_tier_total es :
  count_tier LLAMA_TIER_GPU es + count_tier LLAMA_TIER_CPU es
  + count_tier LLAMA_TIER_DISK es = Z.of_nat (length es) ∧
  0 <= count_tier LLAMA_TIER_GPU es ∧ 0 <= count_tier LLAMA_TIER_CPU es ∧
  0 <= count_tier LLAMA_TIER_DISK es.
Proof.
  induction es as [|x es IH]; simpl; [lia|].
  fold (count_tier LLAMA_TIER_GPU es) (count_tier LLAMA_TIER_CPU es)
       (count_tier LLAMA_TIER_DISK es).
  destruct (tier x); simpl; lia.
Qed.

Lemma greedy_tier_budget gb cb wb :
  0 <= wb →
  (if tier_eqb (greedy_tier gb cb wb) LLAMA_TIER_GPU then wb else 0) <= Z.max 0 gb ∧
  (if tier_eqb (greedy_tier gb cb wb) LLAMA_TIER_CPU then wb else 0) <= Z.max 0 cb.
Proof.
  intros Hwb. unfold greedy_tier.
  destruct (Z.leb_spec wb gb); simpl; [lia|].
  destruct (Z.leb_spec wb cb); simpl; lia.
Qed.


Lemma tiers_loop (es : list llama_layer_window_entry) (gb0 cb0 : Z) (m : nat) :
  Z.of_nat (length es) < 2 ^ 31 →
  Forall (λ e, 0 <= weight_bytes e) es →
  0 <= gb0 < 2 ^ 64 → 0 <= cb0 < 2 ^ 64 →
  (m <= length es)%nat →
  ∃ st,
    for_each assign_tier
      (reverse (seqZ (Z.of_nat (length es - m)) (Z.of_nat m)))
      (mk_tier_state es gb0 cb0 0 0 0) = Done st ∧
    length (ts_entries st) = length es ∧
    (∀ j, (j < length es - m)%nat → ts_entries st !! j = es !! j) ∧
    (∀ j e, (length es - m <= j)%nat → es !! j = Some e →
       ts_entries st !! j
       = Some (set_tier e
                 (greedy_tier
                    (gb0 - tier_bytes LLAMA_TIER_GPU
                             (drop (S j) (ts_entries st)))
                    (cb0 - tier_bytes LLAMA_TIER_CPU
                             (drop (S j) (ts_entries st)))
                    (weight_bytes e)))) ∧
    ts_gpu_budget st
    = gb0 - tier_bytes LLAMA_TIER_GPU (drop (length es - m) (ts_entries st)) ∧
    ts_cpu_budget st
    = cb0 - tier_bytes LLAMA_TIER_CPU (drop (length es - m) (ts_entries st)) ∧
    0 <= ts_gpu_budget st ∧ 0 <= ts_cpu_budget st ∧
    ts_n_gpu_static st
    = count_tier LLAMA_TIER_GPU (drop (length es - m) (ts_entries st)) ∧
    ts_n_cpu st
    = count_tier LLAMA_TIER_CPU (drop (length es - m) (ts_entries st)) ∧
    ts_n_disk st
    = count_tier LLAMA_TIER_DISK (drop (length es - m) (ts_entries st)) ∧
    Forall (λ e, 0 <= weight_bytes e) (ts_entries st).
Proof.
  intros Hn Hall Hgb Hcb. induction m as [|m IH]; intros Hm.
  - exists (mk_tier_state es gb0 cb0 0 0 0). simpl.
    rewrite Nat.sub_0_r, drop_all. simpl.
    split; [done|]. split; [done|]. split; [done|].
    split.
    { intros j e Hj He. apply lookup_lt_Some in He. lia. }
    repeat (split; [done || lia|]). done.
  - destruct IH as (st & Hrun & Hlen & Hlow & Hhigh & Hg & Hc & Hg0 & Hc0
                    & Hng & Hnc & Hnd & Hall'); [lia|].
    set (k := (length es - S m)%nat).
    assert (Hk : (length es - m = S k)%nat) by (unfold k; lia).
    rewrite Hk in *.
    destruct (lookup_lt_is_Some_2 es k) as [e He]; [lia|].
    assert (Hest : ts_entries st !! k = Some e)
      by (rewrite Hlow by lia; done).
    assert (Hwb : 0 <= weight_bytes e).
    { rewrite Forall_forall in Hall. apply Hall.
      by apply list_elem_of_lookup_2 in He. }
    pose proof (tier_bytes_nonneg LLAMA_TIER_GPU
                  (drop (S k) (ts_entries st))
                  (Forall_drop _ _ _ Hall')) as Hbg.
    pose proof (tier_bytes_nonneg LLAMA_TIER_CPU
                  (drop (S k) (ts_entries st))
                  (Forall_drop _ _ _ Hall')) as Hbc.
    destruct (count_tier_total (drop (S k) (ts_entries st)))
      as (Hsum & Hc1 & Hc2 & Hc3).
    rewrite length_drop in Hsum.
    set (t := greedy_tier (ts_gpu_budget st) (ts_cpu_budget st)
                (weight_bytes e)).
    set (es' := <[k := set_tier e t]> (ts_entries st)).
    assert (Hdrop1 : drop (S k) es' = drop (S k) (ts_entries st))
      by (apply drop_insert_lt; lia).
    assert (Hdrop0 : drop k es' = set_tier e t :: drop (S k) (ts_entries st)).
    { rewrite <- Hdrop1. apply drop_S. unfold es'.
      apply list_lookup_insert_eq. lia. }
    destruct (greedy_tier_budget (ts_gpu_budget st) (ts_cpu_budget st)
                (weight_bytes e) Hwb) as [Hfg Hfc]. fold t in Hfg, Hfc.
    eexists. split.
    { replace (Z.of_nat (S m)) with (Z.succ (Z.of_nat m)) by lia.
      rewrite seqZ_cons by lia. rewrite reverse_cons, for_each_app.
      replace (Z.succ (Z.of_nat k)) with (Z.of_nat (S k)) by lia.
      replace (Z.pred (Z.succ (Z.of_nat m))) with (Z.of_nat m) by lia.
      rewrite Hrun. simpl.
      pose proof (assign_tier_Done st (Z.of_nat k) e) as Hstep.
      rewrite Nat2Z.id in Hstep. fold t in Hstep.
      rewrite Hstep by (done || lia). reflexivity. }
    simpl. fold es'.
    split; [unfold es'; by rewrite length_insert|].
    split.
    { intros j Hj. unfold es'. rewrite list_lookup_insert_ne by lia.
      apply Hlow. lia. }
    split.
    { intros j e' Hj He'. destruct (decide (j = k)) as [->|Hne].
      - rewrite He in He'. injection He' as <-.
        rewrite Hdrop1. unfold es'.
        rewrite list_lookup_insert_eq by lia.
        by rewrite <- Hg, <- Hc.
      - unfold es'. rewrite list_lookup_insert_ne by done.
        rewrite drop_insert_lt by lia.
        apply Hhigh; [lia | done]. }
    rewrite Hdrop0. simpl.
    fold (tier_bytes LLAMA_TIER_GPU (drop (S k) (ts_entries st)))
         (tier_bytes LLAMA_TIER_CPU (drop (S k) (ts_entries st)))
         (count_tier LLAMA_TIER_GPU (drop (S k) (ts_entries st)))
         (count_tier LLAMA_TIER_CPU (drop (S k) (ts_entries st)))
         (count_tier LLAMA_TIER_DISK (drop (S k) (ts_entries st))).
    repeat (split; [lia|]).
    unfold es'. apply Forall_insert; [done|]. done.
Qed.


Lemma all_bytes_ext (l1 l2 : list llama_layer_window_entry) :
  weight_bytes <$> l1 = weight_bytes <$> l2 → all_bytes l1 = all_bytes l2.
Proof.
  revert l2. induction l1 as [|x l1 IH]; intros [|y l2] H; try done.
  simpl in *. injection H as Hxy H. rewrite Hxy. f_equal. by apply IH.
Qed.

Lemma tier_bytes_le_all t es :
  Forall (λ e, 0 <= weight_bytes e) es → tier_bytes t es <= all_bytes es.
Proof.
  induction 1 as [|x es Hx _ IH]; simpl; [lia|].
  fold (tier_bytes t es) (all_bytes es). destruct (tier_eqb (tier x) t); lia.
Qed.

Lemma all_bytes_drop es j e :
  Forall (λ e, 0 <= weight_bytes e) es → es !! j = Some e →
  weight_bytes e + all_bytes (drop (S j) es) <= all_bytes es.
Proof.
  intros Hall He. rewrite <- (take_drop_middle es j e He) at 2.
  assert (Happ : ∀ l1 l2, all_bytes (l1 ++ l2) = all_bytes l1 + all_bytes l2).
  { induction l1 as [|x l1 IH]; intros l2; simpl; [done|].
    fold (all_bytes (l1 ++ l2)) (all_bytes l1). rewrite IH. lia. }
  rewrite Happ. simpl. fold (all_bytes (drop (S j) es)).
  assert (0 <= all_bytes (take j es)).
  { pose proof (tier_bytes_le_all LLAMA_TIER_GPU (take j es)
                  (Forall_take _ _ _ Hall)).
    pose proof (tier_bytes_nonneg LLAMA_TIER_GPU (take j es)
                  (Forall_take _ _ _ Hall)). lia. }
  lia.
Qed.

Lemma tier_budget_range x : 0 <= tier_budget x < 2 ^ 64.
Proof.
  unfold tier_budget. destruct (TIER_SAFETY_MARGIN <? x); [|lia].
  apply wrap64_range.
Qed.

(** X20: [auto_detect_tiers] is a greedy fit from the last layer down.
    For a window with one entry per layer and non-negative layer sizes the
    call returns and changes only the [tier] of each entry.  Layer [j]
    gets the GPU tier when its size is at most the GPU budget less the
    sizes of the later layers already placed on the GPU, else the CPU tier
    when it fits the CPU budget in the same way, else the disk tier; the
    budgets are the free memory less 256 MiB, or 0.  So the GPU-tier
    layers together fit the GPU budget and the CPU-tier layers the CPU
    budget, [n_gpu_static] and the two other counts are the numbers of
    layers of each tier and add up to [n_layer], every layer is placed on
    the GPU when all layers together fit the GPU budget, a layer of size 0
    is always placed on the GPU, and with both budgets 0 every layer of
    positive size goes to disk. *)
Theorem auto_detect_tiers_greedy (w : llama_layer_window)
    (devices : list ggml_backend_dev) (cpu_available : Z) :
  length (entries w) = Z.to_nat (n_layer w) → 0 <= n_layer w < 2 ^ 31 →
  Forall (λ e, 0 <= weight_bytes e) (entries w) →
  let gpu_budget := tier_budget (gpu_free_of devices) in
  let cpu_budget := tier_budget cpu_available in
  ∃ st,
    auto_detect_tiers w devices cpu_available = Done st ∧
    length (ts_entries st) = length (entries w) ∧
    (∀ j e, entries w !! j = Some e →
       ts_entries st !! j
       = Some (set_tier e
                 (greedy_tier
                    (gpu_budget - tier_bytes LLAMA_TIER_GPU
                                    (drop (S j) (ts_entries st)))
                    (cpu_budget - tier_bytes LLAMA_TIER_CPU
                                    (drop (S j) (ts_entries st)))
                    (weight_bytes e)))) ∧
    tier_bytes LLAMA_TIER_GPU (ts_entries st) <= gpu_budget ∧
    tier_bytes LLAMA_TIER_CPU (ts_entries st) <= cpu_budget ∧
    ts_gpu_budget st = gpu_budget - tier_bytes LLAMA_TIER_GPU (ts_entries st) ∧
    ts_cpu_budget st = cpu_budget - tier_bytes LLAMA_TIER_CPU (ts_entries st) ∧
    ts_n_gpu_static st = count_tier LLAMA_TIER_GPU (ts_entries st) ∧
    ts_n_cpu st = count_tier LLAMA_TIER_CPU (ts_entries st) ∧
    ts_n_disk st = count_tier LLAMA_TIER_DISK (ts_entries st) ∧
    ts_n_gpu_static st + ts_n_cpu st + ts_n_disk st = n_layer w ∧
    (∀ j e', ts_entries st !! j = Some e' →
       (all_bytes (entries w) <= gpu_budget → tier e' = LLAMA_TIER_GPU) ∧
       (weight_bytes e' = 0 → tier e' = LLAMA_TIER_GPU) ∧
       (gpu_budget = 0 → cpu_budget = 0 → 0 < weight_bytes e' →
        tier e' = LLAMA_TIER_DISK)).
Proof.
  intros Hlen Hn Hall gpu_budget cpu_budget.
  pose proof (tier_budget_range (gpu_free_of devices)) as Hgb.
  pose proof (tier_budget_range cpu_available) as Hcb.
  fold gpu_budget in Hgb. fold cpu_budget in Hcb.
  destruct (tiers_loop (entries w) gpu_budget cpu_budget (length (entries w)))
    as (st & Hrun & Hlen' & _ & Hhigh & Hg & Hc & Hg0 & Hc0
        & Hng & Hnc & Hnd & Hall'); [lia | done | done | done | lia |].
  rewrite Nat.sub_diag in *. rewrite drop_0 in *.
  destruct (count_tier_total (ts_entries st)) as (Hsum & _).
  exists st. split.
  { unfold auto_detect_tiers.
    rewrite i32_Done by (unfold is_i32; lia). simpl.
    replace (n_layer w - 1 + 1) with (Z.of_nat (length (entries w))) by lia.
    exact Hrun. }
  split; [done|].
  split; [intros j e He; apply Hhigh; [lia | done]|].
  split; [lia|]. split; [lia|]. split; [done|]. split; [done|].
  split; [done|]. split; [done|]. split; [done|].
  split; [lia|].
  intros j e' He'.
  assert (Hj : (j < length (entries w))%nat)
    by (apply lookup_lt_Some in He'; lia).
  destruct (lookup_lt_is_Some_2 (entries w) j Hj) as [e He].
  pose proof (Hhigh j e ltac:(lia) He) as Hje.
  rewrite He' in Hje. injection Hje as ->. simpl.
  pose proof (tier_bytes_nonneg LLAMA_TIER_GPU (drop (S j) (ts_entries st))
                (Forall_drop _ _ _ Hall')) as Hbg.
  pose proof (tier_bytes_nonneg LLAMA_TIER_CPU (drop (S j) (ts_entries st))
                (Forall_drop _ _ _ Hall')) as Hbc.
  pose proof (tier_bytes_le_all LLAMA_TIER_GPU (drop (S j) (ts_entries st))
                (Forall_drop _ _ _ Hall')) as Hle.
  pose proof (all_bytes_drop (ts_entries st) j _ Hall' He') as Hdrop.
  simpl in Hdrop.
  assert (Hsame : all_bytes (ts_entries st) = all_bytes (entries w)).
  { apply all_bytes_ext. apply list_eq. intros i.
    rewrite !list_lookup_fmap.
    destruct (entries w !! i) as [ei|] eqn:Hi.
    - by rewrite (Hhigh i ei ltac:(lia) Hi).
    - rewrite lookup_ge_None_2; [done|].
      apply lookup_ge_None_1 in Hi. lia. }
  assert (Hsuffix : tier_bytes LLAMA_TIER_GPU (drop (S j) (ts_entries st))
                    <= tier_bytes LLAMA_TIER_GPU (ts_entries st)).
  { rewrite <- (take_drop_middle (ts_entries st) j _ He') at 2.
    assert (Happ : ∀ l1 l2, tier_bytes LLAMA_TIER_GPU (l1 ++ l2)
              = tier_bytes LLAMA_TIER_GPU l1 + tier_bytes LLAMA_TIER_GPU l2).
    { induction l1 as [|x l1 IH]; intros l2; simpl; [done|].
      fold (tier_bytes LLAMA_TIER_GPU (l1 ++ l2))
           (tier_bytes LLAMA_TIER_GPU l1). rewrite IH. lia. }
    rewrite Happ.
    pose proof (tier_bytes_nonneg LLAMA_TIER_GPU (take j (ts_entries st))
                  (Forall_take _ _ _ Hall')).
    pose proof (tier_bytes_nonneg LLAMA_TIER_GPU
                  [set_tier e (greedy_tier
                     (gpu_budget - tier_bytes LLAMA_TIER_GPU
                                     (drop (S j) (ts_entries st)))
                     (cpu_budget - tier_bytes LLAMA_TIER_CPU
                                     (drop (S j) (ts_entries st)))
                     (weight_bytes e))]) as Hone.
    simpl in Hone.
    assert (0 <= weight_bytes e).
    { rewrite Forall_forall in Hall. apply Hall.
      by apply list_elem_of_lookup_2 in He. }
    change (tier_bytes LLAMA_TIER_GPU (?x :: ?l))
      with ((if tier_eqb (tier x) LLAMA_TIER_GPU then weight_bytes x else 0)
            + tier_bytes LLAMA_TIER_GPU l).
    simpl. destruct (tier_eqb _ LLAMA_TIER_GPU); lia. }
  unfold greedy_tier. split; [|split].
  - intros Hfit.
    destruct (Z.leb_spec (weight_bytes e)
                (gpu_budget - tier_bytes LLAMA_TIER_GPU
                                (drop (S j) (ts_entries st)))); [done|lia].
  - intros Hz.
    destruct (Z.leb_spec (weight_bytes e)
                (gpu_budget - tier_bytes LLAMA_TIER_GPU
                                (drop (S j) (ts_entries st)))); [done|lia].
  - intros Hg1 Hc1 Hpos.
    destruct (Z.leb_spec (weight_bytes e)
                (gpu_budget - tier_bytes LLAMA_TIER_GPU
                                (drop (S j) (ts_entries st)))); [lia|].
    destruct (Z.leb_spec (weight_bytes e)
                (cpu_budget - tier_bytes LLAMA_TIER_CPU
                                (drop (S j) (ts_entries st)))); [lia|done].
Qed.


Lemma auto_detect_tiers_greedy_witness :
  ∃ st,
    auto_detect_tiers
      (mk_window 32 0
         ((λ i, mk_entry i LLAMA_TIER_CPU LLAMA_XFER_IDLE (200 * 2 ^ 20) (-1) [])
            <$> seqZ 0 32)
         0 [0; 0])
      [mk_dev GGML_BACKEND_DEVICE_TYPE_CPU (64 * 2 ^ 30);
       mk_dev GGML_BACKEND_DEVICE_TYPE_GPU (2 ^ 30 + 256 * 2 ^ 20)]
      (2 * 2 ^ 30 + 256 * 2 ^ 20) = Done st ∧
    ts_n_gpu_static st = 5 ∧ ts_n_cpu st = 10 ∧ ts_n_disk st = 17 ∧
    tier_bytes LLAMA_TIER_GPU (ts_entries st) <= 2 ^ 30.
Proof.
  destruct (auto_detect_tiers_greedy
              (mk_window 32 0
                 ((λ i, mk_entry i LLAMA_TIER_CPU LLAMA_XFER_IDLE
                                 (200 * 2 ^ 20) (-1) [])
                    <$> seqZ 0 32)
                 0 [0; 0])
              [mk_dev GGML_BACKEND_DEVICE_TYPE_CPU (64 * 2 ^ 30);
               mk_dev GGML_BACKEND_DEVICE_TYPE_GPU (2 ^ 30 + 256 * 2 ^ 20)]
              (2 * 2 ^ 30 + 256 * 2 ^ 20))
    as (st & Hrun & _ & _ & Hfit & _ & _ & _ & _ & _ & _ & _ & _).
  - vm_compute. reflexivity.
  - simpl. lia.
  - apply Forall_forall. intros e He.
    apply list_elem_of_fmap in He as (i & -> & _). simpl. lia.
  - exists st. split; [exact Hrun|].
    assert (Hcounts : ts_n_gpu_static st = 5 ∧ ts_n_cpu st = 10
                      ∧ ts_n_disk st = 17).
    { vm_compute in Hrun. injection Hrun as <-. by vm_compute. }
    destruct Hcounts as (H1 & H2 & H3).
    split; [exact H1|]. split; [exact H2|]. split; [exact H3|]. exact Hfit.
Defined.

(** ** Eviction within budget *)

Lemma evict_lru_shape budget cache freed cache' :
  0 <= budget → Forall (λ e, 0 <= ce_size e) cache → sum_sizes cache < 2 ^ 64 →
  evict_lru budget cache freed cache' →
  Permutation cache (freed ++ cache') ∧ by_access (freed ++ cache') ∧
  sum_sizes cache' <= budget ∧
  (freed ≠ [] → budget < sum_sizes cache).
Proof.
  intros Hb Hnn Hfit Hev. destruct cache as [|e0 cache0].
  { destruct Hev as [-> ->]. simpl. unfold by_access.
    split; [done|]. split; [constructor|]. split; [lia | done]. }
  destruct Hev as (sorted & Hpost & Hrun).
  pose proof Hpost as [Hperm _].
  assert (Hnn' : Forall (λ e, 0 <= ce_size e) sorted) by (by rewrite <- Hperm).
  assert (Hfit' : sum_sizes sorted < 2 ^ 64)
    by (by rewrite <- (sum_sizes_perm _ _ Hperm)).
  unfold evict_sorted in Hrun. rewrite cache_total_exact in Hrun by done.
  destruct (evict_loop_spec budget sorted [] Hb Hnn' Hfit')
    as (ev & kept & Hrun' & Hsplit & Hk & Hmin).
  rewrite Hrun in Hrun'. simpl in Hrun'. injection Hrun' as -> ->.
  rewrite <- Hsplit.
  split; [done|]. split; [by apply (std_sort_by_access _ _ Hpost)|].
  split; [done|].
  intros Hne. destruct ev as [|e post]; [done|].
  specialize (Hmin [] e post eq_refl).
  rewrite (sum_sizes_perm _ _ Hperm), Hsplit. exact Hmin.
Qed.

(** X21: [evict_lru] frees something only when the cache is over budget.
    For non-negative sizes whose sum fits a [size_t], every run frees
    nothing exactly when the cached bytes are at most the budget, and then
    leaves the same entries, ordered by [last_access]; the bytes freed and
    the bytes kept add up to the bytes cached before; and a second
    [evict_lru] right after the first frees nothing and keeps the same
    entries. *)
Theorem evict_lru_only_over_budget (budget : Z) (cache : list cpu_cache_entry) :
  0 <= budget → Forall (λ e, 0 <= ce_size e) cache → sum_sizes cache < 2 ^ 64 →
  ∀ freed cache',
    evict_lru budget cache freed cache' →
    (freed = [] ↔ sum_sizes cache <= budget) ∧
    (sum_sizes cache <= budget → Permutation cache cache' ∧ by_access cache') ∧
    sum_sizes freed + sum_sizes cache' = sum_sizes cache ∧
    (∀ freed2 cache2,
       evict_lru budget cache' freed2 cache2 →
       freed2 = [] ∧ Permutation cache' cache2 ∧ by_access cache2).
Proof.
  intros Hb Hnn Hfit freed cache' Hev.
  destruct (evict_lru_shape budget cache freed cache' Hb Hnn Hfit Hev)
    as (Hperm & Hsorted & Hkept & Hover).
  assert (Hnn' : Forall (λ e, 0 <= ce_size e) (freed ++ cache'))
    by (by rewrite <- Hperm).
  apply Forall_app in Hnn' as [Hnnf Hnnk].
  assert (Hsum : sum_sizes freed + sum_sizes cache' = sum_sizes cache).
  { by rewrite (sum_sizes_perm _ _ Hperm), sum_sizes_app. }
  pose proof (sum_sizes_nonneg freed Hnnf) as Hf0.
  assert (Hiff : freed = [] ↔ sum_sizes cache <= budget).
  { split.
    - intros ->. simpl in Hsum. lia.
    - intros Hle. destruct freed as [|e post]; [done|].
      assert (budget < sum_sizes cache) by (by apply Hover). lia. }
  split; [done|]. split.
  { intros Hle. apply Hiff in Hle. subst freed. by simpl in *. }
  split; [done|].
  intros freed2 cache2 Hev2.
  destruct (evict_lru_shape budget cache' freed2 cache2 Hb Hnnk) as
    (Hperm2 & Hsorted2 & _ & Hover2); [lia | done |].
  assert (freed2 = []) as ->.
  { destruct freed2 as [|e post]; [done|].
    assert (budget < sum_sizes cache') by (by apply Hover2). lia. }
  by simpl in *.
Qed.

Lemma evict_lru_only_over_budget_witness :
  ∃ freed cache',
    evict_lru 100 [mk_cache_entry 3 7000 40 9; mk_cache_entry 1 7100 50 2]
              freed cache' ∧
    freed = [] ∧ sum_sizes cache' = 90.
Proof.
  pose proof (evict_lru_stable_admissible 100
                [mk_cache_entry 3 7000 40 9; mk_cache_entry 1 7100 50 2])
    as Hev.
  set (freed := (evict_lru_stable 100
                   [mk_cache_entry 3 7000 40 9; mk_cache_entry 1 7100 50 2]).1)
    in *.
  set (cache' := (evict_lru_stable 100
                    [mk_cache_entry 3 7000 40 9; mk_cache_entry 1 7100 50 2]).2)
    in *.
  exists freed, cache'. split; [exact Hev|].
  destruct (evict_lru_only_over_budget 100
              [mk_cache_entry 3 7000 40 9; mk_cache_entry 1 7100 50 2]
              ltac:(lia)
              ltac:(repeat constructor; simpl; lia)
              ltac:(simpl; lia) freed cache' Hev)
    as (Hiff & _ & Hsum & _).
  assert (Hnil : freed = []) by (apply Hiff; simpl; lia).
  split; [exact Hnil|].
  assert (H0 : sum_sizes freed = 0) by (rewrite Hnil; reflexivity).
  assert (H1 : sum_sizes [mk_cache_entry 3 7000 40 9;
                          mk_cache_entry 1 7100 50 2] = 90) by reflexivity.
  lia.
Defined.

(** ** The table and the allocator together *)

Lemma occ_app b l1 l2 : occ b (l1 ++ l2) = occ b l1 + occ b l2.
Proof. unfold occ. rewrite count_occ_app. lia. Qed.

Lemma occ_elem_pos b l : b ∈ l → 1 <= occ b l.
Proof.
  intros H. unfold occ. apply list_elem_of_In in H.
  apply (count_occ_In Z.eq_dec) in H. lia.
Qed.

Lemma mapped_insert_fresh t k l :
  tables t !! k = None →
  mapped_blocks (set_tables t (<[k := l]> (tables t))) ≡ₚ l ++ mapped_blocks t.
Proof.
  intros Hk. unfold mapped_blocks. simpl.
  change (l ++ concat (map_to_list (tables t)).*2)
    with (concat (((k, l) :: map_to_list (tables t)).*2)).
  apply concat_perm. by rewrite (map_to_list_insert _ _ _ Hk).
Qed.

Lemma mapped_delete t k l :
  tables t !! k = Some l →
  mapped_blocks t ≡ₚ l ++ mapped_blocks (set_tables t (delete k (tables t))).
Proof.
  intros Hk. unfold mapped_blocks. simpl.
  change (l ++ concat (map_to_list (delete k (tables t))).*2)
    with (concat (((k, l) :: map_to_list (delete k (tables t))).*2)).
  apply concat_perm. by rewrite (map_to_list_delete _ _ _ Hk).
Qed.

Lemma mapped_append t seq b :
  mapped_blocks (append_block t seq b) ≡ₚ b :: mapped_blocks t.
Proof.
  unfold append_block. destruct (tables t !! seq) as [bl|] eqn:Hseq; simpl.
  - rewrite <- insert_delete_eq.
    pose proof (mapped_insert_fresh (set_tables t (delete seq (tables t)))
                  seq (bl ++ [b])) as H1.
    simpl in H1. unfold mapped_blocks at 1 in H1. simpl in H1.
    unfold mapped_blocks at 1. simpl.
    rewrite H1 by apply lookup_delete_eq.
    rewrite (mapped_delete t seq bl Hseq).
    rewrite <- app_assoc. simpl.
    by rewrite <- Permutation_middle.
  - pose proof (mapped_insert_fresh t seq [b] Hseq) as H1. simpl in H1.
    exact H1.
Qed.

Lemma share_counts_inv (a a' : llama_block_allocator) (l : list Z) :
  alloc_inv a → shareable a l →
  block_size a' = block_size a → num_blocks a' = num_blocks a →
  free_list a' = free_list a →
  length (ref_count a') = length (ref_count a) →
  (∀ b, 0 <= b →
        ref_count a' !! Z.to_nat b
        = (λ rc, rc + occ b l) <$> (ref_count a !! Z.to_nat b)) →
  alloc_inv a'.
Proof.
  intros ([Hnb Hlen Hu Hids] & Hnd & Hiff) Hs Hbs' Hnb' Hfl' Hlen' Hcnt.
  split; [|split].
  - split.
    + by rewrite Hnb'.
    + by rewrite Hlen', Hnb'.
    + apply Forall_lookup_2. intros i rc' Hi.
      specialize (Hcnt (Z.of_nat i) ltac:(lia)). rewrite Nat2Z.id in Hcnt.
      rewrite Hi in Hcnt.
      destruct (ref_count a !! i) as [rc|] eqn:Hrc; [|done].
      simpl in Hcnt. injection Hcnt as ->.
      pose proof (Forall_lookup_1 _ _ _ _ Hu Hrc) as Hrcu. simpl in Hrcu.
      destruct (decide (Z.of_nat i ∈ l)) as [Hin|Hnin].
      * destruct (Hs _ Hin) as (_ & rc0 & Hrc0 & Hpos & Hmax).
        rewrite Nat2Z.id, Hrc in Hrc0. injection Hrc0 as <-.
        pose proof (occ_nonneg (Z.of_nat i) l).
        unfold is_u32, UINT32_MAX in *. lia.
      * rewrite (occ_not_elem _ _ Hnin). unfold is_u32 in *. lia.
    + rewrite Hfl', Hnb'. done.
  - by rewrite Hfl'.
  - intros b Hb. rewrite Hnb' in Hb. rewrite Hfl', <- (Hiff b Hb).
    rewrite Hcnt by lia.
    destruct (inv_lookup a b (mk_alloc_wf _ Hnb Hlen Hu Hids) Hb)
      as (rc & Hrc & Hrcu).
    rewrite Hrc. simpl.
    destruct (decide (b ∈ l)) as [Hin|Hnin].
    + destruct (Hs _ Hin) as (_ & rc0 & Hrc0 & Hpos & _).
      rewrite Hrc in Hrc0. injection Hrc0 as <-.
      pose proof (occ_nonneg b l) as Hocc.
      split; intros [= Heq]; lia.
    + rewrite (occ_not_elem _ _ Hnin).
      split; intros [= Heq]; f_equal; lia.
Qed.


(** X22: the operations keep the table and the allocator consistent.
    From a consistent pair: allocating a block and appending it to any
    sequence, sharing a sequence into an absent destination (as long as no
    count passes [UINT32_MAX]) and freeing any sequence all return and
    leave a consistent pair, so the count of every block stays the number
    of mapping entries naming it; and once the table is empty every block
    is on the free list. *)
Theorem table_allocator_consistent (bm : build) (t : llama_block_table)
    (alloc : llama_block_allocator) :
  consistent t alloc →
  (∀ seq, free_list alloc ≠ [] →
     ∃ b alloc', allocate bm alloc = Done (b, alloc') ∧
                 consistent (append_block t seq b) alloc') ∧
  (∀ src dst blocks,
     tables t !! src = Some blocks → tables t !! dst = None →
     (∀ b, b ∈ blocks →
           occ b (mapped_blocks t) + occ b blocks <= UINT32_MAX) →
     ∃ t' alloc', share bm t src dst alloc = Done (t', alloc') ∧
                  consistent t' alloc') ∧
  (∀ seq, ∃ t' alloc', free_seq bm t seq alloc = Done (t', alloc') ∧
                       consistent t' alloc') ∧
  (tables t = ∅ →
     num_free alloc = total alloc ∧ can_allocate alloc (total alloc) = true).
Proof.
  intros (Hinv & Hrange & Hcnt).
  split; [|split; [|split]].
  - intros seq Hne.
    destruct (last (free_list alloc)) as [b|] eqn:Hlast;
      [|by apply last_None in Hlast].
    apply last_Some in Hlast as [l Hfl].
    destruct (inv_top_free alloc l b Hinv Hfl) as (Hb & Hrc & Hnl).
    destruct (allocate_inv bm alloc Hinv Hne) as (b0 & a0 & Hrun & Hinv0 & _).
    pose proof (allocate_Done bm alloc l b Hfl ltac:(lia) Hrc) as Hrun'.
    rewrite Hrun in Hrun'. injection Hrun' as -> ->.
    eexists _, _. split; [exact Hrun|].
    assert (Hzero : occ b (mapped_blocks t) = 0).
    { specialize (Hcnt b Hb). rewrite Hrc in Hcnt. by injection Hcnt. }
    split; [done|]. simpl. split.
    + intros x Hx. rewrite (mapped_append t seq b) in Hx.
      apply elem_of_cons in Hx as [->|Hx]; [done | by apply Hrange].
    + intros x Hx. rewrite (occ_perm _ _ _ (mapped_append t seq b)).
      destruct (decide (x = b)) as [->|Hxb].
      * rewrite list_lookup_insert_eq
          by (apply lookup_lt_Some in Hrc; done).
        rewrite occ_cons_eq, Hzero. done.
      * rewrite list_lookup_insert_ne by lia.
        rewrite occ_cons_ne by done. by apply Hcnt.
  - intros src dst blocks Hsrc Hdst Hmax.
    assert (Hsub : ∀ b, b ∈ blocks →
              b ∈ mapped_blocks t ∧ occ b blocks <= occ b (mapped_blocks t)).
    { intros b Hb. rewrite (occ_perm b _ _ (mapped_delete t src blocks Hsrc)).
      rewrite (mapped_delete t src blocks Hsrc), occ_app, elem_of_app.
      split; [by left|].
      pose proof (occ_nonneg b (mapped_blocks
                     (set_tables t (delete src (tables t))))). lia. }
    assert (Hs : shareable alloc blocks).
    { intros b Hb. destruct (Hsub b Hb) as [Hin Hle].
      pose proof (Hrange b Hin) as Hbr. split; [done|].
      exists (occ b (mapped_blocks t)). split; [by apply Hcnt|].
      pose proof (occ_elem_pos b blocks Hb). split; [lia|]. by apply Hmax. }
    destruct (share_Done bm t src dst alloc blocks Hsrc Hs)
      as (alloc' & Hrun & Hbs' & Hnb' & Hfl' & Hlen' & Hcnt').
    eexists _, alloc'. split; [exact Hrun|].
    split; [by apply (share_counts_inv alloc alloc' blocks)|].
    split.
    + intros b Hb. rewrite (mapped_insert_fresh t dst blocks Hdst) in Hb.
      rewrite Hnb'. apply elem_of_app in Hb as [Hb|Hb]; [|by apply Hrange].
      apply Hrange. by apply Hsub.
    + intros b Hb. rewrite Hnb' in Hb.
      rewrite (occ_perm b _ _ (mapped_insert_fresh t dst blocks Hdst)).
      rewrite Hcnt' by lia. rewrite (Hcnt b Hb). simpl.
      f_equal. rewrite occ_app. lia.
  - intros seq. unfold free_seq.
    destruct (tables t !! seq) as [blocks|] eqn:Hseq;
      [|by exists t, alloc].
    pose proof (mapped_delete t seq blocks Hseq) as Hperm.
    assert (Hrel : releasable alloc blocks).
    { intros b Hb.
      assert (Hin : b ∈ mapped_blocks t)
        by (rewrite Hperm, elem_of_app; by left).
      pose proof (Hrange b Hin) as Hbr. split; [done|].
      exists (occ b (mapped_blocks t)). split; [by apply Hcnt|].
      rewrite (occ_perm b _ _ Hperm), occ_app.
      pose proof (occ_nonneg b (mapped_blocks
                     (set_tables t (delete seq (tables t))))). lia. }
    destruct (free_block_all_inv bm blocks alloc Hinv Hrel)
      as (alloc' & Hrun & Hinv' & Hnb' & _ & _ & Hcnt').
    rewrite Hrun. simpl. eexists _, alloc'. split; [reflexivity|].
    split; [done|]. split.
    + intros b Hb. rewrite Hnb'. apply Hrange.
      rewrite Hperm, elem_of_app. by right.
    + intros b Hb. rewrite Hnb' in Hb.
      rewrite Hcnt' by lia. rewrite (Hcnt b Hb). simpl. f_equal.
      rewrite (occ_perm b _ _ Hperm), occ_app. lia.
  - intros Hempty.
    pose proof Hinv as ([Hnb Hlen _ _] & _ & _).
    assert (Hall : length (free_list alloc) = Z.to_nat (num_blocks alloc)).
    { rewrite (free_list_length alloc Hinv). unfold zero_counts.
      rewrite all_zero_counts; [done|].
      intros i rc Hi.
      assert (Hir : 0 <= Z.of_nat i < num_blocks alloc).
      { apply lookup_lt_Some in Hi. lia. }
      specialize (Hcnt _ Hir). rewrite Nat2Z.id, Hi in Hcnt.
      injection Hcnt as ->. unfold mapped_blocks.
      by rewrite Hempty, map_to_list_empty. }
    unfold num_free, can_allocate, total. rewrite Hall.
    unfold is_u32 in Hnb. rewrite Z2Nat.id by lia.
    rewrite wrap32_small by (unfold is_u32; lia).
    split; [done | apply Z.leb_refl].
Qed.

Lemma table_allocator_consistent_witness :
  ∃ b alloc',
    allocate Debug (mk_allocator 32 2 [1; 0] [0; 0]) = Done (b, alloc') ∧
    consistent (append_block (mk_table 32 ∅) 7 b) alloc'.
Proof.
  assert (Hc : consistent (mk_table 32 ∅) (mk_allocator 32 2 [1; 0] [0; 0])).
  { split; [|split].
    - apply (construct_inv Debug 64 32);
        [unfold is_u32; lia | unfold is_u32; lia | lia | reflexivity].
    - intros b Hb. vm_compute in Hb. inversion Hb.
    - intros b Hb. simpl in Hb.
      assert (Hcases : b = 0 ∨ b = 1) by lia.
      destruct Hcases as [-> | ->]; reflexivity. }
  apply (proj1 (table_allocator_consistent Debug _ _ Hc) 7).
  simpl. discriminate.
Defined.
